(** * web-scraping-api: extraction and request-shaping logic

    A shallow embedding of the library code under [src/lib] of the
    scraping service (error classifier, Markdown rules, retry wrappers,
    field resolution, cache layer, per-domain rate limiter) together with
    the properties the design document states about it.

    Conventions.
    - JavaScript numbers that the code uses as integers (counters,
      millisecond timestamps, status codes) are [Z].
    - JavaScript strings are [string]; the characters the code inspects
      are ASCII, so a string is read as its sequence of bytes.
    - [T | null] and [T | undefined] are [option T].
    - An [async] function that can reject is a computation returning
      [Res]; a [try]/[catch] is [try_catch]. *)

From Stdlib Require Import ZArith Lia Bool Ascii String List.
From stdpp Require Import base option list strings gmap sorting pretty.

Local Open Scope string_scope.
Local Open Scope Z_scope.

(** String concatenation computes on literals. *)
#[local] Arguments String.append !s1 s2 : simpl nomatch.

(** ** JavaScript helpers *)

Module JS.

(** Truthiness of a string: only the empty string is falsy. *)
Definition truthy (s : string) : bool :=
  match s with
  | EmptyString => false
  | String _ _ => true
  end.

(** [a || b] on strings. *)
Definition or_else (a b : string) : string :=
  if truthy a then a else b.

(** [s.startsWith(p)]. *)
Fixpoint startsWith (s p : string) {struct p} : bool :=
  match p, s with
  | EmptyString, _ => true
  | String a p', String b s' => Ascii.eqb a b && startsWith s' p'
  | String _ _, EmptyString => false
  end.

(** [s.includes(p)]: [p] occurs at some offset of [s]. *)
Fixpoint includes (s p : string) : bool :=
  startsWith s p ||
  match s with
  | EmptyString => false
  | String _ s' => includes s' p
  end.

(** The declarative reading of [includes]. *)
Definition Includes (s p : string) : Prop :=
  exists a b : string, s = a ++ p ++ b.

(** [Math.ceil(a / b)] for an integer [a] and a positive integer [b]. *)
Definition ceil_div (a b : Z) : Z := - ((- a) / b).

(** A JavaScript string is represented by its UTF-8 encoding, one
    [ascii] per byte; the strings of the program are well formed, so a
    byte pattern below only ever matches a whole character. *)

(** The white space that [String.prototype.trim] removes (WhiteSpace and
    LineTerminator of ECMAScript). One byte: TAB, LF, VT, FF, CR and
    SPACE. *)
Definition is_space (c : ascii) : bool :=
  let n := nat_of_ascii c in
  ((9 <=? n)%nat && (n <=? 13)%nat) || (n =? 32)%nat.

(** Two bytes: U+00A0, the no-break space ([C2 A0]). *)
Definition is_space2 (a b : ascii) : bool :=
  (nat_of_ascii a =? 194)%nat && (nat_of_ascii b =? 160)%nat.

(** Three bytes: U+1680 ([E1 9A 80]), U+2000 to U+200A ([E2 80 80] to
    [E2 80 8A]), U+2028 and U+2029 ([E2 80 A8], [E2 80 A9]), U+202F
    ([E2 80 AF]), U+205F ([E2 81 9F]), U+3000 ([E3 80 80]) and U+FEFF
    ([EF BB BF]). *)
Definition is_space3 (a b c : ascii) : bool :=
  let x := nat_of_ascii a in
  let y := nat_of_ascii b in
  let z := nat_of_ascii c in
  ((x =? 225) && (y =? 154) && (z =? 128)
   || (x =? 226) && (y =? 128)
      && ((128 <=? z) && (z <=? 138) || (z =? 168) || (z =? 169) || (z =? 175))
   || (x =? 226) && (y =? 129) && (z =? 159)
   || (x =? 227) && (y =? 128) && (z =? 128)
   || (x =? 239) && (y =? 187) && (z =? 191))%nat.

Fixpoint trimStart (s : string) : string :=
  match s with
  | EmptyString => EmptyString
  | String a r1 =>
      if is_space a then trimStart r1
      else
        match r1 with
        | EmptyString => s
        | String b r2 =>
            if is_space2 a b then trimStart r2
            else
              match r2 with
              | EmptyString => s
              | String c r3 => if is_space3 a b c then trimStart r3 else s
              end
        end
  end.

(** The string consists of white space only. *)
Fixpoint allSpace (s : string) : bool :=
  match s with
  | EmptyString => true
  | String a r1 =>
      if is_space a then allSpace r1
      else
        match r1 with
        | EmptyString => false
        | String b r2 =>
            if is_space2 a b then allSpace r2
            else
              match r2 with
              | EmptyString => false
              | String c r3 => is_space3 a b c && allSpace r3
              end
        end
  end.

(** [trimEnd] drops the trailing white space: the string is cut where
    nothing but white space follows. *)
Fixpoint trimEnd (s : string) : string :=
  match s with
  | EmptyString => EmptyString
  | String c s' => if allSpace s then EmptyString else String c (trimEnd s')
  end.

Definition trim (s : string) : string := trimEnd (trimStart s).

(** [s.length]: the number of UTF-16 code units. A byte that continues
    a character counts for nothing, the first byte of a character for
    one unit, and for two when the character takes four bytes (a
    surrogate pair). *)
Definition units (c : ascii) : nat :=
  let n := nat_of_ascii c in
  if (n <? 128)%nat then 1%nat
  else if (n <? 192)%nat then 0%nat
  else if (n <? 240)%nat then 1%nat
  else 2%nat.

Fixpoint lengthOf (s : string) : nat :=
  match s with
  | EmptyString => 0%nat
  | String c rest => (units c + lengthOf rest)%nat
  end.

(** The no-break space and a letter with an accent, as bytes. *)
Definition nbsp : string :=
  String (ascii_of_nat 194) (String (ascii_of_nat 160) EmptyString).

Definition e_acute : string :=
  String (ascii_of_nat 195) (String (ascii_of_nat 169) EmptyString).

(** [xs.join(sep)]. *)
Fixpoint join (sep : string) (xs : list string) : string :=
  match xs with
  | [] => ""
  | [x] => x
  | x :: rest => x ++ sep ++ join sep rest
  end.

End JS.

(** ** Outcomes of fallible computations *)

(** What a [throw] carries. [E] is the type of thrown values. *)
Inductive Res (E A : Type) : Type :=
  | Ok (a : A)
  | Throw (e : E).
Arguments Ok {E A} a.
Arguments Throw {E A} e.

(** ** Error taxonomy ([src/lib/errors.ts]) *)

Module Errors.

Inductive ErrorType : Type :=
  | VALIDATION_ERROR
  | RATE_LIMIT_ERROR
  | TIMEOUT_ERROR
  | SCRAPING_ERROR
  | NETWORK_ERROR
  | BROWSER_ERROR
  | INTERNAL_ERROR
  | NOT_FOUND_ERROR.

(** [details?: Record<string, unknown>]; the code only ever stores
    numbers there ([{ timeoutMs }]). *)
Definition Details : Type := list (string * Z).

Record ScrapingError : Type := mkScrapingError {
  message : string;
  type : ErrorType;
  statusCode : Z;
  details : option Details
}.

(** The constructor, with its default arguments
    [type = INTERNAL_ERROR] and [statusCode = 500]. *)
Definition new_ScrapingError (msg : string) (ty : option ErrorType)
    (status : option Z) (det : option Details) : ScrapingError :=
  {| message := msg;
     type := default INTERNAL_ERROR ty;
     statusCode := default 500 status;
     details := det |}.

Definition createValidationError (msg : string) (det : option Details) :=
  new_ScrapingError msg (Some VALIDATION_ERROR) (Some 400) det.

Definition createRateLimitError (msg : string) (det : option Details) :=
  new_ScrapingError msg (Some RATE_LIMIT_ERROR) (Some 429) det.

Definition createTimeoutError (msg : string) (det : option Details) :=
  new_ScrapingError msg (Some TIMEOUT_ERROR) (Some 408) det.

Definition createScrapingError (msg : string) (det : option Details) :=
  new_ScrapingError msg (Some SCRAPING_ERROR) (Some 500) det.

Definition createNetworkError (msg : string) (det : option Details) :=
  new_ScrapingError msg (Some NETWORK_ERROR) (Some 503) det.

Definition createBrowserError (msg : string) (det : option Details) :=
  new_ScrapingError msg (Some BROWSER_ERROR) (Some 500) det.

Definition createNotFoundError (msg : string) (det : option Details) :=
  new_ScrapingError msg (Some NOT_FOUND_ERROR) (Some 404) det.

(** A caught value of type [unknown]: an instance of [ScrapingError],
    some other [Error] (with its message), or anything else. *)
Inductive Thrown : Type :=
  | ThrownScrapingError (e : ScrapingError)
  | ThrownError (msg : string)
  | ThrownOther.

Definition handleError (error : Thrown) : ScrapingError :=
  match error with
  | ThrownScrapingError e => e
  | ThrownError msg =>
      if JS.includes msg "timeout" || JS.includes msg "timed out" then
        createTimeoutError ("Operation timed out: " ++ msg) None
      else if JS.includes msg "net::" || JS.includes msg "network" then
        createNetworkError ("Network error: " ++ msg) None
      else if JS.includes msg "browser" || JS.includes msg "puppeteer" then
        createBrowserError ("Browser error: " ++ msg) None
      else
        new_ScrapingError ("Internal error: " ++ msg)
          (Some INTERNAL_ERROR) (Some 500) None
  | ThrownOther =>
      new_ScrapingError "An unknown error occurred"
        (Some INTERNAL_ERROR) (Some 500) None
  end.

Definition kindAndStatus (e : ScrapingError) : ErrorType * Z :=
  (type e, statusCode e).

(** The three message patterns of [handleError]. *)
Definition TimeoutLike (msg : string) : Prop :=
  JS.Includes msg "timeout" \/ JS.Includes msg "timed out".
Definition NetworkLike (msg : string) : Prop :=
  JS.Includes msg "net::" \/ JS.Includes msg "network".
Definition BrowserLike (msg : string) : Prop :=
  JS.Includes msg "browser" \/ JS.Includes msg "puppeteer".

End Errors.

(** ** Markdown rules ([src/lib/markdown.ts]) *)

Module Markdown.

(** The line feed character and the one-character string ["\n"]. *)
Definition LF : ascii := ascii_of_nat 10.
Definition nl : string := String LF EmptyString.

(** An element as the rules see it: its attributes, in document order. *)
Record Element : Type := mkElement {
  attributes : list (string * string)
}.

(** [el.getAttribute(name)]: the value of the first attribute of that
    name, [null] when there is none. *)
Fixpoint lookupAttr (name : string) (attrs : list (string * string))
    : option string :=
  match attrs with
  | [] => None
  | (k, v) :: rest =>
      if String.eqb k name then Some v else lookupAttr name rest
  end.

Definition getAttribute (el : Element) (name : string) : option string :=
  lookupAttr name (attributes el).

(** [img.alt] reflects the [alt] attribute and is [''] without one. *)
Definition alt (img : Element) : string :=
  default "" (getAttribute img "alt").

(** Truthiness of [string | null]. *)
Definition truthy_opt (o : option string) : bool :=
  match o with
  | Some s => JS.truthy s
  | None => false
  end.

(** The replacement function of the ['images'] rule. *)
Definition imageReplacement (content : string) (img : Element) : string :=
  let alt := JS.or_else (alt img) "" in
  let src := JS.or_else (default "" (getAttribute img "src")) "" in
  if negb (JS.truthy src) then ""
  else
    let width := getAttribute img "width" in
    let height := getAttribute img "height" in
    if truthy_opt width && truthy_opt height then
      "![" ++ alt ++ "](" ++ src ++ " =" ++ default "" width
           ++ "x" ++ default "" height ++ ")"
    else if truthy_opt width then
      "![" ++ alt ++ "](" ++ src ++ " =" ++ default "" width ++ "x)"
    else if truthy_opt height then
      "![" ++ alt ++ "](" ++ src ++ " =x" ++ default "" height ++ ")"
    else
      "![" ++ alt ++ "](" ++ src ++ ")".

(** A table: [rows], each with its [cells], each with its
    [textContent] (which the DOM types as [string | null]). *)
Record Cell : Type := mkCell { textContent : option string }.
Record Row : Type := mkRow { cells : list Cell }.
Record Table : Type := mkTable { rows : list Row }.

(** [cell.textContent?.trim() || ''] *)
Definition cellText (c : Cell) : string :=
  match textContent c with
  | Some t => JS.or_else (JS.trim t) ""
  | None => ""
  end.

(** One pipe-delimited line: [`| ${xs.join(' | ')} |\n`]. *)
Definition pipeLine (xs : list string) : string :=
  "| " ++ JS.join " | " xs ++ " |" ++ nl.

(** What reading [rows[i].cells] of a missing row raises. *)
Inductive TypeError : Type := CannotReadCells.

(** The [for (let i = 1; i < rows.length; i++)] loop; [fuel] bounds the
    number of iterations and [rows.length] is always enough. *)
Fixpoint dataRows (fuel : nat) (rs : list Row) (i : nat) (markdownTable : string)
    : Res TypeError string :=
  match fuel with
  | O => Ok markdownTable
  | S fuel' =>
      if (i <? length rs)%nat then
        match rs !! i with
        | Some r =>
            dataRows fuel' rs (S i)
              (markdownTable ++ pipeLine (map cellText (cells r)))
        | None => Throw CannotReadCells
        end
      else Ok markdownTable
  end.

(** The replacement function of the ['tables'] rule. *)
Definition tableReplacement (content : string) (t : Table)
    : Res TypeError string :=
  let rs := rows t in
  match rs !! 0%nat with
  | None => Ok content
  | Some headerRow =>
      let markdownTable := nl in
      let headers := map cellText (cells headerRow) in
      let markdownTable := markdownTable ++ pipeLine headers in
      let markdownTable :=
        markdownTable ++ pipeLine (map (fun _ => "---") headers) in
      match dataRows (length rs) rs 1 markdownTable with
      | Ok markdownTable => Ok (markdownTable ++ nl)
      | Throw e => Throw e
      end
  end.

(** The shape the design document gives to a converted table: the header
    line, a separator line with one [---] per header cell, one line per
    remaining row, in order. *)
Definition rowLine (r : Row) : string := pipeLine (map cellText (cells r)).

Definition separatorLine (header : Row) : string :=
  pipeLine (replicate (length (cells header)) "---").

Definition tableLines (header : Row) (body : list Row) : list string :=
  rowLine header :: separatorLine header :: map rowLine body.

Definition concatLines (ls : list string) : string :=
  fold_right String.append "" ls.

(** An attribute counts for the image rule when it is there and not
    empty. *)
Definition Present (o : option string) (v : string) : Prop :=
  o = Some v /\ v <> "".
Definition Absent (o : option string) : Prop :=
  o = None \/ o = Some "".

(** Sample images. *)
Definition sizedImage : Element :=
  mkElement [("alt", "x"); ("src", "y"); ("width", "10"); ("height", "20")].
Definition plainImage : Element :=
  mkElement [("alt", "x"); ("src", "y")].
Definition wideImage : Element :=
  mkElement [("src", "y"); ("alt", "x"); ("width", "10")].
Definition tallImage : Element :=
  mkElement [("src", "y"); ("alt", "x"); ("height", "20")].
Definition emptySrcImage : Element :=
  mkElement [("alt", "x"); ("src", ""); ("width", "10")].

(** A sample table: a header and three rows, the second with an empty
    cell, the third with no-break spaces around and instead of text. *)
Definition cell (text : string) : Cell := mkCell (Some text).
Definition stockHeader : Row := mkRow [cell " Name "; cell "Qty"].
Definition stockBody : list Row :=
  [ mkRow [cell "Tea"; cell "2"];
    mkRow [cell "Milk"; mkCell None];
    mkRow [cell (JS.nbsp ++ "Oat" ++ JS.nbsp); cell JS.nbsp] ].

End Markdown.

(** ** Retry wrappers ([src/lib/puppeteer.ts], [src/lib/scrapers/base.ts]) *)

Module Retry.

(** What a run of a wrapper does, in order: the [k]-th invocation of the
    wrapped operation (counted from 0) and the timer waits. *)
Inductive Event : Type :=
  | Attempt (k : nat)
  | Sleep (ms : Z).

Section Wrappers.
(** Thrown values, their truthiness, and the error the wrapper makes up
    when it has none to rethrow. *)
Context {E T : Type}.
Variable truthyE : E -> bool.
Variable operationFailed : E. (* new Error('Operation failed after retries') *)

(** The wrapped operation is given by the outcome of each of its
    successive invocations. *)
Implicit Types (op : nat -> Res E T).

(** [navigateToUrl]: the [while (retries < maxRetries)] loop around
    [page.goto]. Every iteration that does not leave the function
    increments [retries], so [maxRetries] iterations are enough. *)
Fixpoint navigateLoop op (maxRetries : Z) (fuel : nat) (retries : nat)
    : Res E unit * list Event :=
  match fuel with
  | O => (Ok tt, [])
  | S fuel' =>
      if Z.of_nat retries <? maxRetries then
        match op retries with
        | Ok _ => (Ok tt, [Attempt retries])
        | Throw error =>
            let retries' := S retries in
            if Z.of_nat retries' >=? maxRetries then
              (Throw error, [Attempt retries])
            else
              let '(r, tr) := navigateLoop op maxRetries fuel' retries' in
              (r, Attempt retries :: Sleep 1000 :: tr)
        end
      else (Ok tt, [])
  end.

(** [options.maxRetries] with its default [3]. *)
Definition navigateToUrl op (maxRetries : option Z)
    : Res E unit * list Event :=
  let maxRetries := default 3 maxRetries in
  navigateLoop op maxRetries (Z.to_nat maxRetries) 0.

(** [maxRetries || 3]: [undefined] and [0] both give [3]. *)
Definition orThree (maxRetries : option Z) : Z :=
  match maxRetries with
  | Some n => if n =? 0 then 3 else n
  | None => 3
  end.

(** [throw lastError || new Error('Operation failed after retries')] *)
Definition rethrow (lastError : option E) : Res E T :=
  match lastError with
  | Some e => if truthyE e then Throw e else Throw operationFailed
  | None => Throw operationFailed
  end.

(** [withRetry]: the [for (attempt = 0; attempt < (maxRetries || 3) + 1;
    attempt++)] loop; it carries [lastError]. The bound itself is enough
    fuel. *)
Fixpoint retryLoop op (maxRetries : option Z) (fuel : nat) (attempt : nat)
    (lastError : option E) : Res E T * list Event :=
  match fuel with
  | O => (rethrow lastError, [])
  | S fuel' =>
      if Z.of_nat attempt <? orThree maxRetries + 1 then
        match op attempt with
        | Ok v => (Ok v, [Attempt attempt])
        | Throw error =>
            let lastError := Some error in
            if Z.of_nat attempt >=? orThree maxRetries then
              (rethrow lastError, [Attempt attempt])
            else
              let delay := 2 ^ Z.of_nat attempt * 1000 in
              let '(r, tr) :=
                retryLoop op maxRetries fuel' (S attempt) lastError in
              (r, Attempt attempt :: Sleep delay :: tr)
        end
      else (rethrow lastError, [])
  end.

Definition withRetry op (maxRetries : option Z) : Res E T * list Event :=
  retryLoop op maxRetries (Z.to_nat (orThree maxRetries + 1)) 0 None.

(** The behaviour the design document describes for a wrapper [run]
    given [maxRetries = n] and an operation that keeps failing:
    [n + 1] attempts, a wait of [2^k] seconds after the [k]-th failed
    attempt, and the error of the last attempt rethrown. Errors are
    objects, hence truthy. *)
Definition backoffTrace (n : nat) : list Event :=
  flat_map (fun k => [Attempt k; Sleep (2 ^ Z.of_nat k * 1000)]) (seq 0 n)
  ++ [Attempt n].

Definition FailsUpTo op (n : nat) : Prop :=
  forall k, (k <= n)%nat -> exists e, op k = Throw e.

Definition RetriesWithBackoff {R : Type}
    (run : (nat -> Res E T) -> option Z -> Res E R * list Event)
    op (n : nat) : Prop :=
  forall lastErr,
    truthyE lastErr = true ->
    FailsUpTo op n ->
    op n = Throw lastErr ->
    run op (Some (Z.of_nat n)) = (Throw lastErr, backoffTrace n).

(** What [navigateToUrl] does instead on an operation that keeps
    failing: [n] attempts, one second between them. *)
Definition constantTrace (n : nat) : list Event :=
  match n with
  | O => []
  | S m => flat_map (fun k => [Attempt k; Sleep 1000]) (seq 0 m) ++ [Attempt m]
  end.

(** The operation fails on the attempts before [k] and succeeds on
    attempt [k] with value [v]. *)
Definition FirstSuccess op (k : nat) (v : T) : Prop :=
  (forall j, (j < k)%nat -> exists e, op j = Throw e) /\ op k = Ok v.

End Wrappers.

(** A navigation that is refused every time. *)
Definition refused : nat -> Res string unit :=
  fun _ => Throw "net::ERR_CONNECTION_REFUSED".

Definition anyTruthy : string -> bool := fun _ => true.

End Retry.

(** ** Field resolution ([src/lib/scrapers/base.ts], [news.ts]) *)

Module Resolver.

Definition dq : string := String (ascii_of_nat 34) EmptyString.

Section Page.
Context {E : Type}.

(** The browser page, as far as title resolution uses it:
    [evalTextContent sel] is what [page.$eval(sel, el => el.textContent)]
    gives, which rejects when no element matches [sel] or the evaluation
    fails; [title] is [page.title()]. *)
Record Page : Type := mkPage {
  evalTextContent : string -> Res E (option string);
  title : Res E string
}.

(** [extractText]: [$eval] with the callback
    [el => el.textContent?.trim() || ''], any rejection caught. *)
Definition extractText (page : Page) (selector : string) : string :=
  match evalTextContent page selector with
  | Ok (Some t) => JS.or_else (JS.trim t) ""
  | Ok None => ""
  | Throw _ => ""
  end.

(** The [for (const selector of selectors)] loop of
    [extractArticleTitle], followed by the [page.title()] fallback. *)
Fixpoint resolveTitle (page : Page) (selectors : list string)
    : Res E string :=
  match selectors with
  | [] => title page
  | selector :: rest =>
      let t := extractText page selector in
      if JS.truthy t then Ok t else resolveTitle page rest
  end.

Definition articleTitleSelectors : list string :=
  [ "h1"; "article h1"; ".article-title"; ".post-title"; ".entry-title";
    "[itemprop=" ++ dq ++ "headline" ++ dq ++ "]"; "header h1"; "main h1" ].

Definition extractArticleTitle (page : Page) : Res E string :=
  resolveTitle page articleTitleSelectors.

(** A selector matches when its element exists and its text is not
    blank. *)
Definition Matches (page : Page) (selector value : string) : Prop :=
  exists t, evalTextContent page selector = Ok (Some t)
            /\ JS.trim t = value /\ value <> "".

Definition NoMatch (page : Page) (selector : string) : Prop :=
  forall value, ~ Matches page selector value.

End Page.
Arguments Page E : clear implicits.

(** Sample pages: the first has no [h1], an [article h1] that holds
    nothing but a space and two no-break spaces, and two class-based
    titles; the second has nothing to offer but its document title. *)
Definition newsPage : Page string :=
  mkPage
    (fun selector =>
       if String.eqb selector "article h1"
       then Ok (Some (" " ++ JS.nbsp ++ JS.nbsp))
       else if String.eqb selector ".article-title" then Ok (Some " Launch day ")
       else if String.eqb selector ".post-title" then Ok (Some "Older post")
       else Throw "failed to find element matching selector")
    (Ok "Example News").

Definition barePage : Page string :=
  mkPage (fun _ => Throw "failed to find element matching selector")
    (Ok "Untitled document").

End Resolver.

(** ** The key-value store and the effects of the service *)

Module KV.

(** Thrown values are the ones [handleError] classifies. *)
Abbreviation Thrown := Errors.Thrown.

(** An asynchronous computation over a world [W]: it ends with a value or
    a rejection, and the world it leaves behind. *)
Definition M (W A : Type) : Type := W -> Res Thrown A * W.

Definition ret {W A} (a : A) : M W A := fun w => (Ok a, w).

Definition bind {W A B} (m : M W A) (k : A -> M W B) : M W B :=
  fun w =>
    match m w with
    | (Ok a, w') => k a w'
    | (Throw e, w') => (Throw e, w')
    end.

(** [try { m } catch (error) { h error }] *)
Definition try_catch {W A} (m : M W A) (h : Thrown -> M W A) : M W A :=
  fun w =>
    match m w with
    | (Ok a, w') => (Ok a, w')
    | (Throw e, w') => h e w'
    end.

Declare Scope js_scope.
Delimit Scope js_scope with js.
Notation "x <- m ;; k" := (bind m (fun x => k))
  (at level 100, m at next level, right associativity) : js_scope.
Notation "m ;;; k" := (bind m (fun _ => k))
  (at level 100, right associativity) : js_scope.

(** The collaborator interface: a clock and a store of values of type
    [V | null] with a time to live in seconds. *)
Class Store (W V : Type) : Type := {
  now : W -> Z;
  kv_get : string -> M W (option V);
  kv_set : string -> option V -> Z -> M W unit;
  kv_del : string -> M W unit
}.

(** [Date.now()] *)
Definition Date_now {W V} `{Store W V} : M W Z := fun w => (Ok (now w), w).

(** *** The in-memory store of [lib/mock-kv.ts] *)

Record Item (V : Type) : Type := mkItem {
  value : option V;
  expiry : option Z
}.
Arguments mkItem {V} value expiry.
Arguments value {V} _.
Arguments expiry {V} _.

Record MockWorld (V : Type) : Type := mkWorld {
  store : gmap string (Item V);
  clock : Z
}.
Arguments mkWorld {V} store clock.
Arguments store {V} _.
Arguments clock {V} _.

Definition set_clock {V} (t : Z) (w : MockWorld V) : MockWorld V :=
  mkWorld (store w) t.

(** [item.expiry && item.expiry < Date.now()] *)
Definition expired {V} (item : Item V) (t : Z) : bool :=
  match expiry item with
  | Some e => negb (e =? 0) && (e <? t)
  | None => false
  end.

Definition mock_get {V} (key : string) : M (MockWorld V) (option V) :=
  fun w =>
    match store w !! key with
    | None => (Ok None, w)
    | Some item =>
        if expired item (clock w)
        then (Ok None, mkWorld (delete key (store w)) (clock w))
        else (Ok (value item), w)
    end.

(** [options?.ex ? Date.now() + options.ex * 1000 : undefined] *)
Definition mock_set {V} (key : string) (v : option V) (ex : Z)
    : M (MockWorld V) unit :=
  fun w =>
    let expiry := if ex =? 0 then None else Some (clock w + ex * 1000) in
    (Ok tt, mkWorld (<[key := mkItem v expiry]> (store w)) (clock w)).

Definition mock_delete {V} (key : string) : M (MockWorld V) unit :=
  fun w => (Ok tt, mkWorld (delete key (store w)) (clock w)).

#[export] Instance MockKV {V} : Store (MockWorld V) V := {
  now := clock;
  kv_get := mock_get;
  kv_set := mock_set;
  kv_del := mock_delete
}.

(** *** A store that is down: every operation rejects *)

Record Outage : Type := mkOutage { outage_clock : Z }.

Definition unreachable : Thrown := Errors.ThrownError "fetch failed".

#[export] Instance DownKV {V} : Store Outage V := {
  now := outage_clock;
  kv_get := fun _ w => (Throw unreachable, w);
  kv_set := fun _ _ _ w => (Throw unreachable, w);
  kv_del := fun _ w => (Throw unreachable, w)
}.

(** *** A store with transient failures *)

(** Each operation consumes the head of [faults]; [true] makes that one
    operation reject and leaves the stored data alone. *)
Record FlakyWorld (V : Type) : Type := mkFlaky {
  inner : MockWorld V;
  faults : list bool
}.
Arguments mkFlaky {V} inner faults.
Arguments inner {V} _.
Arguments faults {V} _.

Definition flaky {V A} (op : M (MockWorld V) A) : M (FlakyWorld V) A :=
  fun w =>
    match faults w with
    | true :: rest => (Throw unreachable, mkFlaky (inner w) rest)
    | false :: rest => let '(r, i) := op (inner w) in (r, mkFlaky i rest)
    | [] => let '(r, i) := op (inner w) in (r, mkFlaky i [])
    end.

#[export] Instance FlakyKV {V} : Store (FlakyWorld V) V := {
  now := fun w => clock (inner w);
  kv_get := fun key => flaky (mock_get key);
  kv_set := fun key v ex => flaky (mock_set key v ex);
  kv_del := fun key => flaky (mock_delete key)
}.

End KV.

(** ** Per-domain rate limiter ([src/lib/ratelimit.ts]) *)

Module RateLimit.
Import KV.
Local Open Scope js_scope.

(** The record kept under [ratelimit:<domain>]. *)
Record Window : Type := mkWindow {
  count : Z;
  reset : Z
}.

Module Info.
Record RateLimitInfo : Type := mk {
  limited : bool;
  remaining : Z;
  reset : Z;
  current : Z;
  max : Z;
  resetInSeconds : Z
}.
End Info.
Abbreviation RateLimitInfo := Info.RateLimitInfo.

Definition DEFAULT_maxRequests : Z := 60.
Definition DEFAULT_windowMs : Z := 60000.

Definition keyOf (domain : string) : string := "ratelimit:" ++ domain.

Section Limiter.
Context {W : Type} `{Store W Window}.

(** The "not limited" answer given for a fresh window and in both
    [catch] branches. *)
Definition notLimited (maxRequests windowMs : Z) : M W RateLimitInfo :=
  t <- Date_now ;;
  ret (Info.mk false maxRequests (t + windowMs) 0 maxRequests
         (JS.ceil_div windowMs 1000)).

Definition checkRateLimit (domain : string) (maxRequests windowMs : Z)
    : M W RateLimitInfo :=
  try_catch
    (let key := keyOf domain in
     rateLimitData <- kv_get key ;;
     t <- Date_now ;;
     match rateLimitData with
     | None => notLimited maxRequests windowMs
     | Some data =>
         if t >? reset data then notLimited maxRequests windowMs
         else
           let remaining := maxRequests - count data in
           t' <- Date_now ;;
           let resetInSeconds := JS.ceil_div (reset data - t') 1000 in
           ret (Info.mk (remaining <=? 0) remaining (reset data)
                  (count data) maxRequests resetInSeconds)
     end)
    (fun error => notLimited maxRequests windowMs).

Definition incrementRateLimit (domain : string) (maxRequests windowMs : Z)
    : M W RateLimitInfo :=
  try_catch
    (let key := keyOf domain in
     t <- Date_now ;;
     rateLimitData <- kv_get key ;;
     let fresh : M W RateLimitInfo :=
       let reset := t + windowMs in
       kv_set key (Some (mkWindow 1 reset)) (JS.ceil_div windowMs 1000) ;;;
       ret (Info.mk false (maxRequests - 1) reset 1 maxRequests
              (JS.ceil_div windowMs 1000)) in
     match rateLimitData with
     | None => fresh
     | Some data =>
         if t >? reset data then fresh
         else
           let count := count data + 1 in
           let reset := reset data in
           let remaining := maxRequests - count in
           let resetInSeconds := JS.ceil_div (reset - t) 1000 in
           kv_set key (Some (mkWindow count reset)) resetInSeconds ;;;
           ret (Info.mk (remaining <=? 0) remaining reset count
                  maxRequests resetInSeconds)
     end)
    (fun error => notLimited maxRequests windowMs).

Definition checkAndIncrementRateLimit (domain : string)
    (maxRequests windowMs : Z) : M W RateLimitInfo :=
  rateLimitInfo <- checkRateLimit domain maxRequests windowMs ;;
  if Info.limited rateLimitInfo then ret rateLimitInfo
  else incrementRateLimit domain maxRequests windowMs.

End Limiter.

(** *** Sequential use against the in-memory store *)

(** One admission at time [t]: the clock shows [t] for the whole call. *)
Definition admitAt (domain : string) (maxRequests windowMs : Z) (t : Z)
    (w : MockWorld Window) : Res Thrown RateLimitInfo * MockWorld Window :=
  checkAndIncrementRateLimit domain maxRequests windowMs (set_clock t w).

(** A sequence of admissions, one after the other, at the given times;
    the answers are returned in call order. *)
Fixpoint admitAll (domain : string) (maxRequests windowMs : Z)
    (times : list Z) (w : MockWorld Window)
    : list (Res Thrown RateLimitInfo) * MockWorld Window :=
  match times with
  | [] => ([], w)
  | t :: rest =>
      let '(r, w') := admitAt domain maxRequests windowMs t w in
      let '(rs, w'') := admitAll domain maxRequests windowMs rest w' in
      (r :: rs, w'')
  end.

(** The caller's reading of an answer ([!rateLimitInfo.limited]). *)
Definition allowed (r : Res Thrown RateLimitInfo) : option bool :=
  match r with
  | Ok info => Some (negb (Info.limited info))
  | Throw _ => None
  end.

(** The count stored for a domain, if a record is stored. *)
Definition storedCount (domain : string) (w : MockWorld Window) : option Z :=
  match store w !! keyOf domain with
  | Some item => count <$> value item
  | None => None
  end.

Definition emptyWorld : MockWorld Window := mkWorld ∅ 0.

(** The record a call at time [t] finds and goes by: stored, not dropped
    by the store as expired, and with its window still open. *)
Definition activeWindow (domain : string) (t : Z) (w : MockWorld Window)
    : option Window :=
  match store w !! keyOf domain with
  | Some item =>
      if expired item t then None
      else match value item with
           | Some data => if t >? reset data then None else Some data
           | None => None
           end
  | None => None
  end.

(** What [kv.set(key, v, { ex })] stores at time [t]. *)
Definition itemAt (v : Window) (ex t : Z) : Item Window :=
  mkItem (Some v) (if ex =? 0 then None else Some (t + ex * 1000)).

(** One admission, read off the code: a fresh window when none is active,
    no write when the active window is used up, an incremented count
    otherwise. *)
Definition admitModel (domain : string) (maxRequests windowMs : Z) (t : Z)
    (w : MockWorld Window) : Res Thrown RateLimitInfo * MockWorld Window :=
  let key := keyOf domain in
  match activeWindow domain t w with
  | None =>
      let ex := JS.ceil_div windowMs 1000 in
      (Ok (Info.mk false (maxRequests - 1) (t + windowMs) 1 maxRequests ex),
       mkWorld (<[key := itemAt (mkWindow 1 (t + windowMs)) ex t]> (store w)) t)
  | Some data =>
      let ex := JS.ceil_div (reset data - t) 1000 in
      if maxRequests - count data <=? 0 then
        (Ok (Info.mk true (maxRequests - count data) (reset data)
               (count data) maxRequests ex),
         set_clock t w)
      else
        let c := count data + 1 in
        (Ok (Info.mk (maxRequests - c <=? 0) (maxRequests - c) (reset data)
               c maxRequests ex),
         mkWorld (<[key := itemAt (mkWindow c (reset data)) ex t]> (store w)) t)
  end.

(** The stored record of a domain is sound for a limit when its count is
    within the limit and the store keeps it for as long as its window is
    open. *)
Definition SoundRecord (domain : string) (maxRequests : Z)
    (w : MockWorld Window) : Prop :=
  forall item data,
    store w !! keyOf domain = Some item ->
    value item = Some data ->
    count data <= maxRequests /\
    forall t, t <= reset data -> expired item t = false.

(** The store keeps the record of a domain for as long as its window is
    open. *)
Definition KeptRecord (domain : string) (w : MockWorld Window) : Prop :=
  forall item data,
    store w !! keyOf domain = Some item ->
    value item = Some data ->
    forall t, t <= reset data -> expired item t = false.

(** Up to time [until] the stored window is open and used up. *)
Definition UsedUp (domain : string) (maxRequests until : Z)
    (w : MockWorld Window) : Prop :=
  forall t, t <= until ->
    exists data, activeWindow domain t w = Some data
                 /\ maxRequests - count data <= 0.

(** The invariant the design notes suggest: whatever the sequence of
    admissions, the stored count stays within the limit. *)
Definition CountBounded (domain : string) (maxRequests windowMs : Z) : Prop :=
  forall times c,
    storedCount domain (admitAll domain maxRequests windowMs times emptyWorld).2
    = Some c ->
    (c <= maxRequests).

(** The boundary the design document states for a limit of [n] requests
    per window: the first [n] admissions of a window are allowed and the
    next one is rejected. *)
Definition AdmitsExactly (domain : string) (n : nat) (windowMs : Z) : Prop :=
  map allowed
    (admitAll domain (Z.of_nat n) windowMs
       (map Z.of_nat (seq 0 (S n))) emptyWorld).1
  = (replicate n (Some true) ++ [Some false])%list.

End RateLimit.

(** ** Cache layer ([src/lib/cache.ts]) *)

Module Cache.
Import KV.
Local Open Scope js_scope.

(** *** Key derivation *)

(** [Array.prototype.sort] without a comparator orders ASCII strings
    lexicographically by character code, which is [String.le]; the keys
    of an object are distinct, so the sorted list does not depend on the
    sorting algorithm. *)
Definition sortKeys (keys : list string) : list string :=
  merge_sort String.le keys.

(** The base64 alphabet of [Buffer.prototype.toString('base64')]. *)
Definition alphabet : string :=
  "ABCDEFGHIJKLMNOPQRSTUVWXYZabcdefghijklmnopqrstuvwxyz0123456789+/".

Definition b64char (i : N) : ascii :=
  default "="%char (String.get (N.to_nat i) alphabet).

Definition byte (c : ascii) : N := N_of_ascii c.

(** The position of a character in a string; on [alphabet] this decodes
    a base64 character. *)
Fixpoint indexOf (c : ascii) (s : string) : option nat :=
  match s with
  | EmptyString => None
  | String d r => if Ascii.eqb c d then Some 0%nat else S <$> indexOf c r
  end.

(** Three bytes give four characters; a last group of one or two bytes is
    padded with [=]. *)
Fixpoint base64 (s : string) : string :=
  match s with
  | EmptyString => EmptyString
  | String a EmptyString =>
      String (b64char (byte a / 4))
        (String (b64char (byte a mod 4 * 16)) "==")
  | String a (String b EmptyString) =>
      String (b64char (byte a / 4))
        (String (b64char (byte a mod 4 * 16 + byte b / 16))
           (String (b64char (byte b mod 16 * 4)) "="))
  | String a (String b (String c rest)) =>
      String (b64char (byte a / 4))
        (String (b64char (byte a mod 4 * 16 + byte b / 16))
           (String (b64char (byte b mod 16 * 4 + byte c / 64))
              (String (b64char (byte c mod 64)) (base64 rest))))
  end%N.

(** [.replace(/[+/=]/g, '_')] *)
Definition unsafeChar (c : ascii) : bool :=
  Ascii.eqb c "+" || Ascii.eqb c "/" || Ascii.eqb c "=".

Fixpoint urlSafe (s : string) : string :=
  match s with
  | EmptyString => EmptyString
  | String c rest => String (if unsafeChar c then "_"%char else c) (urlSafe rest)
  end.

Section Key.
(** The parameter values and [JSON.stringify] on them. *)
Context {V : Type}.
Variable stringify : V -> string.

(** A parameter object: its own properties in insertion order. *)
Definition ScrapeParams : Type := list (string * V).

(** [params[key]] *)
Fixpoint getParam (params : ScrapeParams) (key : string) : option V :=
  match params with
  | [] => None
  | (k, v) :: rest => if String.eqb k key then Some v else getParam rest key
  end.

(** [`${key}:${JSON.stringify(params[key])}`] *)
Definition paramEntry (params : ScrapeParams) (key : string) : string :=
  key ++ ":" ++
  match getParam params key with
  | Some v => stringify v
  | None => "undefined"
  end.

Definition paramsString (params : ScrapeParams) : string :=
  JS.join "|" (map (paramEntry params) (sortKeys (map fst params))).

(** The string that gets encoded:
    [`${namespace}:${url}${paramsString ? `:${paramsString}` : ''}`] *)
Definition canonical (url : string) (params : ScrapeParams)
    (namespace : string) : string :=
  let ps := paramsString params in
  namespace ++ ":" ++ url ++ (if JS.truthy ps then ":" ++ ps else "").

Definition generateCacheKey (url : string) (params : ScrapeParams)
    (namespace : string) : string :=
  urlSafe (base64 (canonical url params namespace)).

End Key.

(** What the design document asks of the key: two inputs with different
    URLs never share a key. *)
Definition SeparatesUrls {V : Type} (stringify : V -> string) : Prop :=
  forall (url1 url2 : string) (params : @ScrapeParams V) (namespace : string),
    url1 <> url2 ->
    generateCacheKey stringify url1 params namespace
    <> generateCacheKey stringify url2 params namespace.

(** Parameter values for examples: [null], booleans and integers, with
    [JSON.stringify] on them. *)
Inductive Scalar : Type :=
  | SNull
  | SBool (b : bool)
  | SNum (z : Z).

Definition stringifyScalar (v : Scalar) : string :=
  match v with
  | SNull => "null"
  | SBool true => "true"
  | SBool false => "false"
  | SNum z => pretty z
  end.

(** *** Reading and writing through the store *)

Record CacheOptions : Type := mkOptions {
  ttl : option Z;
  namespace : option string
}.

Definition noOptions : CacheOptions := mkOptions None None.

Section Layer.
(** [T] is the type of non-null cached values, so [option T] is the
    TypeScript [T] of a caller that may also produce [null]. *)
Context {W T : Type} `{Store W T}.

(** [Number(process.env.CACHE_TTL_SECONDS) || 3600] *)
Variable DEFAULT_CACHE_TTL : Z.

Definition getCachedValue (key : string) : M W (option T) :=
  try_catch (kv_get key) (fun error => ret None).

Definition setCachedValue (key : string) (value : option T)
    (options : CacheOptions) : M W bool :=
  let ttl := default DEFAULT_CACHE_TTL (ttl options) in
  try_catch (kv_set key value ttl ;;; ret true) (fun error => ret false).

Definition deleteCachedValue (key : string) : M W bool :=
  try_catch (kv_del key ;;; ret true) (fun error => ret false).

Definition getOrSetCachedValue (key : string) (factory : M W (option T))
    (options : CacheOptions) : M W (option T) :=
  cachedValue <- getCachedValue key ;;
  match cachedValue with
  | Some v => ret (Some v)
  | None =>
      value <- factory ;;
      setCachedValue key value options ;;;
      ret value
  end.

Definition cachedScrape {V : Type} (stringify : V -> string) (url : string)
    (scrapeFunction : string -> ScrapeParams -> M W (option T))
    (params : @ScrapeParams V) (options : CacheOptions) : M W (option T) :=
  let namespace := default "scrape" (namespace options) in
  let ttl := default DEFAULT_CACHE_TTL (ttl options) in
  let cacheKey := generateCacheKey stringify url params namespace in
  getOrSetCachedValue cacheKey (scrapeFunction url params)
    (mkOptions (Some ttl) None).

(** The uncached equivalent of a call on a miss: run the producer,
    store what it produced, return it. *)
Definition computeAndStore (key : string) (factory : M W (option T))
    (options : CacheOptions) : M W (option T) :=
  value <- factory ;;
  setCachedValue key value options ;;;
  ret value.

(** [n] calls in a row. *)
Fixpoint times {A : Type} (n : nat) (m : M W A) : M W (list A) :=
  match n with
  | O => ret []
  | S n' => a <- m ;; rest <- times n' m ;; ret (a :: rest)
  end.

(** A call whose lookup result is ignored: look up, then compute and
    store regardless. *)
Definition lookupThenCompute (key : string) (factory : M W (option T))
    (options : CacheOptions) : M W (option T) :=
  getCachedValue key ;;; computeAndStore key factory options.

End Layer.

(** In the in-memory store, the key holds no value or a stored [null]. *)
Definition NullOrMissing {T : Type} (key : string) (w : MockWorld T) : Prop :=
  forall item, store w !! key = Some item -> value item = None.

(** A producer that finds nothing: it takes one millisecond and gives
    [null]. *)
Definition nothingFound : M (MockWorld string) (option string) :=
  fun w => (Ok None, mkWorld (store w) (clock w + 1)).

End Cache.

(** ** More of the in-memory store ([lib/mock-kv.ts]) *)

Module Counter.
Import KV.

(** [incr]: [(await this.get<number>(key) || 0) + 1], written back by a
    [set] without options, hence without expiry. *)
Definition mock_incr (key : string) : M (MockWorld Z) Z :=
  bind (mock_get key) (fun current =>
    let value :=
      match current with
      | Some n => if n =? 0 then 0 else n
      | None => 0
      end + 1 in
    bind (mock_set key (Some value) 0) (fun _ => ret value)).

(** What [get(key) || 0] sees at the clock of the world. *)
Definition readCounter (key : string) (w : MockWorld Z) : Z :=
  match (mock_get key w).1 with
  | Ok (Some n) => n
  | _ => 0
  end.

(** The moment from which an item written at time [t] with [ex] seconds
    to live counts as expired, if there is one: no [ex] (or [ex = 0])
    means no expiry, and an expiry time of exactly [0] is ignored by
    [get]. *)
Definition deadline (t ex : Z) : option Z :=
  if ex =? 0 then None
  else if t + ex * 1000 =? 0 then None
  else Some (t + ex * 1000).

Definition aliveAt (t ex t' : Z) : Prop :=
  match deadline t ex with
  | Some d => t' <= d
  | None => True
  end.

End Counter.

(** ** More of the rate limiter ([src/lib/ratelimit.ts]) *)

Module RateLimitMore.
Import KV RateLimit.
Local Open Scope js_scope.

Section Reset.
Context {W : Type} `{Store W Window}.

(** [resetRateLimit(identifier, namespace = 'ratelimit')] *)
Definition resetRateLimit (identifier : string) (namespace : option string)
    : M W bool :=
  let namespace := default "ratelimit" namespace in
  let key := namespace ++ ":" ++ identifier in
  try_catch (kv_del key ;;; ret true) (fun error => ret false).

End Reset.

(** The fields of an answer fit together: [max] is the limit asked for,
    [remaining] is what [current] leaves of it, and "limited" is only
    said when nothing remains. *)
Definition Coherent (maxRequests : Z) (info : RateLimitInfo) : Prop :=
  Info.max info = maxRequests /\
  Info.remaining info = maxRequests - Info.current info /\
  (Info.limited info = true -> Info.remaining info <= 0).

(** The answers to a run of admissions in one window when the limit is
    [maxRequests]: the admission number [i] (from 0) is allowed as long
    as [i + 1 < maxRequests]. *)
Definition windowAnswers (maxRequests : Z) (n : nat) : list (option bool) :=
  map (fun i => Some (Z.of_nat i + 1 <? maxRequests)) (seq 0 n).

(** For every time up to [until] the stored window of the domain is open
    and holds the count [c]. *)
Definition CountIs (domain : string) (c until : Z) (w : MockWorld Window)
    : Prop :=
  forall t, t <= until ->
    exists data, activeWindow domain t w = Some data /\ count data = c.

End RateLimitMore.

(** ** Request validation ([src/lib/validators.ts]) *)

Module Validators.

(** An optional property of an options object: not there, there with the
    value [undefined], or there with a value. *)
Inductive Opt (A : Type) : Type :=
  | Missing
  | Undefined
  | Given (a : A).
Arguments Missing {A}.
Arguments Undefined {A}.
Arguments Given {A} a.

(** One property of [{ ...defaults, ...options }]. *)
Definition spread {A} (dflt : option A) (o : Opt A) : option A :=
  match o with
  | Missing => dflt
  | Undefined => None
  | Given a => Some a
  end.

Record UrlValidationOptions : Type := mkUrlOptions {
  allowedProtocols : Opt (list string);
  allowedDomains : Opt (list string);
  blockedDomains : Opt (list string);
  requireHttps : Opt bool
}.

(** [{}] *)
Definition noUrlOptions : UrlValidationOptions :=
  mkUrlOptions Missing Missing Missing Missing.

Definition DEFAULT_URL_VALIDATION_OPTIONS : UrlValidationOptions :=
  mkUrlOptions (Given ["http"; "https"]) (Given []) (Given []) (Given false).

(** Reading a property of an object whose properties are all given. *)
Definition prop {A} (o : Opt A) : option A := spread None o.

Record Validation : Type := mkValidation {
  valid : bool;
  reason : option string
}.

(** What [new URL(url)] exposes to the validators. *)
Record ParsedURL : Type := mkURL {
  protocol : string;
  hostname : string
}.

(** [s.replace(':', '')]: the first colon is removed. *)
Fixpoint dropFirstColon (s : string) : string :=
  match s with
  | EmptyString => EmptyString
  | String c rest =>
      if Ascii.eqb c ":" then rest else String c (dropFirstColon rest)
  end.

(** [xs.includes(x)] on an array of strings. *)
Definition arrayIncludes (xs : list string) (x : string) : bool :=
  existsb (String.eqb x) xs.

(** [s.endsWith(p)]: some suffix of [s] is [p]. *)
Fixpoint endsWith (s p : string) : bool :=
  String.eqb s p ||
  match s with
  | EmptyString => false
  | String _ rest => endsWith rest p
  end.

(** [xs && xs.length > 0 && test(xs)] *)
Definition givenAnd (xs : option (list string)) (test : list string -> bool)
    : bool :=
  match xs with
  | Some (x :: rest) => test (x :: rest)
  | _ => false
  end.

Definition quoted (s : string) : string := Resolver.dq ++ s ++ Resolver.dq.

(** The options after [{ ...DEFAULT_URL_VALIDATION_OPTIONS, ...options }]. *)
Record MergedUrlOptions : Type := mkMerged {
  mAllowedProtocols : option (list string);
  mAllowedDomains : option (list string);
  mBlockedDomains : option (list string);
  mRequireHttps : option bool
}.

Definition mergeUrlOptions (options : UrlValidationOptions)
    : MergedUrlOptions :=
  let d := DEFAULT_URL_VALIDATION_OPTIONS in
  mkMerged
    (spread (prop (allowedProtocols d)) (allowedProtocols options))
    (spread (prop (allowedDomains d)) (allowedDomains options))
    (spread (prop (blockedDomains d)) (blockedDomains options))
    (spread (prop (requireHttps d)) (requireHttps options)).

Section Parser.
(** [new URL(url)]; [None] when the constructor throws. *)
Variable parseURL : string -> option ParsedURL.

Definition validateUrl (url : string) (options : UrlValidationOptions)
    : Validation :=
  let mergedOptions := mergeUrlOptions options in
  match parseURL url with
  | None => mkValidation false (Some "Invalid URL format")
  | Some parsedUrl =>
      let protocol := dropFirstColon (protocol parsedUrl) in
      if givenAnd (mAllowedProtocols mergedOptions)
           (fun allowed => negb (arrayIncludes allowed protocol))
      then
        mkValidation false
          (Some ("Protocol " ++ quoted protocol
                 ++ " is not allowed. Allowed protocols: "
                 ++ JS.join ", " (default [] (mAllowedProtocols mergedOptions))))
      else if default false (mRequireHttps mergedOptions)
              && negb (String.eqb protocol "https")
      then mkValidation false (Some "HTTPS is required")
      else
        let domain := hostname parsedUrl in
        if givenAnd (mAllowedDomains mergedOptions)
             (fun allowed => negb (existsb (endsWith domain) allowed))
        then
          mkValidation false
            (Some ("Domain " ++ quoted domain ++ " is not allowed"))
        else if givenAnd (mBlockedDomains mergedOptions)
                  (fun blocked => existsb (endsWith domain) blocked)
        then
          mkValidation false (Some ("Domain " ++ quoted domain ++ " is blocked"))
        else mkValidation true None
  end.

(** [extractDomain] of [src/lib/ratelimit.ts]: the host name, or the
    string itself when it does not parse. *)
Definition extractDomain (url : string) : string :=
  match parseURL url with
  | Some parsedUrl => hostname parsedUrl
  | None => url
  end.

(** *** Scraper requests *)

Record ScraperRequestValidationOptions : Type := mkRequestOptions {
  urlValidationOptions : Opt UrlValidationOptions;
  maxTimeout : Opt Z;
  allowedScraperTypes : Opt (list string)
}.

Definition noRequestOptions : ScraperRequestValidationOptions :=
  mkRequestOptions Missing Missing Missing.

Definition DEFAULT_SCRAPER_REQUEST_VALIDATION_OPTIONS
    : ScraperRequestValidationOptions :=
  mkRequestOptions (Given DEFAULT_URL_VALIDATION_OPTIONS) (Given 60000)
    (Given ["news"; "ecommerce"; "techdocs"; "generic"]).

(** The request: [url], [type] and [options?.timeout]. *)
Record ScraperRequest : Type := mkRequest {
  url : string;
  type : string;
  timeout : option Z
}.

(** Truthiness of a number that may be [undefined]. *)
Definition truthyNumber (n : option Z) : bool :=
  match n with
  | Some z => negb (z =? 0)
  | None => false
  end.

Definition validateScraperRequest (request : ScraperRequest)
    (options : ScraperRequestValidationOptions) : Validation :=
  let d := DEFAULT_SCRAPER_REQUEST_VALIDATION_OPTIONS in
  let mUrlValidationOptions :=
    spread (prop (urlValidationOptions d)) (urlValidationOptions options) in
  let mMaxTimeout := spread (prop (maxTimeout d)) (maxTimeout options) in
  let mAllowedScraperTypes :=
    spread (prop (allowedScraperTypes d)) (allowedScraperTypes options) in
  let urlValidation :=
    validateUrl (url request) (default noUrlOptions mUrlValidationOptions) in
  if negb (valid urlValidation) then urlValidation
  else if givenAnd mAllowedScraperTypes
            (fun allowed => negb (arrayIncludes allowed (type request)))
  then
    mkValidation false
      (Some ("Scraper type " ++ quoted (type request)
             ++ " is not allowed. Allowed types: "
             ++ JS.join ", " (default [] mAllowedScraperTypes)))
  else if truthyNumber (timeout request) && truthyNumber mMaxTimeout
          && (default 0 (timeout request) >? default 0 mMaxTimeout)
  then
    mkValidation false
      (Some ("Timeout value " ++ pretty (default 0 (timeout request))
             ++ " exceeds maximum allowed timeout of "
             ++ pretty (default 0 mMaxTimeout)))
  else mkValidation true None.

End Parser.

(** *** What the checks mean *)

Definition EndsWith (s p : string) : Prop := exists a, s = a ++ p.

(** The limits of a list that is given and not empty. *)
Definition Restricts (xs : option (list string)) (P : list string -> Prop)
    : Prop :=
  match xs with
  | Some (x :: rest) => P (x :: rest)
  | _ => True
  end.

(** The conditions under which [validateUrl] accepts a parsed URL. *)
Definition Acceptable (m : MergedUrlOptions) (parsedUrl : ParsedURL) : Prop :=
  let protocol := dropFirstColon (protocol parsedUrl) in
  let domain := hostname parsedUrl in
  Restricts (mAllowedProtocols m) (fun allowed => protocol ∈ allowed) /\
  (mRequireHttps m = Some true -> protocol = "https") /\
  Restricts (mAllowedDomains m)
    (fun allowed => exists a, a ∈ allowed /\ EndsWith domain a) /\
  Restricts (mBlockedDomains m)
    (fun blocked => forall b, b ∈ blocked -> ~ EndsWith domain b).

(** A stand-in for the URL parser that knows three URLs. *)
Definition sampleParser (url : string) : option ParsedURL :=
  if String.eqb url "https://docs.example.com/guide"
  then Some (mkURL "https:" "docs.example.com")
  else if String.eqb url "https://notexample.com/"
  then Some (mkURL "https:" "notexample.com")
  else if String.eqb url "ftp://example.com/file"
  then Some (mkURL "ftp:" "example.com")
  else None.

End Validators.

(** ** The code rule of the Markdown converter ([src/lib/markdown.ts]) *)

Module MarkdownCode.
Import Markdown.

(** [toLowerCase] on ASCII letters. *)
Definition lowerChar (c : ascii) : ascii :=
  let n := nat_of_ascii c in
  if (65 <=? n)%nat && (n <=? 90)%nat then ascii_of_nat (n + 32) else c.

Fixpoint toLowerCase (s : string) : string :=
  match s with
  | EmptyString => EmptyString
  | String c rest => String (lowerChar c) (toLowerCase rest)
  end.

(** [s.split(' ')]: the pieces between single spaces, empty pieces
    included; never an empty array. *)
Fixpoint splitSpaces (s : string) : list string :=
  match s with
  | EmptyString => [EmptyString]
  | String c rest =>
      if Ascii.eqb c " " then EmptyString :: splitSpaces rest
      else match splitSpaces rest with
           | piece :: pieces => String c piece :: pieces
           | [] => [String c EmptyString]
           end
  end.

Fixpoint dropChars (n : nat) (s : string) : string :=
  match n, s with
  | S n', String _ rest => dropChars n' rest
  | _, _ => s
  end.

(** [className.replace(/^(language-|lang-)/, '')] *)
Definition stripLanguagePrefix (className : string) : string :=
  if JS.startsWith className "language-" then dropChars 9 className
  else if JS.startsWith className "lang-" then dropChars 5 className
  else className.

(** The [for (const className of classList)] loop with its [break]. *)
Fixpoint findLanguage (classList : list string) : string :=
  match classList with
  | [] => ""
  | className :: rest =>
      if JS.startsWith className "language-" || JS.startsWith className "lang-"
      then stripLanguagePrefix className
      else findLanguage rest
  end.

(** [content.replace(/\n$/, '')]: one line feed at the very end goes. *)
Fixpoint dropFinalNewline (s : string) : string :=
  match s with
  | EmptyString => EmptyString
  | String c EmptyString => if Ascii.eqb c LF then EmptyString else s
  | String c rest => String c (dropFinalNewline rest)
  end.

(** The element as the rule reads it. *)
Record CodeNode : Type := mkCodeNode {
  nodeName : string;
  parentNodeName : option string;
  className : string
}.

Definition fence : string := "```".

Definition isCodeBlock (element : CodeNode) : bool :=
  let isPreTag := String.eqb (toLowerCase (nodeName element)) "pre" in
  isPreTag ||
  match parentNodeName element with
  | Some parent => String.eqb (toLowerCase parent) "pre"
  | None => false
  end.

(** The replacement function of the ['codeBlocks'] rule. *)
Definition codeReplacement (content : string) (element : CodeNode) : string :=
  if isCodeBlock element then
    let language := findLanguage (splitSpaces (className element)) in
    let code := dropFinalNewline content in
    nl ++ fence ++ language ++ nl ++ code ++ nl ++ fence ++ nl ++ nl
  else "`" ++ content ++ "`".

(** A class name that announces a language. *)
Definition Announces (className language : string) : Prop :=
  className = "language-" ++ language \/ className = "lang-" ++ language.

Definition Silent (className : string) : Prop :=
  forall language, ~ Announces className language.

Definition NoSpace (s : string) : Prop := JS.includes s " " = false.

End MarkdownCode.

(** ** More of the news scraper ([src/lib/scrapers/news.ts]) *)

Module News.
Import Resolver.

Section Page.
Context {E : Type}.

(** The page, as far as these extractors use it: the text queries of
    [Resolver.Page], [$$eval(sel, imgs => imgs.map(img =>
    img.getAttribute('src')))], [$eval(sel, el =>
    el.getAttribute('content'))] (rejecting when nothing matches) and
    [$$eval(sel, els => els.length)]. *)
Record NewsPage : Type := mkNewsPage {
  textPage : Page E;
  evalAllSrc : string -> Res E (list (option string));
  evalContent : string -> Res E (option string);
  evalCount : string -> Res E Z
}.

(** The loop of [extractArticleContent] with its [body] fallback;
    [content.length] counts UTF-16 code units. *)
Fixpoint contentFrom (page : NewsPage) (selectors : list string) : string :=
  match selectors with
  | [] => extractText (textPage page) "body"
  | selector :: rest =>
      let content := extractText (textPage page) selector in
      if JS.truthy content && (100 <? JS.lengthOf content)%nat
      then content
      else contentFrom page rest
  end.

Definition articleContentSelectors : list string :=
  [ "article"; ".article-content"; ".post-content"; ".entry-content";
    "[itemprop=" ++ dq ++ "articleBody" ++ dq ++ "]"; "main"; ".content" ].

Definition extractArticleContent (page : NewsPage) : string :=
  contentFrom page articleContentSelectors.

(** [$eval('meta[...]', el => el.getAttribute('content') || '')] inside
    its [try], read for truthiness. *)
Definition metaContent (page : NewsPage) (selector : string) : option string :=
  match evalContent page selector with
  | Ok (Some c) => if JS.truthy c then Some c else None
  | _ => None
  end.

(** [images.map(img => img.getAttribute('src') || '').filter(Boolean)
    .filter(src => !src.includes('data:image'))] *)
Definition usableSources (srcs : list (option string)) : list string :=
  List.filter (fun src => negb (JS.includes src "data:image"))
    (List.filter JS.truthy (map (default "") srcs)).

Fixpoint imagesFrom (page : NewsPage) (selectors : list string)
    : option (list string) :=
  match selectors with
  | [] =>
      match metaContent page
              ("meta[property=" ++ dq ++ "og:image" ++ dq ++ "]") with
      | Some featuredImage => Some [featuredImage]
      | None => None
      end
  | selector :: rest =>
      match evalAllSrc page selector with
      | Ok srcs =>
          match usableSources srcs with
          | [] => imagesFrom page rest
          | imageUrls => Some imageUrls
          end
      | Throw _ => imagesFrom page rest
      end
  end.

Definition imageSelectors : list string :=
  [ "article img"; ".article-content img"; ".post-content img";
    ".entry-content img";
    "[itemprop=" ++ dq ++ "articleBody" ++ dq ++ "] img"; "main img" ].

Definition extractImageUrls (page : NewsPage) : option (list string) :=
  imagesFrom page imageSelectors.

(** *** Comment counts *)

Definition isDigit (c : ascii) : bool :=
  let n := nat_of_ascii c in (48 <=? n)%nat && (n <=? 57)%nat.

Fixpoint takeDigits (s : string) : string :=
  match s with
  | EmptyString => EmptyString
  | String c rest => if isDigit c then String c (takeDigits rest) else EmptyString
  end.

(** [s.match(/\d+/)]: the first, longest run of digits. *)
Fixpoint firstDigits (s : string) : option string :=
  match s with
  | EmptyString => None
  | String c rest =>
      if isDigit c then Some (String c (takeDigits rest)) else firstDigits rest
  end.

(** [parseInt(digits, 10)] on a run of digits; exact below [2^53]. *)
Fixpoint parseDigits (acc : N) (s : string) : N :=
  match s with
  | EmptyString => acc
  | String c rest => parseDigits (acc * 10 + (N_of_ascii c - 48)) rest
  end.

Fixpoint countFrom (page : NewsPage) (selectors : list string) : option Z :=
  match selectors with
  | [] =>
      match evalCount page ".comment, .comments > li" with
      | Ok commentCount => if commentCount >? 0 then Some commentCount else None
      | Throw _ => None
      end
  | selector :: rest =>
      let countText := extractText (textPage page) selector in
      if JS.truthy countText then
        match firstDigits countText with
        | Some digits => Some (Z.of_N (parseDigits 0 digits))
        | None => countFrom page rest
        end
      else countFrom page rest
  end.

Definition commentCountSelectors : list string :=
  [".comment-count"; ".comments-count"; ".comment-number"].

Definition extractCommentCount (page : NewsPage) : option Z :=
  countFrom page commentCountSelectors.

End Page.
Arguments NewsPage E : clear implicits.

(** A text long enough to count as the article: more than 100 UTF-16
    code units. *)
Definition Long (s : string) : Prop := (100 < JS.lengthOf s)%nat.

(** The selector of the featured picture. *)
Definition ogImage : string :=
  "meta[property=" ++ dq ++ "og:image" ++ dq ++ "]".

Fixpoint allDigits (s : string) : bool :=
  match s with
  | EmptyString => true
  | String c rest => isDigit c && allDigits rest
  end.

Definition NoDigit (s : string) : Prop :=
  forall a c b, s = a ++ String c b -> isDigit c = false.

Definition NoLeadingDigit (s : string) : Prop :=
  forall c b, s = String c b -> isDigit c = false.

End News.

(** Sample pages for the news extractors: sixty accented letters in
    [article], the story in [.article-content], pictures of which some
    are inline data or have no [src], and a comment counter after a
    label without digits. *)
Module NewsSamples.
Import Resolver News.

Definition notFound : string := "failed to find element matching selector".

(** Sixty accented letters: 60 code units in 120 bytes. *)
Definition accents : string := JS.join "" (replicate 60 JS.e_acute).

Definition story : string :=
  "The council voted on Tuesday to extend the tram line to the harbour, "
  ++ "ending a debate that had run for more than a decade.".

Definition storyPage : NewsPage string :=
  mkNewsPage
    (mkPage
       (fun selector =>
          if String.eqb selector "article" then Ok (Some accents)
          else if String.eqb selector ".article-content" then Ok (Some story)
          else if String.eqb selector "body" then Ok (Some "Menu Subscribe")
          else if String.eqb selector ".comment-count" then Ok (Some "Comments")
          else if String.eqb selector ".comments-count"
               then Ok (Some " Read 128 of 4096 comments ")
          else Throw notFound)
       (Ok "Tram line extended"))
    (fun selector =>
       if String.eqb selector "article img"
       then Ok [None; Some ""; Some "data:image/png;base64,iVBORw0KGgo="]
       else if String.eqb selector ".article-content img"
       then Ok [Some "/img/tram.jpg"; Some "data:image/gif;base64,R0lGOD";
                None; Some "https://cdn.example.com/harbour.png"]
       else Throw notFound)
    (fun selector => Throw notFound)
    (fun selector => Ok 0).

(** A page without article markup: only [body] text, no pictures and
    three comment elements. *)
Definition plainPage : NewsPage string :=
  mkNewsPage
    (mkPage
       (fun selector =>
          if String.eqb selector "body" then Ok (Some "Short note.")
          else Throw notFound)
       (Ok "Note"))
    (fun selector => Ok [])
    (fun selector =>
       if String.eqb selector ("meta[property=" ++ dq ++ "og:image" ++ dq ++ "]")
       then Ok (Some "data:image/png;base64,AAAA")
       else Throw notFound)
    (fun selector => Ok 3).

End NewsSamples.

(** ** The limiter of the scrape route ([pages/api/scrape/[type].ts]) *)

Module IpLimit.
Import KV.
Local Open Scope js_scope.

(** The stored record [{ count, timestamp }], the time stamp in
    seconds. *)
Record Stamp : Type := mkStamp {
  count : Z;
  timestamp : Z
}.

(** [req.headers['x-forwarded-for']]: [string | string[] | undefined]. *)
Inductive Header : Type :=
  | NoHeader
  | Single (value : string)
  | Several (values : list string).

Record Request : Type := mkReq {
  forwardedFor : Header;
  remoteAddress : option string
}.

Definition RATE_LIMIT : Z := 100.
Definition RATE_LIMIT_WINDOW : Z := 60 * 60.

(** [Array.isArray(ipHeader) ? ipHeader[0]
     : ipHeader || req.socket.remoteAddress || 'unknown'], as it appears
    inside the template string of the key. *)
Definition ipOf (req : Request) : string :=
  let other :=
    match remoteAddress req with
    | Some address => if JS.truthy address then address else "unknown"
    | None => "unknown"
    end in
  match forwardedFor req with
  | Several values =>
      match values with
      | first :: _ => first
      | [] => "undefined"
      end
  | Single value => if JS.truthy value then value else other
  | NoHeader => other
  end.

Definition rateLimitKey (req : Request) : string := "ratelimit:" ++ ipOf req.

Section Limiter.
Context {W : Type} `{Store W Stamp}.

Definition checkRateLimit (req : Request) : M W bool :=
  t <- Date_now ;;
  let now := t / 1000 in
  rateLimit <- kv_get (rateLimitKey req) ;;
  let restart :=
    kv_set (rateLimitKey req) (Some (mkStamp 1 now)) RATE_LIMIT_WINDOW ;;;
    ret true in
  match rateLimit with
  | None => restart
  | Some rateLimit =>
      if now - timestamp rateLimit >? RATE_LIMIT_WINDOW then restart
      else if count rateLimit >=? RATE_LIMIT then ret false
      else
        kv_set (rateLimitKey req)
          (Some (mkStamp (count rateLimit + 1) (timestamp rateLimit)))
          RATE_LIMIT_WINDOW ;;;
        ret true
  end.

End Limiter.

(** One request at time [t], and a run of requests. *)
Definition askAt (req : Request) (t : Z) (w : MockWorld Stamp)
    : Res Thrown bool * MockWorld Stamp :=
  checkRateLimit req (set_clock t w).

Fixpoint askAll (req : Request) (times : list Z) (w : MockWorld Stamp)
    : list (Res Thrown bool) * MockWorld Stamp :=
  match times with
  | [] => ([], w)
  | t :: rest =>
      let '(r, w') := askAt req t w in
      let '(rs, w'') := askAll req rest w' in
      (r :: rs, w'')
  end.

Definition storedCount (req : Request) (w : MockWorld Stamp) : option Z :=
  match store w !! rateLimitKey req with
  | Some item => count <$> value item
  | None => None
  end.

(** The record of a window opened at [t0] milliseconds with [c] requests
    counted, kept by the store at least until the hour is over. *)
Definition Counted (req : Request) (c t0 : Z) (w : MockWorld Stamp) : Prop :=
  exists e,
    store w !! rateLimitKey req
    = Some (mkItem (Some (mkStamp c (t0 / 1000))) (Some e))
    /\ t0 + 3600000 <= e.

End IpLimit.

(** ** One store, two types of values *)

(** The store is untyped; the code reads it at the type each key was
    written with ([kv.get<T>]). A module that keeps values of two types
    under keys that never coincide sees the store as two maps with one
    clock. *)
Module Typed.
Import KV.

Record TwoStores (A B : Type) : Type := mkTwo {
  storeA : gmap string (Item A);
  storeB : gmap string (Item B);
  clock2 : Z
}.
Arguments mkTwo {A B} storeA storeB clock2.
Arguments storeA {A B} _.
Arguments storeB {A B} _.
Arguments clock2 {A B} _.

Definition onA {A B X} (op : M (MockWorld A) X) : M (TwoStores A B) X :=
  fun w =>
    let '(r, m) := op (mkWorld (storeA w) (clock2 w)) in
    (r, mkTwo (store m) (storeB w) (clock m)).

Definition onB {A B X} (op : M (MockWorld B) X) : M (TwoStores A B) X :=
  fun w =>
    let '(r, m) := op (mkWorld (storeB w) (clock2 w)) in
    (r, mkTwo (storeA w) (store m) (clock m)).

Definition StoreA {A B} : Store (TwoStores A B) A := {|
  now := clock2;
  kv_get := fun key => onA (mock_get key);
  kv_set := fun key v ex => onA (mock_set key v ex);
  kv_del := fun key => onA (mock_delete key)
|}.

Definition StoreB {A B} : Store (TwoStores A B) B := {|
  now := clock2;
  kv_get := fun key => onB (mock_get key);
  kv_set := fun key v ex => onB (mock_set key v ex);
  kv_del := fun key => onB (mock_delete key)
|}.

(** The first map with the clock, as a store of its own. *)
Definition viewA {A B} (w : TwoStores A B) : MockWorld A :=
  mkWorld (storeA w) (clock2 w).

Definition at_time {A B} (t : Z) (w : TwoStores A B) : TwoStores A B :=
  mkTwo (storeA w) (storeB w) t.

End Typed.

(** ** The proxy pool ([lib/proxies.ts]) *)

Module Proxies.
Import KV.
Local Open Scope js_scope.

Record Proxy : Type := mkProxy {
  host : string;
  port : Z;
  username : option string;
  password : option string
}.

Section Pool.
Context {W : Type} {pool : Store W (list Proxy)} {index : Store W Z}.

(** [proxies[currentIndex]]: [undefined] outside the array. *)
Definition at_index (proxies : list Proxy) (i : Z) : option Proxy :=
  if i <? 0 then None else proxies !! Z.to_nat i.

(** The result is [Proxy | null]; an [undefined] read from the array
    is [None] as well. *)
Definition getProxy : M W (option Proxy) :=
  try_catch
    (proxies <- kv_get (V := list Proxy) "proxies" ;;
     match proxies with
     | None => ret None
     | Some proxies =>
         if Z.of_nat (length proxies) =? 0 then ret None
         else
           stored <- kv_get (V := Z) "proxy_index" ;;
           let currentIndex :=
             match stored with
             | Some n => if n =? 0 then 0 else n
             | None => 0
             end in
           let proxy := at_index proxies currentIndex in
           let currentIndex :=
             Z.rem (currentIndex + 1) (Z.of_nat (length proxies)) in
           kv_set "proxy_index" (Some currentIndex) 0 ;;;
           ret proxy
     end)
    (fun error => ret None).

Definition addProxy (proxy : Proxy) : M W unit :=
  try_catch
    (stored <- kv_get (V := list Proxy) "proxies" ;;
     let proxies := (default [] stored ++ [proxy])%list in
     kv_set "proxies" (Some proxies) 0)
    (fun error => ret tt).

Definition differs (h : string) (p : Z) (proxy : Proxy) : bool :=
  negb (String.eqb (host proxy) h) || negb (port proxy =? p).

Definition removeProxy (h : string) (p : Z) : M W unit :=
  try_catch
    (stored <- kv_get (V := list Proxy) "proxies" ;;
     let proxies := default [] stored in
     let filteredProxies := List.filter (differs h p) proxies in
     kv_set "proxies" (Some filteredProxies) 0)
    (fun error => ret tt).

Definition listProxies : M W (list Proxy) :=
  try_catch
    (stored <- kv_get (V := list Proxy) "proxies" ;; ret (default [] stored))
    (fun error => ret []).

End Pool.

Abbreviation PoolWorld := (Typed.TwoStores (list Proxy) Z).

(** The pool holds [proxies] and the next index is [i]; neither entry
    has a time to live. *)
Definition Holds (proxies : list Proxy) (i : Z) (w : PoolWorld) : Prop :=
  Typed.storeA w !! "proxies" = Some (mkItem (Some proxies) None) /\
  (Typed.storeB w !! "proxy_index" = Some (mkItem (Some i) None) \/
   i = 0 /\ Typed.storeB w !! "proxy_index" = None).

(** The proxy served by call number [j] of a rotation that starts at
    index [i]. *)
Definition rotation (proxies : list Proxy) (i : Z) (j : nat) : option Proxy :=
  proxies !! Z.to_nat ((i + Z.of_nat j) mod Z.of_nat (length proxies)).

Definition sampleProxies : list Proxy :=
  [ mkProxy "10.0.0.1" 8080 None None;
    mkProxy "10.0.0.2" 8080 (Some "user") (Some "secret");
    mkProxy "10.0.0.2" 3128 None None ].

Definition samplePool : PoolWorld :=
  Typed.mkTwo {[ "proxies" := mkItem (Some sampleProxies) None ]} ∅ 0.

End Proxies.

(** ** [withTimeout] ([src/lib/errors.ts]) *)

Module Timeout.
Import KV Errors.
Local Open Scope js_scope.

Definition throw {W A} (e : Thrown) : M W A := fun w => (Throw e, w).

(** Which of the two callbacks of [withTimeout] runs first is not decided
    by the code. Either [fn] settles first, or the timer fires while
    [fn] is still under way, having changed the world by [progress]. *)
Inductive Race (W : Type) : Type :=
  | Settles
  | TimerFires (progress : W -> W).
Arguments Settles {W}.
Arguments TimerFires {W} progress.

Definition withTimeout {W A} (race : Race W) (fn : M W A) (timeoutMs : Z)
    (timeoutMessage : string) : M W A :=
  match race with
  | Settles =>
      try_catch fn (fun error => throw (ThrownScrapingError (handleError error)))
  | TimerFires progress =>
      fun w =>
        (Throw (ThrownScrapingError
                  (createTimeoutError timeoutMessage
                     (Some [("timeoutMs", timeoutMs)]))),
         progress w)
  end.

End Timeout.

(** ** The scraper base class ([src/lib/scrapers/base.ts]) and the API
    route that drives it *)

Module Scraper.
Import KV Errors RateLimit RateLimitMore Cache Validators Timeout.
Local Open Scope js_scope.

(** The options that [scrapeWithCache] reads, as given by the caller;
    the other options only reach the browser. *)
Record BaseScraperOptions : Type := mkScraperOptions {
  cacheEnabled : Opt bool;
  cacheTtl : Opt Z;
  rateLimit : Opt bool
}.

Definition noScraperOptions : BaseScraperOptions :=
  mkScraperOptions Missing Missing Missing.

(** [this.options] after the constructor. *)
Record BaseScraper : Type := mkBaseScraper {
  this_cacheEnabled : option bool;
  this_cacheTtl : option Z;
  this_rateLimit : option bool
}.

(** [!!b] for a boolean that may be [undefined]. *)
Definition isTrue (b : option bool) : bool := default false b.

Section Scrape.
Context {W T V : Type} {limits : Store W Window} {cache : Store W T}.
Variable parseURL : string -> option ParsedURL.
(** [Number(process.env.CACHE_TTL_SECONDS) || 3600] *)
Variable DEFAULT_CACHE_TTL : Z.
Variable stringify : V -> string.
(** The callback each scraper passes to [scrapeWithCache]: open a page,
    navigate, extract, close the page. It depends on the scraper class
    and its options. *)
Variable browse : string -> BaseScraper -> string -> M W (option T).
(** [scraper.close()] *)
Variable close : M W unit.

Definition new_BaseScraper (options : BaseScraperOptions) : BaseScraper :=
  {| this_cacheEnabled := spread (Some true) (cacheEnabled options);
     this_cacheTtl := spread (Some DEFAULT_CACHE_TTL) (cacheTtl options);
     this_rateLimit := spread (Some true) (rateLimit options) |}.

Definition checkRateLimits (this : BaseScraper) (url : string) : M W bool :=
  if negb (isTrue (this_rateLimit this)) then ret true
  else
    let domain := extractDomain parseURL url in
    rateLimitInfo <-
      checkAndIncrementRateLimit domain DEFAULT_maxRequests DEFAULT_windowMs ;;
    ret (negb (Info.limited rateLimitInfo)).

Definition refusal (url : string) : Thrown :=
  ThrownError ("Rate limit exceeded for domain: " ++ extractDomain parseURL url).

Definition scrapeWithCache (this : BaseScraper) (url : string)
    (scrapeFunction : string -> ScrapeParams -> M W (option T))
    (params : @ScrapeParams V) : M W (option T) :=
  (if isTrue (this_rateLimit this) then
     allowed <- checkRateLimits this url ;;
     if negb allowed then throw (refusal url) else ret tt
   else ret tt) ;;;
  if isTrue (this_cacheEnabled this) then
    cachedScrape DEFAULT_CACHE_TTL stringify url scrapeFunction params
      (mkOptions (this_cacheTtl this) (Some "scrape"))
  else scrapeFunction url params.

(** [scrape] of the news, e-commerce and documentation scrapers: the
    three differ in the callback only, and all pass [{}] as the
    parameters. *)
Definition scrape (kind : string) (options : BaseScraperOptions)
    (url : string) : M W (option T) :=
  let this := new_BaseScraper options in
  scrapeWithCache this url (fun targetUrl _ => browse kind this targetUrl) [].

(** *** The route handler *)

(** The request as the handler reads it: [body.url] when it is a string,
    [body.options.timeout] when it is a number, and the scraper options
    of [body.options]. *)
Record ApiRequest : Type := mkApiRequest {
  method : string;
  queryType : string;
  bodyUrl : option string;
  bodyTimeout : option Z;
  bodyOptions : BaseScraperOptions
}.

(** The response without its time stamps. *)
Record ApiResponse : Type := mkApiResponse {
  status : Z;
  success : bool;
  error : option string;
  data : option (option T)
}.

Definition failure (code : Z) (reason : string) : ApiResponse :=
  mkApiResponse code false (Some reason) None.

Definition supported : list string := ["news"; "ecommerce"; "techdocs"; "generic"].

Definition handler (race : Race W) (req : ApiRequest) : M W ApiResponse :=
  if negb (String.eqb (method req) "POST")
  then ret (failure 405 "Method not allowed. Use POST.")
  else
    try_catch
      (let type := queryType req in
       match bodyUrl req with
       | None => ret (failure 400 "Invalid or missing URL parameter")
       | Some url =>
           if negb (JS.truthy url)
           then ret (failure 400 "Invalid or missing URL parameter")
           else
             let validation :=
               validateScraperRequest parseURL
                 (mkRequest url type (bodyTimeout req)) noRequestOptions in
             if negb (valid validation)
             then ret (failure 400
                         (JS.or_else (default "" (reason validation))
                            "Invalid request"))
             else
               let domain := extractDomain parseURL url in
               rateLimitInfo <-
                 checkAndIncrementRateLimit domain DEFAULT_maxRequests
                   DEFAULT_windowMs ;;
               if Info.limited rateLimitInfo
               then ret (failure 429
                           ("Rate limit exceeded for domain: " ++ domain
                            ++ ". Try again in "
                            ++ pretty (Info.resetInSeconds rateLimitInfo)
                            ++ " seconds."))
               else
                 let timeout := default 30000 (bodyTimeout req) in
                 if arrayIncludes supported type then
                   result <-
                     try_catch
                       (result <-
                          withTimeout race
                            (scrape type (bodyOptions req) url) timeout
                            ("Scraping operation timed out after "
                             ++ pretty timeout ++ "ms") ;;
                        close ;;;
                        ret result)
                       (fun error => close ;;; throw error) ;;
                   ret (mkApiResponse 200 true None (Some result))
                 else
                   ret (failure 400
                          ("Unsupported scraper type: " ++ type
                           ++ ". Supported types are: "
                           ++ "news, ecommerce, techdocs, generic"))
       end)
      (fun error =>
         let scrapingError := handleError error in
         ret (failure (statusCode scrapingError) (message scrapingError))).

End Scrape.
Arguments ApiResponse T : clear implicits.

(** *** Requests against the in-memory store *)

(** Rate-limit records and cached results live in the same store under
    keys that never coincide ([ratelimit:...] and base64 text). *)
Abbreviation ScrapeWorld T := (Typed.TwoStores Window T).

Section Served.
Context {T V : Type}.
Variable parseURL : string -> option ParsedURL.
Variable DEFAULT_CACHE_TTL : Z.
Variable stringify : V -> string.
Variable browse : string -> BaseScraper -> string -> M (ScrapeWorld T) (option T).
Variable close : M (ScrapeWorld T) unit.

Abbreviation handler' :=
  (handler (limits := Typed.StoreA) (cache := Typed.StoreB)
     parseURL DEFAULT_CACHE_TTL stringify browse close).

(** One request at time [t], and a run of requests, each of which is
    answered before the next one arrives. *)
Definition serveAt (req : ApiRequest) (t : Z) (w : ScrapeWorld T)
    : Res Thrown (ApiResponse T) * ScrapeWorld T :=
  handler' Settles req (Typed.at_time t w).

Fixpoint serveAll (requests : list (ApiRequest * Z)) (w : ScrapeWorld T)
    : list (Res Thrown (ApiResponse T)) * ScrapeWorld T :=
  match requests with
  | [] => ([], w)
  | (req, t) :: rest =>
      let '(r, w') := serveAt req t w in
      let '(rs, w'') := serveAll rest w' in
      (r :: rs, w'')
  end.

(** A request that gets as far as the rate limit check for [domain],
    with rate limiting left on in its scraper options. *)
Definition Billable (domain : string) (req : ApiRequest) : Prop :=
  method req = "POST" /\
  exists url,
    bodyUrl req = Some url /\ url <> "" /\
    valid (validateScraperRequest parseURL
             (mkRequest url (queryType req) (bodyTimeout req))
             noRequestOptions) = true /\
    extractDomain parseURL url = domain /\
    isTrue (spread (Some true) (rateLimit (bodyOptions req))) = true.

(** The scraper and the browser do their work without failing and leave
    the rate-limit records alone. *)
Definition Harmless {A} (m : M (ScrapeWorld T) A) : Prop :=
  forall w, exists a w', m w = (Ok a, w') /\ Typed.storeA w' = Typed.storeA w.

(** The key under which [scrape] caches the result for a URL. *)
Definition scrapeKey (url : string) : string :=
  generateCacheKey stringify url [] "scrape".

(** The scraper's own rate limit check lets the request through: it is
    switched off, or the domain has no open window, or its window is
    open with room for one more request. *)
Definition Passes (options : BaseScraperOptions) (url : string)
    (w : ScrapeWorld T) : Prop :=
  isTrue (spread (Some true) (rateLimit options)) = false \/
  activeWindow (extractDomain parseURL url) (Typed.clock2 w) (Typed.viewA w)
  = None \/
  exists c until,
    c + 1 < 60 /\ Typed.clock2 w <= until /\
    CountIs (extractDomain parseURL url) c until (Typed.viewA w).

Definition Caching (options : BaseScraperOptions) : Prop :=
  isTrue (spread (Some true) (cacheEnabled options)) = true.

End Served.

(** A browser that takes 250 ms and returns a page that names the
    scraper type, one that cannot be reached, and a request for the
    guide of [sampleParser]. *)
Definition sampleBrowse (kind : string) (this : BaseScraper) (url : string)
    : M (ScrapeWorld string) (option string) :=
  fun w =>
    (Ok (Some (kind ++ " " ++ url)),
     Typed.mkTwo (Typed.storeA w) (Typed.storeB w) (Typed.clock2 w + 250)).

Definition noBrowser (kind : string) (this : BaseScraper) (url : string)
    : M (ScrapeWorld string) (option string) :=
  throw (ThrownError "Failed to launch the browser process").

Definition guide : string := "https://docs.example.com/guide".

(** A store in which the window of the guide's domain is used up while
    the guide itself is cached. *)
Definition busyWorld : ScrapeWorld string :=
  Typed.mkTwo
    {[ keyOf "docs.example.com" := mkItem (Some (mkWindow 60 70000)) None ]}
    {[ generateCacheKey stringifyScalar guide [] "scrape"
       := mkItem (Some ("news " ++ guide)) None ]}
    2000.

Definition sampleRequest (kind : string) : ApiRequest :=
  mkApiRequest "POST" kind (Some guide) None noScraperOptions.

Definition statusOf {T} (r : Res Thrown (ApiResponse T)) : option Z :=
  match r with
  | Ok response => Some (status response)
  | Throw _ => None
  end.

(** The status with which a refusal by the scraper's own rate limit
    check is answered. *)
Definition refusalStatus (domain : string) : Z :=
  statusCode
    (handleError (ThrownError ("Rate limit exceeded for domain: " ++ domain))).

(** The status of request number [i] (from 0) of a window. *)
Definition windowStatus (domain : string) (i : nat) : option Z :=
  Some (if (i <? 29)%nat then 200
        else if (i =? 29)%nat then refusalStatus domain
        else 429).

End Scraper.

(** ** Product availability ([src/lib/scrapers/ecommerce.ts]) *)

Module Shop.
Import Resolver.

Section Page.
Context {E : Type}.

(** The page, as far as the availability check uses it:
    [page.waitForSelector(selector, { timeout })], which rejects when
    the time is up, and [$eval(selector, el =>
    el.getAttribute('content'))]. *)
Record ShopPage : Type := mkShopPage {
  pageWaitForSelector : string -> Z -> Res E unit;
  evalContent : string -> Res E (option string)
}.

(** [this.options.timeout] *)
Variable this_timeout : Z.

(** [waitForSelector] of the base class; the wait lasts
    [timeout || this.options.timeout]. *)
Definition waitForSelector (page : ShopPage) (selector : string)
    (timeout : option Z) : bool :=
  let wait :=
    match timeout with
    | Some t => if t =? 0 then this_timeout else t
    | None => this_timeout
    end in
  match pageWaitForSelector page selector wait with
  | Ok _ => true
  | Throw _ => false
  end.

(** The two [for] loops of [extractAvailability]: does one of the
    selectors show up within 100 ms? *)
Fixpoint anyPresent (page : ShopPage) (selectors : list string) : bool :=
  match selectors with
  | [] => false
  | selector :: rest =>
      if waitForSelector page selector (Some 100) then true
      else anyPresent page rest
  end.

Definition availableSelectors : list string :=
  [ ".in-stock";
    "[itemprop=" ++ dq ++ "availability" ++ dq ++ "][content="
      ++ dq ++ "InStock" ++ dq ++ "]";
    ".product-available" ].

Definition unavailableSelectors : list string :=
  [ ".out-of-stock";
    "[itemprop=" ++ dq ++ "availability" ++ dq ++ "][content="
      ++ dq ++ "OutOfStock" ++ dq ++ "]";
    ".product-unavailable" ].

Definition availabilityMeta : string :=
  "meta[property=" ++ dq ++ "product:availability" ++ dq ++ "]".

Definition extractAvailability (page : ShopPage) : bool :=
  if anyPresent page availableSelectors then true
  else if anyPresent page unavailableSelectors then false
  else
    match evalContent page availabilityMeta with
    | Ok (Some content) =>
        let metaAvailability := JS.or_else content "" in
        if JS.truthy metaAvailability
        then JS.includes (MarkdownCode.toLowerCase metaAvailability) "instock"
        else true
    | Ok None => true
    | Throw _ => true
    end.

(** The selector shows up within 100 ms. *)
Definition Shows (page : ShopPage) (selector : string) : Prop :=
  exists u, pageWaitForSelector page selector 100 = Ok u.

(** The availability meta tag has a content that does not mention
    [instock] in any letter case. *)
Definition MetaSaysOut (page : ShopPage) : Prop :=
  exists content,
    evalContent page availabilityMeta = Ok (Some content) /\
    content <> "" /\
    ~ JS.Includes (MarkdownCode.toLowerCase content) "instock".

End Page.
Arguments ShopPage E : clear implicits.

(** A product page with both an in-stock and an out-of-stock mark, and
    one whose only hint is a meta tag. *)
Definition mixedPage : ShopPage string :=
  mkShopPage
    (fun selector _ =>
       if String.eqb selector ".product-available" then Ok tt
       else if String.eqb selector ".out-of-stock" then Ok tt
       else Throw "Waiting for selector failed")
    (fun _ => Ok (Some "OutOfStock")).

Definition metaPage : ShopPage string :=
  mkShopPage
    (fun _ _ => Throw "Waiting for selector failed")
    (fun selector =>
       if String.eqb selector availabilityMeta
       then Ok (Some "https://schema.org/SoldOut")
       else Throw "failed to find element matching selector").

End Shop.
(** * Properties *)

(** ** Facts about the JavaScript helpers *)

Module JSFacts.
Import JS.

Lemma startsWith_spec (s p : string) :
  startsWith s p = true <-> exists b, s = p ++ b.
Proof.
  revert s. induction p as [|c p IH]; intros s; simpl.
  - split; [intros _; by exists s | done].
  - destruct s as [|d s]; simpl.
    + split; [done | intros [b Hb]; discriminate].
    + rewrite andb_true_iff, Ascii.eqb_eq, IH. split.
      * intros [-> [b ->]]. by exists b.
      * intros [b Hb]. injection Hb as -> ->. eauto.
Qed.

Lemma includes_spec (s p : string) :
  includes s p = true <-> Includes s p.
Proof.
  unfold Includes. induction s as [|c s IH].
  - simpl. rewrite orb_false_r, startsWith_spec. split.
    + intros [b Hb]. by exists "", b.
    + intros ([|a0 a] & b & Hb); [by exists b | discriminate].
  - cbn [includes]. rewrite orb_true_iff, startsWith_spec, IH. split.
    + intros [[b Hb] | (a & b & ->)].
      * by exists "", b.
      * by exists (String c a), b.
    + intros ([|a0 a] & b & Hb).
      * left. by exists b.
      * right. injection Hb as _ ->. by exists a, b.
Qed.

Lemma includes_false (s p : string) :
  includes s p = false <-> ~ Includes s p.
Proof.
  rewrite <- includes_spec. destruct (includes s p); split; congruence.
Qed.

Lemma append_assoc (a b c : string) : (a ++ b) ++ c = a ++ b ++ c.
Proof. induction a as [|x a IH]; cbn; [done | by rewrite IH]. Qed.

Lemma append_empty_r (a : string) : a ++ "" = a.
Proof. induction a as [|x a IH]; cbn; [done | by rewrite IH]. Qed.

Lemma truthy_spec (s : string) : truthy s = true <-> s <> "".
Proof. destruct s; simpl; split; congruence. Qed.

Lemma or_else_empty (s : string) : or_else s "" = s.
Proof. by destruct s. Qed.

End JSFacts.

(** ** Error classifier *)

Module ErrorsFacts.
Import JS Errors JSFacts.

Lemma either_includes (msg p q : string) :
  includes msg p || includes msg q = true <-> Includes msg p \/ Includes msg q.
Proof. by rewrite orb_true_iff, !includes_spec. Qed.

Lemma neither_includes (msg p q : string) :
  ~ (Includes msg p \/ Includes msg q) ->
  includes msg p || includes msg q = false.
Proof.
  intros Hn. apply not_true_is_false. by rewrite either_includes.
Qed.

(** C4. [handleError] returns a [ScrapingError] unchanged; classifies any
    other [Error] by its message, testing in this order for "timeout" or
    "timed out" (Timeout, 408), "net::" or "network" (Network, 503),
    "browser" or "puppeteer" (Browser, 500); and makes everything else an
    Internal error with status 500. The factories fix the status of each
    kind: Validation 400, RateLimit 429, Timeout 408, Scraping 500,
    Network 503, Browser 500, NotFound 404, Internal 500. *)
Theorem handleError_classifies :
  (forall e, handleError (ThrownScrapingError e) = e) /\
  (forall msg, TimeoutLike msg ->
     kindAndStatus (handleError (ThrownError msg)) = (TIMEOUT_ERROR, 408)) /\
  (forall msg, ~ TimeoutLike msg -> NetworkLike msg ->
     kindAndStatus (handleError (ThrownError msg)) = (NETWORK_ERROR, 503)) /\
  (forall msg, ~ TimeoutLike msg -> ~ NetworkLike msg -> BrowserLike msg ->
     kindAndStatus (handleError (ThrownError msg)) = (BROWSER_ERROR, 500)) /\
  (forall msg, ~ TimeoutLike msg -> ~ NetworkLike msg -> ~ BrowserLike msg ->
     kindAndStatus (handleError (ThrownError msg)) = (INTERNAL_ERROR, 500)) /\
  kindAndStatus (handleError ThrownOther) = (INTERNAL_ERROR, 500) /\
  (forall msg det,
     kindAndStatus (createValidationError msg det) = (VALIDATION_ERROR, 400) /\
     kindAndStatus (createRateLimitError msg det) = (RATE_LIMIT_ERROR, 429) /\
     kindAndStatus (createTimeoutError msg det) = (TIMEOUT_ERROR, 408) /\
     kindAndStatus (createScrapingError msg det) = (SCRAPING_ERROR, 500) /\
     kindAndStatus (createNetworkError msg det) = (NETWORK_ERROR, 503) /\
     kindAndStatus (createBrowserError msg det) = (BROWSER_ERROR, 500) /\
     kindAndStatus (createNotFoundError msg det) = (NOT_FOUND_ERROR, 404) /\
     kindAndStatus (new_ScrapingError msg None None det) = (INTERNAL_ERROR, 500)).
Proof.
  unfold TimeoutLike, NetworkLike, BrowserLike.
  repeat split; try done.
  - intros msg Ht. unfold handleError.
    by rewrite (proj2 (either_includes _ _ _) Ht).
  - intros msg Ht Hn. unfold handleError.
    by rewrite (neither_includes _ _ _ Ht), (proj2 (either_includes _ _ _) Hn).
  - intros msg Ht Hn Hb. unfold handleError.
    by rewrite (neither_includes _ _ _ Ht), (neither_includes _ _ _ Hn),
      (proj2 (either_includes _ _ _) Hb).
  - intros msg Ht Hn Hb. unfold handleError.
    by rewrite (neither_includes _ _ _ Ht), (neither_includes _ _ _ Hn),
      (neither_includes _ _ _ Hb).
Qed.

Ltac refute_includes :=
  let H := fresh "Hinc" in
  intros [H | H]; apply includes_spec in H; vm_compute in H; discriminate.

Lemma handleError_classifies_witness :
  kindAndStatus (handleError (ThrownError "Navigation timeout of 30000 ms exceeded"))
    = (TIMEOUT_ERROR, 408) /\
  kindAndStatus (handleError (ThrownError "net::ERR_NAME_NOT_RESOLVED"))
    = (NETWORK_ERROR, 503) /\
  kindAndStatus (handleError (ThrownError "Failed to launch the browser process"))
    = (BROWSER_ERROR, 500) /\
  kindAndStatus (handleError (ThrownError "Unexpected token < in JSON"))
    = (INTERNAL_ERROR, 500).
Proof.
  destruct handleError_classifies as (_ & Ht & Hn & Hb & Hi & _).
  split; [|split; [|split]].
  - apply Ht. left. by exists "Navigation ", " of 30000 ms exceeded".
  - apply Hn; [refute_includes |]. left. by exists "", "ERR_NAME_NOT_RESOLVED".
  - apply Hb; [refute_includes | refute_includes |].
    left. by exists "Failed to launch the ", " process".
  - apply Hi; refute_includes.
Defined.

End ErrorsFacts.

(** ** Markdown rules *)

Module MarkdownFacts.
Import JS Markdown JSFacts.

Lemma truthy_opt_present o v : Present o v -> truthy_opt o = true.
Proof. intros [-> Hv]. by apply truthy_spec. Qed.

Lemma truthy_opt_absent o : Absent o -> truthy_opt o = false.
Proof. by intros [-> | ->]. Qed.

(** C6. The image rule emits [![alt](src =WxH)] when both size attributes
    are present, [![alt](src =Wx)] and [![alt](src =xH)] when only the
    width or only the height is, [![alt](src)] when neither is, and the
    empty string when [src] is missing or empty. In particular
    [alt="x" src="y" width="10" height="20"] gives [![x](y =10x20)] and
    without the two size attributes [![x](y)]. *)
Theorem imageReplacement_forms (content : string) (img : Element)
    (src : string) :
  (Absent (getAttribute img "src") -> imageReplacement content img = "") /\
  (Present (getAttribute img "src") src ->
     let width := getAttribute img "width" in
     let height := getAttribute img "height" in
     (forall w h, Present width w -> Present height h ->
        imageReplacement content img
        = "![" ++ alt img ++ "](" ++ src ++ " =" ++ w ++ "x" ++ h ++ ")") /\
     (forall w, Present width w -> Absent height ->
        imageReplacement content img
        = "![" ++ alt img ++ "](" ++ src ++ " =" ++ w ++ "x)") /\
     (forall h, Absent width -> Present height h ->
        imageReplacement content img
        = "![" ++ alt img ++ "](" ++ src ++ " =x" ++ h ++ ")") /\
     (Absent width -> Absent height ->
        imageReplacement content img = "![" ++ alt img ++ "](" ++ src ++ ")")).
Proof.
  unfold imageReplacement. rewrite !or_else_empty. split.
  - by intros [-> | ->].
  - intros [-> Hsrc]. destruct src as [|c src]; [done |]. cbn [from_option id truthy negb].
    repeat split.
    + intros w h [-> Hw] [-> Hh]. by destruct w, h.
    + intros w [-> Hw] [-> | ->]; by destruct w.
    + intros h [-> | ->] [-> Hh]; by destruct h.
    + by intros [-> | ->] [-> | ->].
Qed.

Lemma imageReplacement_forms_witness :
  imageReplacement "" sizedImage = "![x](y =10x20)" /\
  imageReplacement "" plainImage = "![x](y)" /\
  imageReplacement "" wideImage = "![x](y =10x)" /\
  imageReplacement "" tallImage = "![x](y =x20)" /\
  imageReplacement "" emptySrcImage = "".
Proof.
  split; [| split; [| split; [| split]]].
  - destruct (imageReplacement_forms "" sizedImage "y") as [_ Hy].
    destruct Hy as (Hboth & _); [by split |].
    apply (Hboth "10" "20"); by split.
  - destruct (imageReplacement_forms "" plainImage "y") as [_ Hy].
    destruct Hy as (_ & _ & _ & Hnone); [by split |].
    apply Hnone; by left.
  - destruct (imageReplacement_forms "" wideImage "y") as [_ Hy].
    destruct Hy as (_ & Hw & _); [by split |].
    apply (Hw "10"); [by split | by left].
  - destruct (imageReplacement_forms "" tallImage "y") as [_ Hy].
    destruct Hy as (_ & _ & Hh & _); [by split |].
    apply (Hh "20"); [by left | by split].
  - destruct (imageReplacement_forms "" emptySrcImage "") as [Hempty _].
    apply Hempty. by right.
Defined.

(** The loop appends the lines of the rows from index [i] on. *)
Lemma dataRows_drop (fuel : nat) (rs : list Row) (i : nat) (acc : string) :
  (length rs - i <= fuel)%nat ->
  dataRows fuel rs i acc = Ok (acc ++ concatLines (map rowLine (drop i rs))).
Proof.
  revert i acc. induction fuel as [|fuel IH]; intros i acc Hfuel.
  - rewrite drop_ge by lia. cbn. by rewrite append_empty_r.
  - cbn [dataRows]. destruct (Nat.ltb_spec i (length rs)) as [Hlt | Hge].
    + destruct (lookup_lt_is_Some_2 rs i Hlt) as [r Hr]. rewrite Hr.
      rewrite IH by lia. rewrite (drop_S _ _ _ Hr). cbn [map concatLines fold_right].
      unfold rowLine at 2. by rewrite append_assoc.
    + rewrite drop_ge by lia. cbn. by rewrite append_empty_r.
Qed.

Lemma lookup_map {A B} (f : A -> B) (xs : list A) (i : nat) (x : A) :
  xs !! i = Some x -> map f xs !! i = Some (f x).
Proof.
  revert i. induction xs as [|y xs IH]; intros [|i] Hx; simplify_eq/=; eauto.
Qed.

Lemma separator_per_column {A} (xs : list A) :
  map (fun _ => "---") xs = replicate (length xs) "---".
Proof. induction xs as [|x xs IH]; cbn; [done | by rewrite IH]. Qed.

(** C7. The table rule passes the content of a table without rows through
    unchanged; for a table with rows it emits the first row as the header
    line, a separator line holding [---] once per header cell, and then
    one line per remaining row, in order. It never raises. *)
Theorem tableReplacement_shape (content : string) :
  tableReplacement content (mkTable []) = Ok content /\
  forall (header : Row) (body : list Row),
    tableReplacement content (mkTable (header :: body))
    = Ok (nl ++ concatLines (tableLines header body) ++ nl)
    /\ length (tableLines header body) = (2 + length body)%nat
    /\ forall i r, body !! i = Some r ->
         tableLines header body !! (2 + i)%nat = Some (rowLine r).
Proof.
  split; [done |]. intros header body. split; [| split].
  - unfold tableReplacement. cbn [rows lookup list_lookup].
    rewrite dataRows_drop by (cbn; lia).
    cbn [drop]. unfold tableLines, separatorLine, rowLine.
    rewrite separator_per_column, length_map.
    cbn [concatLines fold_right]. by rewrite !append_assoc.
  - unfold tableLines. cbn. by rewrite length_map.
  - intros i r Hr. exact (lookup_map rowLine body i r Hr).
Qed.

Lemma tableReplacement_shape_witness :
  tableReplacement "" (mkTable (stockHeader :: stockBody))
  = Ok (nl ++ "| Name | Qty |" ++ nl ++ "| --- | --- |" ++ nl
           ++ "| Tea | 2 |" ++ nl ++ "| Milk |  |" ++ nl
           ++ "| Oat |  |" ++ nl ++ nl) /\
  tableLines stockHeader stockBody !! 3%nat = Some ("| Milk |  |" ++ nl).
Proof.
  destruct (tableReplacement_shape "") as [_ Hrows].
  destruct (Hrows stockHeader stockBody) as (Hshape & _ & Hline).
  split; [exact Hshape |].
  exact (Hline 1%nat (mkRow [cell "Milk"; mkCell None]) eq_refl).
Defined.

End MarkdownFacts.

(** ** Retry wrappers *)

Module RetryFacts.
Import Retry.

Section Loops.
Context {E T : Type}.
Variable truthyE : E -> bool.
Variable operationFailed : E.
Implicit Types (op : nat -> Res E T).

Abbreviation backoffStep := (fun k => [Attempt k; Sleep (2 ^ Z.of_nat k * 1000)]).
Abbreviation constantStep := (fun k => [Attempt k; Sleep 1000]).

Lemma orThree_pos (n : nat) : (1 <= n)%nat -> orThree (Some (Z.of_nat n)) = Z.of_nat n.
Proof.
  intros Hn. unfold orThree. destruct (Z.eqb_spec (Z.of_nat n) 0); [lia | done].
Qed.

(** [withRetry], all attempts failing: from attempt [a] on, the loop makes
    the remaining attempts, doubling the wait, and rethrows. *)
Lemma retryLoop_exhaust op (mr : option Z) (n : nat) (lastErr : E) :
  orThree mr = Z.of_nat n ->
  FailsUpTo op n ->
  op n = Throw lastErr ->
  forall (d a fuel : nat) (last0 : option E),
    (a + d = n)%nat -> (d < fuel)%nat ->
    retryLoop truthyE operationFailed op mr fuel a last0
    = (rethrow truthyE operationFailed (Some lastErr),
       (flat_map backoffStep (seq a d) ++ [Attempt n])%list).
Proof.
  intros Hmr Hfail Hlast. induction d as [|d IH]; intros a fuel last0 Ha Hfuel.
  - destruct fuel as [|fuel]; [lia |]. cbn [retryLoop]. rewrite Hmr.
    assert (a = n) as -> by lia.
    destruct (Z.ltb_spec (Z.of_nat n) (Z.of_nat n + 1)); [| lia].
    rewrite Hlast, Z.geb_leb.
    destruct (Z.leb_spec (Z.of_nat n) (Z.of_nat n)); [done | lia].
  - destruct fuel as [|fuel]; [lia |]. cbn [retryLoop]. rewrite Hmr.
    destruct (Z.ltb_spec (Z.of_nat a) (Z.of_nat n + 1)); [| lia].
    destruct (Hfail a) as [e He]; [lia |]. rewrite He, Z.geb_leb.
    destruct (Z.leb_spec (Z.of_nat n) (Z.of_nat a)); [lia |].
    rewrite (IH (S a) fuel (Some e)) by lia. done.
Qed.

(** [withRetry], first success at attempt [k]. *)
Lemma retryLoop_success op (mr : option Z) (n k : nat) (v : T) :
  orThree mr = Z.of_nat n ->
  (k <= n)%nat ->
  FirstSuccess op k v ->
  forall (d a fuel : nat) (last0 : option E),
    (a + d = k)%nat -> (d < fuel)%nat ->
    retryLoop truthyE operationFailed op mr fuel a last0
    = (Ok v, (flat_map backoffStep (seq a d) ++ [Attempt k])%list).
Proof.
  intros Hmr Hk [Hfail Hok]. induction d as [|d IH]; intros a fuel last0 Ha Hfuel.
  - destruct fuel as [|fuel]; [lia |]. cbn [retryLoop]. rewrite Hmr.
    assert (a = k) as -> by lia.
    destruct (Z.ltb_spec (Z.of_nat k) (Z.of_nat n + 1)); [| lia].
    by rewrite Hok.
  - destruct fuel as [|fuel]; [lia |]. cbn [retryLoop]. rewrite Hmr.
    destruct (Z.ltb_spec (Z.of_nat a) (Z.of_nat n + 1)); [| lia].
    destruct (Hfail a) as [e He]; [lia |]. rewrite He, Z.geb_leb.
    destruct (Z.leb_spec (Z.of_nat n) (Z.of_nat a)); [lia |].
    rewrite (IH (S a) fuel (Some e)) by lia. done.
Qed.

(** [navigateToUrl], all [S m] attempts failing. *)
Lemma navigateLoop_exhaust op (m : nat) (lastErr : E) :
  (forall k, (k <= m)%nat -> exists e, op k = Throw e) ->
  op m = Throw lastErr ->
  forall (d a fuel : nat),
    (a + d = m)%nat -> (d < fuel)%nat ->
    navigateLoop op (Z.of_nat (S m)) fuel a
    = (Throw lastErr, (flat_map constantStep (seq a d) ++ [Attempt m])%list).
Proof.
  intros Hfail Hlast. induction d as [|d IH]; intros a fuel Ha Hfuel.
  - destruct fuel as [|fuel]; [lia |]. cbn [navigateLoop].
    assert (a = m) as -> by lia.
    destruct (Z.ltb_spec (Z.of_nat m) (Z.of_nat (S m))); [| lia].
    rewrite Hlast, Z.geb_leb.
    destruct (Z.leb_spec (Z.of_nat (S m)) (Z.of_nat (S m))); [done | lia].
  - destruct fuel as [|fuel]; [lia |]. cbn [navigateLoop].
    destruct (Z.ltb_spec (Z.of_nat a) (Z.of_nat (S m))); [| lia].
    destruct (Hfail a) as [e He]; [lia |]. rewrite He, Z.geb_leb.
    destruct (Z.leb_spec (Z.of_nat (S m)) (Z.of_nat (S a))); [lia |].
    rewrite (IH (S a) fuel) by lia. done.
Qed.

(** [navigateToUrl], first success at attempt [k]. *)
Lemma navigateLoop_success op (n k : nat) (v : T) :
  (k < n)%nat ->
  FirstSuccess op k v ->
  forall (d a fuel : nat),
    (a + d = k)%nat -> (d < fuel)%nat ->
    navigateLoop op (Z.of_nat n) fuel a
    = (Ok tt, (flat_map constantStep (seq a d) ++ [Attempt k])%list).
Proof.
  intros Hk [Hfail Hok]. induction d as [|d IH]; intros a fuel Ha Hfuel.
  - destruct fuel as [|fuel]; [lia |]. cbn [navigateLoop].
    assert (a = k) as -> by lia.
    destruct (Z.ltb_spec (Z.of_nat k) (Z.of_nat n)); [| lia].
    by rewrite Hok.
  - destruct fuel as [|fuel]; [lia |]. cbn [navigateLoop].
    destruct (Z.ltb_spec (Z.of_nat a) (Z.of_nat n)); [| lia].
    destruct (Hfail a) as [e He]; [lia |]. rewrite He, Z.geb_leb.
    destruct (Z.leb_spec (Z.of_nat n) (Z.of_nat (S a))); [lia |].
    rewrite (IH (S a) fuel) by lia. done.
Qed.

(** C3, as amended. With [maxRetries = n >= 1]: [withRetry] makes up to
    [n + 1] attempts, waits [2^k] seconds after the failed attempt [k],
    returns the first success and rethrows the last error when all
    [n + 1] attempts fail. Page navigation does not go through
    [withRetry]: [navigateToUrl] has its own loop, which makes up to [n]
    attempts in total, waits one second between them and rethrows the
    error of the [n]-th attempt. *)
Theorem withRetry_backoff_navigateToUrl_constant op (n : nat) :
  (1 <= n)%nat ->
  RetriesWithBackoff truthyE (withRetry truthyE operationFailed) op n /\
  (forall k v, (k <= n)%nat -> FirstSuccess op k v ->
     withRetry truthyE operationFailed op (Some (Z.of_nat n))
     = (Ok v, backoffTrace k)) /\
  (forall lastErr, FailsUpTo op (n - 1) -> op (n - 1)%nat = Throw lastErr ->
     navigateToUrl op (Some (Z.of_nat n)) = (Throw lastErr, constantTrace n)) /\
  (forall k v, (k < n)%nat -> FirstSuccess op k v ->
     navigateToUrl op (Some (Z.of_nat n)) = (Ok tt, constantTrace (S k))).
Proof.
  intros Hn. pose proof (orThree_pos n Hn) as Hmr.
  split; [| split; [| split]].
  - intros lastErr Htruthy Hfail Hlast. unfold withRetry.
    rewrite (retryLoop_exhaust op _ n lastErr Hmr Hfail Hlast n 0) by lia.
    cbn [rethrow]. by rewrite Htruthy.
  - intros k v Hk Hsucc. unfold withRetry.
    by rewrite (retryLoop_success op _ n k v Hmr Hk Hsucc k 0) by lia.
  - intros lastErr Hfail Hlast. unfold navigateToUrl. cbn [default from_option id].
    destruct n as [|m]; [lia |]. replace (S m - 1)%nat with m in * by lia.
    by rewrite (navigateLoop_exhaust op m lastErr Hfail Hlast m 0) by lia.
  - intros k v Hk Hsucc. unfold navigateToUrl. cbn [default from_option id].
    by rewrite (navigateLoop_success op n k v Hk Hsucc k 0) by lia.
Qed.

End Loops.

Lemma withRetry_backoff_navigateToUrl_constant_witness :
  (1 <= 3)%nat /\
  withRetry anyTruthy "Operation failed after retries" refused (Some 3)
  = (Throw "net::ERR_CONNECTION_REFUSED",
     [Attempt 0; Sleep 1000; Attempt 1; Sleep 2000; Attempt 2; Sleep 4000;
      Attempt 3]) /\
  navigateToUrl refused (Some 3)
  = (Throw "net::ERR_CONNECTION_REFUSED",
     [Attempt 0; Sleep 1000; Attempt 1; Sleep 1000; Attempt 2]).
Proof.
  assert (H3 : (1 <= 3)%nat) by lia.
  destruct (withRetry_backoff_navigateToUrl_constant anyTruthy
              "Operation failed after retries" refused 3 H3)
    as (Hretry & _ & Hnav & _).
  split; [exact H3 | split].
  - apply (Hretry "net::ERR_CONNECTION_REFUSED"); [done | | done].
    intros k _. by eexists.
  - apply (Hnav "net::ERR_CONNECTION_REFUSED"); [| done].
    intros k _. by eexists.
Defined.

(** C3, as stated, fails for the wrapper that navigation uses: with
    [maxRetries = 3] and a navigation that always fails, [navigateToUrl]
    stops after three attempts and its waits do not grow. *)
Lemma navigateToUrl_no_backoff :
  ~ RetriesWithBackoff anyTruthy navigateToUrl refused 3.
Proof.
  intros Hclaim.
  specialize (Hclaim "net::ERR_CONNECTION_REFUSED" eq_refl).
  assert (Hfail : FailsUpTo refused 3) by (intros k _; by eexists).
  specialize (Hclaim Hfail eq_refl). vm_compute in Hclaim. discriminate.
Qed.

End RetryFacts.

(** ** Field resolution *)

Module ResolverFacts.
Import JS Resolver JSFacts.

Section Page.
Context {E : Type}.
Implicit Types (page : Page E).

Lemma extractText_match page selector value :
  Matches page selector value -> extractText page selector = value.
Proof.
  intros (t & Ht & <- & _). unfold extractText.
  by rewrite Ht, or_else_empty.
Qed.

Lemma extractText_no_match page selector :
  NoMatch page selector <-> extractText page selector = "".
Proof.
  unfold NoMatch, extractText. split.
  - intros Hno. destruct (evalTextContent page selector) as [[t|]|e] eqn:Ht; try done.
    rewrite or_else_empty. destruct (trim t) as [|c r] eqn:Htrim; [done |].
    destruct (Hno (String c r)). by exists t.
  - intros Hempty value (t & Ht & Htrim & Hne).
    rewrite Ht, or_else_empty, Htrim in Hempty. done.
Qed.

Lemma resolveTitle_skip page before rest :
  Forall (NoMatch page) before ->
  resolveTitle page (before ++ rest) = resolveTitle page rest.
Proof.
  induction 1 as [|s before Hs _ IH]; [done |].
  cbn [app resolveTitle]. apply extractText_no_match in Hs. by rewrite Hs.
Qed.


End Page.


End ResolverFacts.

(** ** Rate limiter *)

Module RateLimitFacts.
Import KV RateLimit.

(** Against the in-memory store an admission does what [admitModel]
    says. *)
Lemma admitAt_model domain maxRequests windowMs t w :
  admitAt domain maxRequests windowMs t w
  = admitModel domain maxRequests windowMs t w.
Proof.
  unfold admitAt, admitModel, activeWindow, checkAndIncrementRateLimit,
    checkRateLimit, incrementRateLimit, notLimited, bind, try_catch, ret,
    Date_now.
  cbn [kv_get kv_set MockKV now]. unfold mock_get, mock_set.
  set (key := keyOf domain). cbn [set_clock store clock].
  destruct (store w !! key) as [item|] eqn:Hitem;
    [destruct (expired item t) eqn:Hexp;
      [| destruct (value item) as [data|] eqn:Hval;
         [destruct (t >? reset data) eqn:Hopen;
           [| destruct (maxRequests - count data <=? 0) eqn:Hfull] |] ] |];
    cbn [set_clock store clock Info.limited];
    rewrite ?Hopen, ?Hfull; cbn [set_clock store clock Info.limited];
    rewrite ?lookup_delete_eq, ?Hitem, ?Hexp, ?Hval, ?Hopen;
    cbn [set_clock store clock Info.limited];
    rewrite ?insert_delete_eq; done.
Qed.

Lemma ceil_div_covers (a : Z) : a <= JS.ceil_div a 1000 * 1000.
Proof.
  unfold JS.ceil_div. pose proof (Z.mul_div_le (- a) 1000 eq_refl). lia.
Qed.

Lemma itemAt_kept (v : Window) (ex t t' : Z) :
  reset v <= t + ex * 1000 -> t' <= reset v ->
  expired (itemAt v ex t) t' = false.
Proof.
  intros Hcover Ht'. unfold expired, itemAt. cbn [expiry].
  destruct (ex =? 0); [done |].
  apply andb_false_iff. right. apply Z.ltb_ge. lia.
Qed.

Lemma activeWindow_stored domain t w data :
  activeWindow domain t w = Some data ->
  exists item, store w !! keyOf domain = Some item
               /\ value item = Some data /\ t <= reset data.
Proof.
  unfold activeWindow. intros Hact.
  destruct (store w !! keyOf domain) as [item|]; [| done].
  destruct (expired item t); [done |].
  destruct (value item) as [d|] eqn:Hval; [| done].
  destruct (Z.gtb_spec t (reset d)); [done |].
  injection Hact as ->. exists item. repeat split; [done | lia].
Qed.

Lemma activeWindow_clock domain t t' w :
  activeWindow domain t (set_clock t' w) = activeWindow domain t w.
Proof. done. Qed.

(** An open window with a stored count [c] is answered "limited" exactly
    when [c + 1] reaches the limit. *)
Lemma limited_iff_count_reaches_max domain maxRequests windowMs t w data info w' :
  activeWindow domain t w = Some data ->
  admitAt domain maxRequests windowMs t w = (Ok info, w') ->
  Info.limited info = true <-> maxRequests <= count data + 1.
Proof.
  intros Hact. rewrite admitAt_model. unfold admitModel. rewrite Hact.
  destruct (Z.leb_spec (maxRequests - count data) 0);
    intros [= <- <-]; cbn [Info.limited]; [split; [lia | done] |].
  rewrite Z.leb_le. lia.
Qed.

(** *** The stored record stays sound *)

Lemma SoundRecord_absent domain maxRequests w :
  store w !! keyOf domain = None -> SoundRecord domain maxRequests w.
Proof. intros Hnone item data Hitem. congruence. Qed.

Lemma admitAt_sound domain maxRequests windowMs t w :
  1 <= maxRequests ->
  SoundRecord domain maxRequests w ->
  SoundRecord domain maxRequests (admitAt domain maxRequests windowMs t w).2.
Proof.
  intros Hmax Hsound. rewrite admitAt_model. unfold admitModel.
  destruct (activeWindow domain t w) as [data|] eqn:Hact.
  - destruct (Z.leb_spec (maxRequests - count data) 0) as [Hfull | Hroom].
    + exact Hsound.
    + intros item d. cbn [snd store]. rewrite lookup_insert_eq.
      intros [= <-] [= <-]. cbn [count reset]. split; [lia |].
      intros t' Ht'. apply itemAt_kept; [| done]. cbn [reset].
      pose proof (ceil_div_covers (reset data - t)). lia.
  - intros item d. cbn [snd store]. rewrite lookup_insert_eq.
    intros [= <-] [= <-]. cbn [count reset]. split; [lia |].
    intros t' Ht'. apply itemAt_kept; [| done]. cbn [reset].
    pose proof (ceil_div_covers windowMs). lia.
Qed.

Lemma admitAll_sound domain maxRequests windowMs times w :
  1 <= maxRequests ->
  SoundRecord domain maxRequests w ->
  SoundRecord domain maxRequests (admitAll domain maxRequests windowMs times w).2.
Proof.
  intros Hmax. revert w. induction times as [|t times IH]; intros w Hsound.
  - done.
  - cbn [admitAll].
    pose proof (admitAt_sound domain maxRequests windowMs t w Hmax Hsound) as H1.
    destruct (admitAt domain maxRequests windowMs t w) as [r w1].
    specialize (IH w1 H1).
    by destruct (admitAll domain maxRequests windowMs times w1) as [rs w2].
Qed.

Lemma SoundRecord_count domain maxRequests w c :
  SoundRecord domain maxRequests w ->
  storedCount domain w = Some c -> c <= maxRequests.
Proof.
  unfold storedCount. intros Hsound Hc.
  destruct (store w !! keyOf domain) as [item|] eqn:Hitem; [| done].
  destruct (value item) as [data|] eqn:Hval; [| done].
  injection Hc as <-. by destruct (Hsound item data Hitem Hval).
Qed.

(** *** After a rejection *)

Lemma KeptRecord_absent domain w :
  store w !! keyOf domain = None -> KeptRecord domain w.
Proof. intros Hnone item data Hitem. congruence. Qed.

(** Whatever the limit, an admission leaves a record that the store
    keeps until its reset time. *)
Lemma admitAt_kept domain maxRequests windowMs t w :
  KeptRecord domain w ->
  KeptRecord domain (admitAt domain maxRequests windowMs t w).2.
Proof.
  intros Hkept. rewrite admitAt_model. unfold admitModel.
  destruct (activeWindow domain t w) as [data|] eqn:Hact.
  - destruct (maxRequests - count data <=? 0); [exact Hkept |].
    intros item d. cbn [snd store]. rewrite lookup_insert_eq.
    intros [= <-] [= <-]. cbn [reset].
    intros t' Ht'. apply itemAt_kept; [| done]. cbn [reset].
    pose proof (ceil_div_covers (reset data - t)). lia.
  - intros item d. cbn [snd store]. rewrite lookup_insert_eq.
    intros [= <-] [= <-]. cbn [reset].
    intros t' Ht'. apply itemAt_kept; [| done]. cbn [reset].
    pose proof (ceil_div_covers windowMs). lia.
Qed.

Lemma admitAll_kept domain maxRequests windowMs times w :
  KeptRecord domain w ->
  KeptRecord domain (admitAll domain maxRequests windowMs times w).2.
Proof.
  revert w. induction times as [|t times IH]; intros w Hkept; [done |].
  cbn [admitAll].
  pose proof (admitAt_kept domain maxRequests windowMs t w Hkept) as H1.
  destruct (admitAt domain maxRequests windowMs t w) as [r w1].
  specialize (IH w1 H1).
  by destruct (admitAll domain maxRequests windowMs times w1) as [rs w2].
Qed.

Lemma limited_UsedUp domain maxRequests windowMs t w info w' :
  KeptRecord domain w ->
  admitAt domain maxRequests windowMs t w = (Ok info, w') ->
  Info.limited info = true ->
  UsedUp domain maxRequests (Info.reset info) w'.
Proof.
  intros Hsound. rewrite admitAt_model. unfold admitModel.
  destruct (activeWindow domain t w) as [data|] eqn:Hact; [| by intros [= <- <-]].
  destruct (Z.leb_spec (maxRequests - count data) 0) as [Hfull | Hroom];
    intros [= <- <-]; cbn [Info.limited Info.reset].
  - intros _ t' Ht'. exists data. split; [| done].
    apply activeWindow_stored in Hact as (item & Hitem & Hval & _).
    pose proof (Hsound item data Hitem Hval) as Hkept.
    unfold activeWindow. cbn [set_clock store]. rewrite Hitem, (Hkept t' Ht'), Hval.
    destruct (Z.gtb_spec t' (reset data)); [lia | done].
  - intros Hlim t' Ht'. apply Z.leb_le in Hlim.
    exists (mkWindow (count data + 1) (reset data)). split; [| done].
    unfold activeWindow. cbn [store]. rewrite lookup_insert_eq.
    rewrite itemAt_kept; cbn [reset value itemAt]; [| | done].
    + destruct (Z.gtb_spec t' (reset data)); [lia | done].
    + pose proof (ceil_div_covers (reset data - t)). lia.
Qed.

Lemma UsedUp_rejects domain maxRequests windowMs until later w :
  UsedUp domain maxRequests until w ->
  Forall (fun t => t <= until) later ->
  store (admitAll domain maxRequests windowMs later w).2 = store w /\
  Forall (fun r => allowed r = Some false)
    (admitAll domain maxRequests windowMs later w).1.
Proof.
  intros Hused Hlater. revert w Hused.
  induction Hlater as [|t later Ht _ IH]; intros w Hused; [done |].
  cbn [admitAll]. rewrite admitAt_model. unfold admitModel.
  destruct (Hused t Ht) as (data & -> & Hfull).
  destruct (Z.leb_spec (maxRequests - count data) 0); [| lia].
  specialize (IH (set_clock t w) Hused).
  destruct (admitAll domain maxRequests windowMs later (set_clock t w))
    as [rs w2].
  destruct IH as [Hstore Hrs]. split; [done |]. by constructor.
Qed.

(** C9, as amended. Starting without a record for the domain and under
    any sequence of sequential admissions: for a limit
    [maxRequests >= 1] the stored count never exceeds [maxRequests]; and,
    for every limit, once an admission reports "limited", the admissions
    that follow up to the reset time of that window are all rejected and
    leave the store as it is. *)
Theorem count_bounded_and_no_write_after_limit
    domain maxRequests windowMs (times later : list Z) (t : Z) w0 :
  store w0 !! keyOf domain = None ->
  let w := (admitAll domain maxRequests windowMs times w0).2 in
  (1 <= maxRequests ->
   forall c, storedCount domain w = Some c -> c <= maxRequests) /\
  (forall info w1,
     admitAt domain maxRequests windowMs t w = (Ok info, w1) ->
     Info.limited info = true ->
     Forall (fun t' => t' <= Info.reset info) later ->
     store (admitAll domain maxRequests windowMs later w1).2 = store w1 /\
     Forall (fun r => allowed r = Some false)
       (admitAll domain maxRequests windowMs later w1).1).
Proof.
  intros Hnone w. split.
  - intros Hmax c. apply SoundRecord_count.
    apply admitAll_sound; [done |]. by apply SoundRecord_absent.
  - intros info w1 Hcall Hlim Hlater.
    eapply UsedUp_rejects; [| done].
    eapply limited_UsedUp; [| done | done].
    apply admitAll_kept. by apply KeptRecord_absent.
Qed.

Lemma count_bounded_and_no_write_after_limit_witness :
  let w := (admitAll "example.com" 3 60000 [0; 10; 20] emptyWorld).2 in
  (forall c, storedCount "example.com" w = Some c -> c <= 3) /\
  store (admitAll "example.com" 3 60000 [40; 50; 60000]
           (admitAt "example.com" 3 60000 30 w).2).2
  = store (admitAt "example.com" 3 60000 30 w).2.
Proof.
  intros w.
  assert (Hmax : 1 <= 3) by lia.
  assert (Hnone : store emptyWorld !! keyOf "example.com" = None) by done.
  destruct (count_bounded_and_no_write_after_limit "example.com" 3 60000
              [0; 10; 20] [40; 50; 60000] 30 emptyWorld Hnone)
    as [Hcount Hafter].
  split; [exact (Hcount Hmax) |].
  destruct (admitAt "example.com" 3 60000 30 w) as [r w1] eqn:Hcall.
  destruct r as [info | e]; [| by vm_compute in Hcall].
  apply (Hafter info w1 Hcall).
  - vm_compute in Hcall. by injection Hcall as <- <-.
  - vm_compute in Hcall. injection Hcall as <- <-. cbn [Info.reset].
    repeat constructor; lia.
Defined.

(** With a limit of zero the count bound is lost but the second half
    still holds: the opening admission is let through, the next one is
    rejected, and nothing is written from then on. *)
Lemma zero_limit_no_write_after_limit :
  map allowed (admitAll "example.com" 0 60000 [0; 1; 2; 60000] emptyWorld).1
  = [Some true; Some false; Some false; Some false] /\
  store (admitAll "example.com" 0 60000 [0; 1; 2; 60000] emptyWorld).2
  = store (admitAll "example.com" 0 60000 [0] emptyWorld).2.
Proof. by vm_compute. Qed.

(** The bound on the stored count relies on the store answering: when
    the [get] of the check step rejects once, the check says "not
    limited" and the increment step, whose [get] succeeds, takes the count
    past the limit. Here the limit is 1 and the fourth store operation,
    the check of the second admission, is the one that fails. *)
Lemma transient_failure_overshoots :
  let start : FlakyWorld Window :=
    mkFlaky emptyWorld [false; false; false; true] in
  let after :=
    (bind (checkAndIncrementRateLimit "example.com" 1 60000)
       (fun _ => checkAndIncrementRateLimit "example.com" 1 60000) start).2 in
  storedCount "example.com" (inner after) = Some 2.
Proof. by vm_compute. Qed.

(** C9, as stated, fails for a limit of zero requests: the first
    admission stores a count of 1. *)
Lemma zero_limit_count_exceeds : ~ CountBounded "example.com" 0 60000.
Proof.
  intros Hclaim. specialize (Hclaim [0] 1). vm_compute in Hclaim.
  by specialize (Hclaim eq_refl eq_refl).
Qed.

(** C1, at the boundary. With [maxRequests = 3] and [windowMs = 60000],
    four admissions within one window are answered allowed, allowed,
    rejected, rejected: the admission that takes the count to 3 is
    already reported as limited. A fifth admission after the reset time is
    allowed and the stored count is 1 again. *)
Theorem third_admission_of_three_rejected :
  map allowed
    (admitAll "example.com" 3 60000 [0; 1; 2; 3; 60001] emptyWorld).1
  = [Some true; Some true; Some false; Some false; Some true] /\
  storedCount "example.com"
    (admitAll "example.com" 3 60000 [0; 1; 2; 3] emptyWorld).2 = Some 3 /\
  storedCount "example.com"
    (admitAll "example.com" 3 60000 [0; 1; 2; 3; 60001] emptyWorld).2 = Some 1 /\
  ~ AdmitsExactly "example.com" 3 60000.
Proof.
  repeat split; try by vm_compute.
Qed.

End RateLimitFacts.

(** ** Cache layer: reads, writes and failures *)

Module CacheFacts.
Import KV Cache RateLimit.
Local Open Scope js_scope.

Section Failures.
Context {W T : Type} {cacheStore : Store W T}.
Context {W' : Type} {limitStore : Store W' Window}.
Variable DEFAULT_CACHE_TTL : Z.

Abbreviation setCachedValue' := (setCachedValue DEFAULT_CACHE_TTL).
Abbreviation getOrSetCachedValue' := (getOrSetCachedValue DEFAULT_CACHE_TTL).
Abbreviation ttlOf options := (default DEFAULT_CACHE_TTL (ttl options)).

Lemma notLimited_ok (maxRequests windowMs : Z) (w : W') :
  exists info, notLimited maxRequests windowMs w = (Ok info, w)
               /\ Info.limited info = false.
Proof. by eexists. Qed.

Lemma checkRateLimit_never_throws domain maxRequests windowMs (w : W') :
  exists info w', checkRateLimit domain maxRequests windowMs w = (Ok info, w').
Proof.
  unfold checkRateLimit, try_catch, bind, Date_now, notLimited, ret.
  destruct (kv_get (keyOf domain) w) as [[[data|]|e] w1]; eauto.
  destruct (now w1 >? reset data); eauto.
Qed.

Lemma incrementRateLimit_never_throws domain maxRequests windowMs (w : W') :
  exists info w', incrementRateLimit domain maxRequests windowMs w = (Ok info, w').
Proof.
  unfold incrementRateLimit, try_catch, bind, Date_now, notLimited, ret.
  destruct (kv_get (keyOf domain) w) as [[[data|]|e] w1]; eauto.
  - destruct (now w >? reset data).
    + destruct (kv_set _ _ _ w1) as [[[]|e] w2]; eauto.
    + destruct (kv_set _ _ _ w1) as [[[]|e] w2]; eauto.
  - destruct (kv_set _ _ _ w1) as [[[]|e] w2]; eauto.
Qed.

(** C8. Failures of the store stay inside the cache and rate-limit
    layers. A rejected [get] makes the cache read return [null]; a
    rejected [set] makes the cache write return [false], and
    [getOrSetCachedValue] then still returns the value just produced. A
    rejected [get] during a rate-limit check gives "not limited", and
    none of the three rate-limit functions ever rejects; when the store
    rejects again in the increment step, the admission is allowed. *)
Theorem store_failures_contained :
  (forall key (w w' : W) e,
     kv_get key w = (Throw e, w') ->
     getCachedValue key w = (Ok None, w')) /\
  (forall key value options (w w' : W) e,
     kv_set key value (ttlOf options) w = (Throw e, w') ->
     setCachedValue' key value options w = (Ok false, w')) /\
  (forall key factory options (w w1 w2 w3 : W) value e,
     getCachedValue key w = (Ok None, w1) ->
     factory w1 = (Ok value, w2) ->
     kv_set key value (ttlOf options) w2 = (Throw e, w3) ->
     getOrSetCachedValue' key factory options w = (Ok value, w3)) /\
  (forall domain maxRequests windowMs (w w' : W') e,
     kv_get (keyOf domain) w = (Throw e, w') ->
     exists info,
       checkRateLimit domain maxRequests windowMs w = (Ok info, w')
       /\ Info.limited info = false) /\
  (forall domain maxRequests windowMs (w : W'),
     exists info w',
       checkAndIncrementRateLimit domain maxRequests windowMs w
       = (Ok info, w')) /\
  (forall domain maxRequests windowMs (w w' w'' : W') e e',
     kv_get (keyOf domain) w = (Throw e, w') ->
     kv_get (keyOf domain) w' = (Throw e', w'') ->
     exists info,
       checkAndIncrementRateLimit domain maxRequests windowMs w
       = (Ok info, w'')
       /\ Info.limited info = false).
Proof.
  split; [| split; [| split; [| split; [| split]]]].
  - intros key w w' e Hget. unfold getCachedValue, try_catch. by rewrite Hget.
  - intros key value options w w' e Hset.
    unfold setCachedValue, try_catch, bind. by rewrite Hset.
  - intros key factory options w w1 w2 w3 value e Hget Hfac Hset.
    unfold getOrSetCachedValue, bind. rewrite Hget, Hfac.
    unfold setCachedValue, try_catch, bind. by rewrite Hset.
  - intros domain maxRequests windowMs w w' e Hget.
    unfold checkRateLimit, try_catch, bind. rewrite Hget.
    apply notLimited_ok.
  - intros domain maxRequests windowMs w.
    unfold checkAndIncrementRateLimit, bind.
    destruct (checkRateLimit_never_throws domain maxRequests windowMs w)
      as (info & w1 & ->).
    destruct (Info.limited info); [by eexists _, _ |].
    apply incrementRateLimit_never_throws.
  - intros domain maxRequests windowMs w w' w'' e e' Hget Hget'.
    unfold checkAndIncrementRateLimit, bind, checkRateLimit, try_catch, bind.
    rewrite Hget.
    destruct (notLimited_ok maxRequests windowMs w') as (info & -> & ->).
    unfold incrementRateLimit, try_catch, bind, Date_now. rewrite Hget'.
    apply notLimited_ok.
Qed.

End Failures.

Lemma store_failures_contained_witness :
  getCachedValue (T := string) "c2NyYXBl" (mkOutage 5) = (Ok None, mkOutage 5) /\
  setCachedValue 3600 "c2NyYXBl" (Some "page") noOptions (mkOutage 5)
  = (Ok false, mkOutage 5) /\
  getOrSetCachedValue 3600 "c2NyYXBl" (ret (Some "page")) noOptions (mkOutage 5)
  = (Ok (Some "page"), mkOutage 5) /\
  allowed (checkRateLimit "example.com" 60 60000 (mkOutage 5)).1 = Some true /\
  allowed (checkAndIncrementRateLimit "example.com" 60 60000 (mkOutage 5)).1
  = Some true.
Proof.
  destruct (store_failures_contained (W := Outage) (T := string)
              (W' := Outage) 3600)
    as (Hget & Hset & Hboth & Hcheck & _ & Hadmit).
  split; [| split; [| split; [| split]]].
  - by apply (Hget "c2NyYXBl" (mkOutage 5) (mkOutage 5) unreachable).
  - by apply (Hset "c2NyYXBl" (Some "page") noOptions _ _ unreachable).
  - apply (Hboth "c2NyYXBl" (ret (Some "page")) noOptions
             (mkOutage 5) (mkOutage 5) (mkOutage 5) (mkOutage 5)
             (Some "page") unreachable); done.
  - destruct (Hcheck "example.com" 60 60000 (mkOutage 5) (mkOutage 5)
                unreachable eq_refl) as (info & -> & Hlim).
    cbn [fst allowed]. by rewrite Hlim.
  - destruct (Hadmit "example.com" 60 60000 (mkOutage 5) (mkOutage 5)
                (mkOutage 5) unreachable unreachable eq_refl eq_refl)
      as (info & -> & Hlim).
    cbn [fst allowed]. by rewrite Hlim.
Defined.

(** *** A stored [null] *)

Section StoredNull.
Context {T : Type}.
Variable DEFAULT_CACHE_TTL : Z.
Implicit Types (w : MockWorld T) (factory : M (MockWorld T) (option T)).

Lemma getCachedValue_null key w :
  NullOrMissing key w ->
  exists w', getCachedValue key w = (Ok None, w') /\ clock w' = clock w.
Proof.
  intros Hnull. unfold getCachedValue, try_catch. cbn [kv_get MockKV].
  unfold mock_get. destruct (store w !! key) as [item|] eqn:Hitem.
  - destruct (expired item (clock w)); [by eexists |].
    rewrite (Hnull item Hitem). by eexists.
  - by eexists.
Qed.

Lemma lookup_ignored key factory options w :
  NullOrMissing key w ->
  getOrSetCachedValue DEFAULT_CACHE_TTL key factory options w
  = lookupThenCompute DEFAULT_CACHE_TTL key factory options w.
Proof.
  intros Hnull. unfold getOrSetCachedValue, lookupThenCompute, bind.
  by destruct (getCachedValue_null key w Hnull) as (w' & -> & _).
Qed.

Lemma null_stored key factory options w :
  (forall w, exists w', factory w = (Ok None, w')) ->
  exists w1,
    lookupThenCompute DEFAULT_CACHE_TTL key factory options w = (Ok None, w1)
    /\ store w1 !! key
       = Some (mkItem None
                 (let ttl := default DEFAULT_CACHE_TTL (ttl options) in
                  if ttl =? 0 then None else Some (clock w1 + ttl * 1000))).
Proof.
  intros Hfac. unfold lookupThenCompute, computeAndStore, bind.
  destruct (getCachedValue key w) as [[v|e] w0] eqn:Hget.
  - destruct (Hfac w0) as [w' ->].
    unfold setCachedValue, try_catch, bind. cbn [kv_set MockKV].
    unfold mock_set, ret. eexists. split; [done |].
    cbn [store clock]. by rewrite lookup_insert_eq.
  - unfold getCachedValue, try_catch in Hget. cbn [kv_get MockKV] in Hget.
    unfold mock_get in Hget.
    destruct (store w !! key) as [item|]; [destruct (expired item (clock w)) |];
      discriminate.
Qed.

Lemma times_lookup_ignored key factory options (n : nat) w :
  (forall w, exists w', factory w = (Ok None, w')) ->
  NullOrMissing key w ->
  times n (getOrSetCachedValue DEFAULT_CACHE_TTL key factory options) w
  = times n (lookupThenCompute DEFAULT_CACHE_TTL key factory options) w.
Proof.
  intros Hfac. revert w. induction n as [|n IH]; intros w Hnull; [done |].
  cbn [times]. unfold bind at 1 3. rewrite (lookup_ignored _ _ _ _ Hnull).
  destruct (null_stored key factory options w Hfac) as (w1 & -> & Hstored).
  unfold bind. rewrite IH; [done |].
  intros item. rewrite Hstored. by intros [= <-].
Qed.

(** C10. When the key holds nothing or a stored [null] and the producer
    gives [null], a call to [getOrSetCachedValue] runs the producer,
    stores [null] under the key with the time to live, and returns
    [null]; the key then holds a stored [null] again, so any number of
    calls in a row behaves like the same number of lookups each followed
    by an unconditional run of the producer and a write. *)
Theorem null_result_recomputed key factory options (n : nat) w :
  (forall w, exists w', factory w = (Ok None, w')) ->
  NullOrMissing key w ->
  (exists w0 w1 w2,
     getCachedValue key w = (Ok None, w0) /\
     factory w0 = (Ok None, w1) /\
     getOrSetCachedValue DEFAULT_CACHE_TTL key factory options w = (Ok None, w2) /\
     store w2
     = <[key := mkItem None
                  (let ttl := default DEFAULT_CACHE_TTL (ttl options) in
                   if ttl =? 0 then None else Some (clock w1 + ttl * 1000))]>
         (store w1) /\
     NullOrMissing key w2) /\
  times n (getOrSetCachedValue DEFAULT_CACHE_TTL key factory options) w
  = times n (lookupThenCompute DEFAULT_CACHE_TTL key factory options) w.
Proof.
  intros Hfac Hnull. split; [| by apply times_lookup_ignored].
  destruct (getCachedValue_null key w Hnull) as (w0 & Hget & _).
  destruct (Hfac w0) as [w1 Hrun].
  exists w0, w1. eexists. split; [done |]. split; [done |].
  unfold getOrSetCachedValue, bind. rewrite Hget, Hrun.
  unfold setCachedValue, try_catch, bind. cbn [kv_set MockKV].
  unfold mock_set, ret. split; [done |]. cbn [store]. split; [done |].
  intros item. cbn [store]. rewrite lookup_insert_eq. by intros [= <-].
Qed.

End StoredNull.

Lemma null_result_recomputed_witness :
  let start : MockWorld string := mkWorld ∅ 0 in
  (times 3 (getOrSetCachedValue 3600 "c2NyYXBl" nothingFound noOptions) start).1
  = Ok [None; None; None] /\
  clock
    (times 3 (getOrSetCachedValue 3600 "c2NyYXBl" nothingFound noOptions) start).2
  = 3.
Proof.
  intros start.
  assert (Hfac : forall w, exists w', nothingFound w = (Ok None, w'))
    by (intros w; by eexists).
  assert (Hnull : NullOrMissing "c2NyYXBl" start) by (intros item; done).
  destruct (null_result_recomputed 3600 "c2NyYXBl" nothingFound noOptions 3
              start Hfac Hnull) as [_ ->].
  by vm_compute.
Defined.

End CacheFacts.

(** ** Cache keys *)

Module KeyFacts.
Import JS Cache JSFacts.

(** *** Base64 is injective *)

Lemma b64char_index (i : N) :
  (i < 64)%N -> indexOf (b64char i) alphabet = Some (N.to_nat i).
Proof.
  intros Hi. destruct i as [|p]; [done |].
  do 6 (try destruct p as [p|p|]); try lia; try by vm_compute.
Qed.

Lemma b64char_inj (i j : N) :
  (i < 64)%N -> (j < 64)%N -> b64char i = b64char j -> i = j.
Proof.
  intros Hi Hj Heq. apply b64char_index in Hi, Hj.
  rewrite Heq, Hj in Hi. injection Hi. lia.
Qed.

Lemma b64char_not_pad (i : N) : (i < 64)%N -> b64char i <> "="%char.
Proof.
  intros Hi Heq. apply b64char_index in Hi. by rewrite Heq in Hi.
Qed.

Lemma byte_inj (a b : ascii) : byte a = byte b -> a = b.
Proof.
  unfold byte. intros Heq.
  by rewrite <- (ascii_N_embedding a), <- (ascii_N_embedding b), Heq.
Qed.

(** The six-bit groups of a three-byte block are in range. *)
Lemma sextets_bounded (a b c : ascii) :
  (byte a / 4 < 64 /\ byte a mod 4 * 16 + byte b / 16 < 64 /\
   byte b mod 16 * 4 + byte c / 64 < 64 /\ byte c mod 64 < 64 /\
   byte a mod 4 * 16 < 64 /\ byte b mod 16 * 4 < 64)%N.
Proof.
  pose proof (N_ascii_bounded a). pose proof (N_ascii_bounded b).
  pose proof (N_ascii_bounded c). fold (byte a) (byte b) (byte c) in *.
  assert (byte a / 4 < 64)%N by (apply N.Div0.div_lt_upper_bound; lia).
  assert (byte b / 16 < 16)%N by (apply N.Div0.div_lt_upper_bound; lia).
  assert (byte c / 64 < 4)%N by (apply N.Div0.div_lt_upper_bound; lia).
  pose proof (N.mod_lt (byte a) 4 ltac:(discriminate)).
  pose proof (N.mod_lt (byte b) 16 ltac:(discriminate)).
  pose proof (N.mod_lt (byte c) 64 ltac:(discriminate)).
  lia.
Qed.

Ltac split_byte x d :=
  pose proof (N.div_mod' x d);
  pose proof (N.mod_lt x d ltac:(discriminate)).

(** ... and they determine the bytes. *)
Lemma sextets_inj (a a' b b' c c' : N) :
  (a / 4 = a' / 4 ->
   a mod 4 * 16 + b / 16 = a' mod 4 * 16 + b' / 16 ->
   b mod 16 * 4 + c / 64 = b' mod 16 * 4 + c' / 64 ->
   c mod 64 = c' mod 64 ->
   b < 256 -> b' < 256 -> c < 256 -> c' < 256 ->
   a = a' /\ b = b' /\ c = c')%N.
Proof.
  intros.
  assert (b / 16 < 16)%N by (apply N.Div0.div_lt_upper_bound; lia).
  assert (b' / 16 < 16)%N by (apply N.Div0.div_lt_upper_bound; lia).
  assert (c / 64 < 4)%N by (apply N.Div0.div_lt_upper_bound; lia).
  assert (c' / 64 < 4)%N by (apply N.Div0.div_lt_upper_bound; lia).
  split_byte a 4%N. split_byte a' 4%N. split_byte b 16%N. split_byte b' 16%N.
  split_byte c 64%N. split_byte c' 64%N. lia.
Qed.

Lemma string_ind3 (P : string -> Prop) :
  P "" ->
  (forall a, P (String a "")) ->
  (forall a b, P (String a (String b ""))) ->
  (forall a b c r, P r -> P (String a (String b (String c r)))) ->
  forall s, P s.
Proof.
  intros H0 H1 H2 H3. fix IH 1.
  intros [|a [|b [|c r]]]; [done | done | done |]. apply H3, IH.
Qed.

(** Closes a case where a padding character would have to equal an
    alphabet character. *)
Ltac pad_clash a b c :=
  destruct (sextets_bounded a b c) as (? & ? & ? & ? & ? & ?);
  match goal with
  | H : "="%char = b64char _ |- _ => symmetry in H; by apply b64char_not_pad in H
  | H : b64char _ = "="%char |- _ => by apply b64char_not_pad in H
  end.

Lemma base64_inj (s1 s2 : string) : base64 s1 = base64 s2 -> s1 = s2.
Proof.
  revert s2. induction s1 as [|a|a b|a b c r IH] using string_ind3;
    intros [|a' [|b' [|c' r']]]; cbn [base64]; intros Heq; try discriminate.
  - done.
  - injection Heq as H0 H1.
    destruct (sextets_bounded a a a) as (? & _ & _ & _ & ? & _).
    destruct (sextets_bounded a' a' a') as (? & _ & _ & _ & ? & _).
    apply b64char_inj in H0, H1; try done.
    f_equal. apply byte_inj.
    split_byte (byte a) 4%N. split_byte (byte a') 4%N. lia.
  - injection Heq as _ _ Hpad. pad_clash a' b' b'.
  - injection Heq as _ _ Hpad. pad_clash a' b' c'.
  - injection Heq as _ _ Hpad. pad_clash a b b.
  - injection Heq as H0 H1 H2.
    destruct (sextets_bounded a b b) as (? & ? & _ & _ & _ & ?).
    destruct (sextets_bounded a' b' b') as (? & ? & _ & _ & _ & ?).
    apply b64char_inj in H0, H1, H2; try done.
    pose proof (N_ascii_bounded b). pose proof (N_ascii_bounded b').
    fold (byte b) (byte b') in *.
    assert (byte b / 16 < 16)%N by (apply N.Div0.div_lt_upper_bound; lia).
    assert (byte b' / 16 < 16)%N by (apply N.Div0.div_lt_upper_bound; lia).
    split_byte (byte a) 4%N. split_byte (byte a') 4%N.
    split_byte (byte b) 16%N. split_byte (byte b') 16%N.
    f_equal; [| f_equal]; apply byte_inj; lia.
  - injection Heq as _ _ _ Hpad. pad_clash a' b' c'.
  - injection Heq as _ _ Hpad. pad_clash a b c.
  - injection Heq as _ _ _ Hpad. pad_clash a b c.
  - injection Heq as H0 H1 H2 H3 Hrest.
    destruct (sextets_bounded a b c) as (? & ? & ? & ? & _).
    destruct (sextets_bounded a' b' c') as (? & ? & ? & ? & _).
    apply b64char_inj in H0, H1, H2, H3; try done.
    pose proof (N_ascii_bounded b). pose proof (N_ascii_bounded b').
    pose proof (N_ascii_bounded c). pose proof (N_ascii_bounded c').
    destruct (sextets_inj _ _ _ _ _ _ H0 H1 H2 H3) as (Ha & Hb & Hc);
      try done.
    apply byte_inj in Ha, Hb, Hc. subst. by rewrite (IH r').
Qed.

(** *** The string that is encoded *)

Lemma append_cancel_r (a b c : string) : a ++ c = b ++ c -> a = b.
Proof.
  assert (Hlen : forall x y : string,
            String.length (x ++ y) = (String.length x + String.length y)%nat).
  { intros x y. induction x as [|d x IH]; simpl; [done | by rewrite IH]. }
  revert b. induction a as [|x a IH]; intros [|y b] Heq; simpl in Heq.
  - done.
  - apply (f_equal String.length) in Heq. simpl in Heq. rewrite Hlen in Heq. lia.
  - apply (f_equal String.length) in Heq. simpl in Heq. rewrite Hlen in Heq. lia.
  - injection Heq as -> Heq. by rewrite (IH b Heq).
Qed.

Lemma append_cancel_l (a b c : string) : a ++ b = a ++ c -> b = c.
Proof. induction a as [|x a IH]; simpl; [done |]. intros [= Heq]. auto. Qed.

Section Key.
Context {V : Type}.
Variable stringify : V -> string.
Implicit Types (params : @ScrapeParams V).

Lemma canonical_url_inj (url1 url2 : string) params (namespace : string) :
  canonical stringify url1 params namespace
  = canonical stringify url2 params namespace ->
  url1 = url2.
Proof.
  unfold canonical. intros Heq.
  do 2 apply append_cancel_l in Heq. by apply append_cancel_r in Heq.
Qed.

(** *** Property order *)

Lemma sortKeys_perm (ks ks' : list string) :
  ks ≡ₚ ks' -> sortKeys ks = sortKeys ks'.
Proof.
  intros Hperm. unfold sortKeys.
  apply (StronglySorted_unique String.le).
  - apply StronglySorted_merge_sort; apply _.
  - apply StronglySorted_merge_sort; apply _.
  - by rewrite !merge_sort_Permutation.
Qed.

Lemma getParam_elem params (key : string) (v : V) :
  NoDup (map fst params) ->
  getParam params key = Some v <-> (key, v) ∈ params.
Proof.
  induction params as [|[k0 v0] params IH]; intros Hnodup.
  - simpl. split; [done | by intros ?%elem_of_nil].
  - apply NoDup_cons in Hnodup as [Hfresh Hnodup]. cbn [getParam].
    rewrite elem_of_cons. destruct (String.eqb_spec k0 key) as [-> | Hne].
    + split; [intros [= ->]; by left |].
      intros [[= ->] | Hin]; [done |]. destruct Hfresh.
      apply list_elem_of_In, in_map_iff. exists (key, v).
      split; [done | by apply list_elem_of_In].
    + rewrite (IH Hnodup). split; [by right |]. intros [[= -> ->] | Hin]; done.
Qed.

Lemma getParam_perm params params' (key : string) :
  NoDup (map fst params) -> params ≡ₚ params' ->
  getParam params key = getParam params' key.
Proof.
  intros Hnodup Hperm.
  assert (Hnodup' : NoDup (map fst params')).
  { assert (Hkeys : map fst params ≡ₚ map fst params')
      by by apply Permutation_map.
    by rewrite <- Hkeys. }
  destruct (getParam params key) as [v|] eqn:Hv.
  - symmetry. apply (getParam_elem _ _ _ Hnodup').
    rewrite <- Hperm. by apply (getParam_elem _ _ _ Hnodup).
  - destruct (getParam params' key) as [v'|] eqn:Hv'; [| done].
    apply (getParam_elem _ _ _ Hnodup') in Hv'. rewrite <- Hperm in Hv'.
    apply (getParam_elem _ _ _ Hnodup) in Hv'. congruence.
Qed.

Lemma generateCacheKey_perm (url : string) params params' (namespace : string) :
  NoDup (map fst params) -> params ≡ₚ params' ->
  generateCacheKey stringify url params namespace
  = generateCacheKey stringify url params' namespace.
Proof.
  intros Hnodup Hperm. unfold generateCacheKey, canonical, paramsString.
  rewrite (sortKeys_perm (map fst params) (map fst params'))
    by by apply Permutation_map.
  assert (Hentries : forall ks : list string,
            map (paramEntry stringify params) ks
            = map (paramEntry stringify params') ks).
  { intros ks. apply map_ext. intros key. unfold paramEntry.
    by rewrite (getParam_perm params params' key Hnodup Hperm). }
  by rewrite Hentries.
Qed.

(** C2, as amended. The key does not depend on the order in which the
    properties of the parameter object were inserted. Two inputs that
    differ only in the URL are encoded from different strings
    [namespace:url:params] and have different base64 encodings; the final
    step, which replaces [+], [/] and [=] by [_], may still give them the
    same key. *)
Theorem generateCacheKey_order_independent
    (url url' : string) params params' (namespace : string) :
  NoDup (map fst params) ->
  params ≡ₚ params' ->
  generateCacheKey stringify url params namespace
  = generateCacheKey stringify url params' namespace /\
  (url <> url' ->
   canonical stringify url params namespace
   <> canonical stringify url' params namespace /\
   base64 (canonical stringify url params namespace)
   <> base64 (canonical stringify url' params namespace)).
Proof.
  intros Hnodup Hperm. split; [by apply generateCacheKey_perm |].
  intros Hne. split.
  - intros Heq. by apply canonical_url_inj in Heq.
  - intros Heq. by apply base64_inj, canonical_url_inj in Heq.
Qed.

End Key.

(** The example of the design document, for every URL and namespace. *)
Lemma generateCacheKey_a_b (url namespace : string) :
  generateCacheKey stringifyScalar url [("a", SNum 1); ("b", SNum 2)] namespace
  = generateCacheKey stringifyScalar url [("b", SNum 2); ("a", SNum 1)] namespace.
Proof.
  apply generateCacheKey_perm.
  - by apply (bool_decide_unpack _).
  - apply Permutation_swap.
Qed.

Lemma generateCacheKey_order_independent_witness :
  generateCacheKey stringifyScalar "https://example.com/ab?c"
    [("a", SNum 1); ("b", SNum 2)] "scrape"
  = generateCacheKey stringifyScalar "https://example.com/ab?c"
      [("b", SNum 2); ("a", SNum 1)] "scrape" /\
  base64 (canonical stringifyScalar "https://example.com/ab?c"
            [("a", SNum 1); ("b", SNum 2)] "scrape")
  <> base64 (canonical stringifyScalar "https://example.com/ab>c"
               [("a", SNum 1); ("b", SNum 2)] "scrape").
Proof.
  assert (Hnodup : NoDup (map fst [("a", SNum 1); ("b", SNum 2)])).
  { by apply (bool_decide_unpack _). }
  destruct (generateCacheKey_order_independent stringifyScalar
              "https://example.com/ab?c" "https://example.com/ab>c"
              [("a", SNum 1); ("b", SNum 2)] [("b", SNum 2); ("a", SNum 1)]
              "scrape" Hnodup (Permutation_swap _ _ _)) as [Hsame Hdiff].
  split; [exact Hsame |]. by apply Hdiff.
Defined.

(** C2, as stated, fails: these two URLs differ and get the same key,
    because their encodings differ only in a [/] against a [+]. *)
Lemma generateCacheKey_collision : ~ SeparatesUrls stringifyScalar.
Proof.
  intros Hclaim.
  apply (Hclaim "https://example.com/ab?c" "https://example.com/ab>c" [] "scrape");
    [done | by vm_compute].
Qed.

End KeyFacts.

(** * Further properties *)

(** ** The in-memory store *)

Module CounterFacts.
Import KV Counter.

Section Items.
Context {V : Type}.
Implicit Types (w : MockWorld V) (v : option V).

Lemma expired_deadline (v : option V) (t ex t' : Z) :
  expired (mkItem v (if ex =? 0 then None else Some (t + ex * 1000))) t'
  = match deadline t ex with
    | Some d => d <? t'
    | None => false
    end.
Proof.
  unfold expired, deadline. cbn [expiry].
  destruct (ex =? 0); [done |]. by destruct (t + ex * 1000 =? 0).
Qed.

(** X1. A value written with [set(key, v, { ex })] is read back by [get]
    for as long as it is alive, and the read changes nothing; once its
    time to live is over, [get] answers [null] and drops the key. Other
    keys are not affected by the write. *)
Theorem set_get_ttl (key : string) v (ex t' : Z) w :
  let w1 := (mock_set key v ex w).2 in
  (aliveAt (clock w) ex t' ->
     mock_get key (set_clock t' w1) = (Ok v, set_clock t' w1)) /\
  (~ aliveAt (clock w) ex t' ->
     exists w2, mock_get key (set_clock t' w1) = (Ok None, w2)
                /\ store w2 !! key = None
                /\ store w2 = delete key (store w)) /\
  (forall key', key' <> key -> store w1 !! key' = store w !! key').
Proof.
  intros w1. unfold mock_get, aliveAt. cbn [w1 mock_set snd set_clock store clock].
  rewrite lookup_insert_eq, expired_deadline.
  split; [| split].
  - destruct (deadline (clock w) ex) as [d|]; [| done].
    intros Hd. by destruct (Z.ltb_spec d t'); [lia |].
  - destruct (deadline (clock w) ex) as [d|]; [| done].
    intros Hd. destruct (Z.ltb_spec d t'); [| lia].
    eexists. split; [done |]. cbn [store].
    by rewrite lookup_delete_eq, delete_insert_eq.
  - intros key' Hne. by rewrite lookup_insert_ne.
Qed.

End Items.

Lemma set_get_ttl_witness :
  let w : MockWorld string := mkWorld ∅ 1000 in
  mock_get "k" (set_clock 61000 (mock_set "k" (Some "v") 60 w).2)
  = (Ok (Some "v"), set_clock 61000 (mock_set "k" (Some "v") 60 w).2) /\
  (mock_get "k" (set_clock 61001 (mock_set "k" (Some "v") 60 w).2)).1
  = Ok None.
Proof.
  intros w.
  destruct (set_get_ttl "k" (Some "v") 60 61000 w) as (Halive & _ & _).
  destruct (set_get_ttl "k" (Some "v") 60 61001 w) as (_ & Hdead & _).
  split.
  - apply Halive. by vm_compute.
  - destruct Hdead as (w2 & -> & _); [| done]. vm_compute. by intros Hle.
Defined.

(** X2. [incr] answers one more than what [get] shows (a missing, expired
    or [null] entry counts as 0), stores that number, and stores it
    without expiry: a counter that had a time to live loses it at its
    first [incr] and is from then on read back at any later time. *)
Theorem incr_drops_ttl (key : string) (w : MockWorld Z) (t' : Z) :
  let n := readCounter key w + 1 in
  exists w1,
    mock_incr key w = (Ok n, w1) /\
    store w1 !! key = Some (mkItem (Some n) None) /\
    mock_get key (set_clock t' w1) = (Ok (Some n), set_clock t' w1).
Proof.
  intros n. unfold mock_incr, bind, readCounter in *.
  destruct (mock_get key w) as [[[m|]|e] w0] eqn:Hget; cbn [fst] in n; subst n.
  - assert (Hm : (if m =? 0 then 0 else m) = m)
      by (destruct (Z.eqb_spec m 0); congruence).
    cbv beta iota. rewrite Hm. unfold mock_set, ret. cbn [Z.eqb].
    eexists. split; [done |]. cbn [store]. rewrite lookup_insert_eq.
    split; [done |]. unfold mock_get. cbn [set_clock store clock].
    by rewrite lookup_insert_eq.
  - unfold mock_set, ret. cbn [Z.eqb]. eexists. split; [done |].
    cbn [store]. rewrite lookup_insert_eq. split; [done |].
    unfold mock_get. cbn [set_clock store clock]. by rewrite lookup_insert_eq.
  - unfold mock_get in Hget.
    destruct (store w !! key) as [item|]; [destruct (expired item (clock w)) |];
      discriminate.
Qed.

End CounterFacts.

(** ** The rate limiter: answers, windows, reset *)

Module RateLimitMoreFacts.
Import KV RateLimit RateLimitMore RateLimitFacts.

Section AnyStore.
Context {W : Type} `{Store W Window}.

Lemma notLimited_coherent (maxRequests windowMs : Z) (w : W) :
  exists info, notLimited maxRequests windowMs w = (Ok info, w)
               /\ Coherent maxRequests info.
Proof. eexists. split; [done |]. unfold Coherent. cbn. split; [done | split; [lia | done]]. Qed.

Ltac coherent :=
  eexists _, _; split; [done |]; unfold Coherent; cbn;
  split; [done | split; [lia | try done; by intros ?%Z.leb_le]].

Lemma checkRateLimit_coherent domain maxRequests windowMs (w : W) :
  exists info w',
    checkRateLimit domain maxRequests windowMs w = (Ok info, w')
    /\ Coherent maxRequests info.
Proof.
  unfold checkRateLimit, try_catch, bind, Date_now, notLimited, ret.
  destruct (kv_get (keyOf domain) w) as [[[data|]|e] w1]; [| coherent ..].
  destruct (now w1 >? reset data); coherent.
Qed.

Lemma incrementRateLimit_coherent domain maxRequests windowMs (w : W) :
  exists info w',
    incrementRateLimit domain maxRequests windowMs w = (Ok info, w')
    /\ Coherent maxRequests info.
Proof.
  unfold incrementRateLimit, try_catch, bind, Date_now, notLimited, ret.
  destruct (kv_get (keyOf domain) w) as [[[data|]|e] w1]; [| | coherent].
  - destruct (now w >? reset data);
      destruct (kv_set _ _ _ w1) as [[[]|e] w2]; coherent.
  - destruct (kv_set _ _ _ w1) as [[[]|e] w2]; coherent.
Qed.

(** X3. Whatever the store does, each of [checkRateLimit],
    [incrementRateLimit] and [checkAndIncrementRateLimit] resolves with
    an answer whose fields fit together: [max] is the limit passed in,
    [remaining = max - current], and [limited] is only set when
    [remaining <= 0]. *)
Theorem answers_coherent domain maxRequests windowMs (w : W) :
  (exists info w',
     checkRateLimit domain maxRequests windowMs w = (Ok info, w')
     /\ Coherent maxRequests info) /\
  (exists info w',
     incrementRateLimit domain maxRequests windowMs w = (Ok info, w')
     /\ Coherent maxRequests info) /\
  (exists info w',
     checkAndIncrementRateLimit domain maxRequests windowMs w = (Ok info, w')
     /\ Coherent maxRequests info).
Proof.
  split; [apply checkRateLimit_coherent |].
  split; [apply incrementRateLimit_coherent |].
  unfold checkAndIncrementRateLimit, bind.
  destruct (checkRateLimit_coherent domain maxRequests windowMs w)
    as (info & w1 & -> & Hinfo).
  destruct (Info.limited info); [by eexists _, _ |].
  apply incrementRateLimit_coherent.
Qed.

End AnyStore.

Lemma ceil_div_rounds_up (a : Z) :
  a <= JS.ceil_div a 1000 * 1000 < a + 1000.
Proof.
  unfold JS.ceil_div.
  pose proof (Z.mul_div_le (- a) 1000 eq_refl).
  pose proof (Z.mul_succ_div_gt (- a) 1000 eq_refl). lia.
Qed.

(** X4. Against the in-memory store, [resetInSeconds] of every answer is
    the time from the call to the [reset] of the answer, in seconds,
    rounded up. *)
Theorem resetInSeconds_rounds_up domain maxRequests windowMs (t : Z) w :
  exists info w',
    admitAt domain maxRequests windowMs t w = (Ok info, w') /\
    Info.reset info - t <= Info.resetInSeconds info * 1000
      < Info.reset info - t + 1000.
Proof.
  rewrite admitAt_model. unfold admitModel.
  destruct (activeWindow domain t w) as [data|].
  - destruct (maxRequests - count data <=? 0); eexists _, _;
      (split; [done |]); cbn [Info.reset Info.resetInSeconds];
      apply ceil_div_rounds_up.
  - eexists _, _. split; [done |]. cbn [Info.reset Info.resetInSeconds].
    pose proof (ceil_div_rounds_up windowMs). lia.
Qed.

Lemma keyOf_inj (d d' : string) : keyOf d = keyOf d' -> d = d'.
Proof. apply KeyFacts.append_cancel_l. Qed.

Lemma admitAt_frame domain domain' maxRequests windowMs t w :
  domain <> domain' ->
  store (admitAt domain maxRequests windowMs t w).2 !! keyOf domain'
  = store w !! keyOf domain'.
Proof.
  intros Hne. rewrite admitAt_model. unfold admitModel.
  assert (keyOf domain <> keyOf domain') by (by intros ?%keyOf_inj).
  destruct (activeWindow domain t w) as [data|].
  - destruct (maxRequests - count data <=? 0); cbn [snd set_clock store];
      [done | by rewrite lookup_insert_ne].
  - cbn [snd store]. by rewrite lookup_insert_ne.
Qed.

(** X5. Admissions for one domain never touch the record of another
    domain: after any sequence of admissions for [domain], what is
    stored for a different [domain'] is what was stored before. *)
Theorem other_domains_untouched domain domain' maxRequests windowMs
    (times : list Z) w :
  domain <> domain' ->
  store (admitAll domain maxRequests windowMs times w).2 !! keyOf domain'
  = store w !! keyOf domain'.
Proof.
  intros Hne. revert w. induction times as [|t times IH]; intros w; [done |].
  cbn [admitAll].
  pose proof (admitAt_frame domain domain' maxRequests windowMs t w Hne) as Hstep.
  destruct (admitAt domain maxRequests windowMs t w) as [r w1].
  specialize (IH w1).
  destruct (admitAll domain maxRequests windowMs times w1) as [rs w2].
  cbn [snd] in *. congruence.
Qed.

Lemma other_domains_untouched_witness :
  storedCount "b.example"
    (admitAll "a.example" 3 60000 [5; 6; 7]
       (admitAll "b.example" 3 60000 [0; 1] emptyWorld).2).2
  = Some 2.
Proof.
  unfold storedCount.
  rewrite (other_domains_untouched "a.example" "b.example" 3 60000 [5; 6; 7]
             (admitAll "b.example" 3 60000 [0; 1] emptyWorld).2);
    [by vm_compute | done].
Defined.

(** *** How many admissions a window allows *)

Lemma CountIs_step domain maxRequests windowMs (c until t : Z) w :
  CountIs domain c until w -> t <= until ->
  let '(r, w') := admitAt domain maxRequests windowMs t w in
  allowed r = Some (c + 1 <? maxRequests) /\
  CountIs domain (if c <? maxRequests then c + 1 else c) until w'.
Proof.
  intros Hcount Ht. rewrite admitAt_model. unfold admitModel.
  destruct (Hcount t Ht) as (data & Hact & <-). rewrite Hact.
  assert (Hreset : until <= reset data).
  { destruct (Hcount until ltac:(lia)) as (data' & Hact' & Hc').
    apply activeWindow_stored in Hact as (item & Hitem & Hval & _).
    apply activeWindow_stored in Hact' as (item' & Hitem' & Hval' & Hle).
    congruence. }
  destruct (Z.leb_spec (maxRequests - count data) 0) as [Hfull | Hroom].
  - cbn [allowed Info.limited negb].
    destruct (Z.ltb_spec (count data + 1) maxRequests); [lia |].
    destruct (Z.ltb_spec (count data) maxRequests); [lia |].
    split; [done |]. intros t' Ht'. rewrite activeWindow_clock. eauto.
  - cbn [allowed Info.limited].
    destruct (Z.ltb_spec (count data) maxRequests); [| lia].
    split.
    + f_equal. destruct (Z.leb_spec (maxRequests - (count data + 1)) 0);
        destruct (Z.ltb_spec (count data + 1) maxRequests); done || lia.
    + intros t' Ht'. exists (mkWindow (count data + 1) (reset data)).
      split; [| done]. unfold activeWindow. cbn [store].
      rewrite lookup_insert_eq.
      rewrite itemAt_kept; cbn [reset value itemAt]; [| | lia].
      * destruct (Z.gtb_spec t' (reset data)); [lia | done].
      * pose proof (ceil_div_covers (reset data - t)). lia.
Qed.

Lemma CountIs_answers domain maxRequests windowMs (until : Z)
    (times : list Z) :
  Forall (fun t => t <= until) times ->
  forall (c : Z) w,
    CountIs domain c until w ->
    map allowed (admitAll domain maxRequests windowMs times w).1
    = map (fun j => Some (c + Z.of_nat j + 1 <? maxRequests))
        (seq 0 (length times)).
Proof.
  induction 1 as [|t times Ht _ IH]; intros c w Hcount; [done |].
  cbn [admitAll length seq map].
  pose proof (CountIs_step domain maxRequests windowMs c until t w Hcount Ht)
    as Hstep.
  destruct (admitAt domain maxRequests windowMs t w) as [r w1].
  destruct Hstep as [Hr Hnext]. specialize (IH _ w1 Hnext).
  destruct (admitAll domain maxRequests windowMs times w1) as [rs w2].
  cbn [fst map] in *. rewrite Hr, IH, Z.add_0_r. f_equal.
  rewrite <- seq_shift, map_map. apply map_ext. intros j. f_equal.
  destruct (Z.ltb_spec c maxRequests);
    destruct (Z.ltb_spec (c + Z.of_nat (S j) + 1) maxRequests);
    [destruct (Z.ltb_spec (c + 1 + Z.of_nat j + 1) maxRequests)
    | destruct (Z.ltb_spec (c + 1 + Z.of_nat j + 1) maxRequests)
    | destruct (Z.ltb_spec (c + Z.of_nat j + 1) maxRequests)
    | destruct (Z.ltb_spec (c + Z.of_nat j + 1) maxRequests)];
    done || lia.
Qed.

(** X6. With a limit [maxRequests >= 2], a window admits one request
    less than the limit: of the admissions made from the one that opens
    the window up to the reset time, number [i] (counted from 0) is
    allowed exactly when [i + 1 < maxRequests]; so the first
    [maxRequests - 1] are allowed and all later ones are rejected. *)
Theorem window_admits_one_less domain maxRequests windowMs (t0 : Z)
    (times : list Z) w :
  2 <= maxRequests ->
  activeWindow domain t0 w = None ->
  Forall (fun t => t <= t0 + windowMs) times ->
  map allowed (admitAll domain maxRequests windowMs (t0 :: times) w).1
  = windowAnswers maxRequests (S (length times)).
Proof.
  intros Hmax Hnone Htimes. cbn [admitAll].
  destruct (admitAt domain maxRequests windowMs t0 w) as [r w1] eqn:Hfirst.
  rewrite admitAt_model in Hfirst. unfold admitModel in Hfirst.
  rewrite Hnone in Hfirst. injection Hfirst as <- <-.
  assert (Hcount : CountIs domain 1 (t0 + windowMs)
            (mkWorld
               (<[keyOf domain :=
                    itemAt (mkWindow 1 (t0 + windowMs))
                      (JS.ceil_div windowMs 1000) t0]> (store w))
               t0)).
  { intros t Ht. exists (mkWindow 1 (t0 + windowMs)). split; [| done].
    unfold activeWindow. cbn [store]. rewrite lookup_insert_eq.
    rewrite itemAt_kept; cbn [reset value itemAt]; [| | done].
    - destruct (Z.gtb_spec t (t0 + windowMs)); [lia | done].
    - pose proof (ceil_div_covers windowMs). lia. }
  pose proof (CountIs_answers domain maxRequests windowMs _ times Htimes 1 _ Hcount)
    as Hrest.
  destruct (admitAll domain maxRequests windowMs times _) as [rs w2].
  cbn [fst map] in *. rewrite Hrest. unfold windowAnswers. cbn [seq map allowed Info.limited negb].
  destruct (Z.ltb_spec (Z.of_nat 0 + 1) maxRequests); [| lia]. f_equal.
  rewrite <- seq_shift, map_map. apply map_ext. intros j. do 2 f_equal. lia.
Qed.

Lemma window_admits_one_less_witness :
  map allowed
    (admitAll "example.com" 60 60000 (map Z.of_nat (seq 0 61)) emptyWorld).1
  = (replicate 59 (Some true) ++ [Some false; Some false])%list.
Proof.
  assert (Hmax : 2 <= 60) by lia.
  assert (Hnone : activeWindow "example.com" 0 emptyWorld = None) by done.
  assert (Htimes : Forall (fun t => t <= 0 + 60000) (map Z.of_nat (seq 1 60))).
  { apply Forall_forall. intros t Hin. apply list_elem_of_In, in_map_iff in Hin.
    destruct Hin as (k & <- & Hk). apply in_seq in Hk. lia. }
  pose proof (window_admits_one_less "example.com" 60 60000 0
                (map Z.of_nat (seq 1 60)) emptyWorld Hmax Hnone Htimes) as Hrun.
  exact Hrun.
Defined.

(** X7. [resetRateLimit] deletes the record of the identifier and answers
    [true]; the next admission for that domain then opens a new window,
    whatever was stored before: it is allowed and the stored count is 1.
    When the store rejects the deletion the answer is [false]. *)
Theorem reset_then_fresh_window domain maxRequests windowMs (t : Z)
    (w : MockWorld Window) :
  (exists w1 info w2,
     resetRateLimit domain None w = (Ok true, w1) /\
     store w1 = delete (keyOf domain) (store w) /\
     admitAt domain maxRequests windowMs t w1 = (Ok info, w2) /\
     Info.limited info = false /\ Info.current info = 1 /\
     Info.reset info = t + windowMs /\
     storedCount domain w2 = Some 1) /\
  (forall namespace (down : Outage),
     resetRateLimit domain namespace down = (Ok false, down)).
Proof.
  split; [| done].
  eexists _, _, _. split; [done |]. split; [done |].
  rewrite admitAt_model. unfold admitModel, activeWindow. cbn [store].
  replace ("ratelimit" ++ ":" ++ domain) with (keyOf domain) by done.
  rewrite lookup_delete_eq. split; [done |].
  cbn [Info.limited Info.current Info.reset]. repeat split.
  unfold storedCount. cbn [store]. by rewrite lookup_insert_eq.
Qed.

End RateLimitMoreFacts.

(** ** Request validation *)

Module ValidatorsFacts.
Import JS Validators JSFacts.

Lemma endsWith_spec (s p : string) : endsWith s p = true <-> EndsWith s p.
Proof.
  unfold EndsWith. induction s as [|c s IH]; cbn [endsWith].
  - rewrite orb_false_r, String.eqb_eq. split.
    + intros <-. by exists "".
    + intros ([|a0 a] & Ha); [done | discriminate].
  - rewrite orb_true_iff, String.eqb_eq, IH. split.
    + intros [<- | [a ->]]; [by exists "" | by exists (String c a)].
    + intros ([|a0 a] & Ha); [by left |].
      right. injection Ha as _ ->. by exists a.
Qed.

Lemma arrayIncludes_spec (xs : list string) (x : string) :
  arrayIncludes xs x = true <-> x ∈ xs.
Proof.
  unfold arrayIncludes. rewrite existsb_exists. split.
  - intros (y & Hy & ->%String.eqb_eq). by apply list_elem_of_In.
  - intros Hx. exists x. split; [by apply list_elem_of_In | apply String.eqb_refl].
Qed.

Lemma someEndsWith_spec (domain : string) (xs : list string) :
  existsb (endsWith domain) xs = true
  <-> exists a, a ∈ xs /\ EndsWith domain a.
Proof.
  rewrite existsb_exists. split.
  - intros (a & Ha & He). exists a. split; [by apply list_elem_of_In |].
    by apply endsWith_spec.
  - intros (a & Ha & He). exists a. split; [by apply list_elem_of_In |].
    by apply endsWith_spec.
Qed.

Lemma givenAnd_false (xs : option (list string)) (test : list string -> bool)
    (P : list string -> Prop) :
  (forall l, test l = false <-> P l) ->
  givenAnd xs test = false <-> Restricts xs P.
Proof.
  intros Hspec. destruct xs as [[|x rest]|]; cbn; [done | apply Hspec | done].
Qed.

Section Parser.
Variable parseURL : string -> option ParsedURL.

Lemma validateUrl_valid_iff (url : string) (options : UrlValidationOptions) :
  valid (validateUrl parseURL url options) = true
  <-> exists parsedUrl,
        parseURL url = Some parsedUrl
        /\ Acceptable (mergeUrlOptions options) parsedUrl.
Proof.
  unfold validateUrl, Acceptable.
  set (m := mergeUrlOptions options).
  destruct (parseURL url) as [parsedUrl|]; cbn [valid];
    [| split; [done | by intros (? & ? & _)]].
  set (protocol := dropFirstColon (Validators.protocol parsedUrl)).
  set (domain := hostname parsedUrl).
  pose proof (givenAnd_false (mAllowedProtocols m)
                (fun allowed => negb (arrayIncludes allowed protocol))
                (fun allowed => protocol ∈ allowed)) as Hproto.
  pose proof (givenAnd_false (mAllowedDomains m)
                (fun allowed => negb (existsb (endsWith domain) allowed))
                (fun allowed => exists a, a ∈ allowed /\ EndsWith domain a))
    as Hallow.
  pose proof (givenAnd_false (mBlockedDomains m)
                (fun blocked => existsb (endsWith domain) blocked)
                (fun blocked => forall b, b ∈ blocked -> ~ EndsWith domain b))
    as Hblock.
  assert (Hhttps : default false (mRequireHttps m)
                   && negb (String.eqb protocol "https") = false
                   <-> (mRequireHttps m = Some true -> protocol = "https")).
  { destruct (mRequireHttps m) as [[|]|]; cbn; try (split; done).
    rewrite negb_false_iff, String.eqb_eq. split; auto. }
  destruct Hproto as [Hp1 Hp2].
  { intros l. rewrite negb_false_iff. apply arrayIncludes_spec. }
  destruct Hallow as [Ha1 Ha2].
  { intros l. rewrite negb_false_iff. apply someEndsWith_spec. }
  destruct Hblock as [Hb1 Hb2].
  { intros l. rewrite <- not_true_iff_false, someEndsWith_spec. split.
    - intros Hno b Hb He. apply Hno. eauto.
    - intros Hno (b & Hb & He). by apply (Hno b). }
  destruct Hhttps as [Hh1 Hh2].
  destruct (givenAnd (mAllowedProtocols m) _) eqn:E1; cbn [valid].
  { split; [done |]. intros (p & [= <-] & HP & _). apply Hp2 in HP. congruence. }
  destruct (default false (mRequireHttps m) && _) eqn:E2; cbn [valid].
  { split; [done |]. intros (p & [= <-] & _ & HH & _). apply Hh2 in HH. congruence. }
  destruct (givenAnd (mAllowedDomains m) _) eqn:E3; cbn [valid].
  { split; [done |]. intros (p & [= <-] & _ & _ & HA & _). apply Ha2 in HA. congruence. }
  destruct (givenAnd (mBlockedDomains m) _) eqn:E4; cbn [valid].
  { split; [done |]. intros (p & [= <-] & _ & _ & _ & HB). apply Hb2 in HB. congruence. }
  split; [| done]. intros _. exists parsedUrl. split; [done |]. auto.
Qed.

Lemma validateUrl_reason (url : string) (options : UrlValidationOptions) :
  reason (validateUrl parseURL url options) = None
  <-> valid (validateUrl parseURL url options) = true.
Proof.
  unfold validateUrl. destruct (parseURL url) as [parsedUrl|]; [| done].
  repeat match goal with
         | |- context [if ?b then _ else _] => destruct b
         end; done.
Qed.

(** X8. [validateUrl] accepts a URL exactly when it parses and, where
    the merged options give a non-empty list or the flag, its protocol
    is one of the allowed ones, it uses [https] when that is required,
    its host name ends with one of the allowed domains and with none of
    the blocked ones. A reason is given exactly when the URL is
    rejected. *)
Theorem validateUrl_accepts_iff (url : string) (options : UrlValidationOptions) :
  (valid (validateUrl parseURL url options) = true
   <-> exists parsedUrl,
         parseURL url = Some parsedUrl
         /\ Acceptable (mergeUrlOptions options) parsedUrl) /\
  (reason (validateUrl parseURL url options) = None
   <-> valid (validateUrl parseURL url options) = true).
Proof. split; [apply validateUrl_valid_iff | apply validateUrl_reason]. Qed.

(** X9. Domains are matched as string suffixes, not label by label: with
    [allowedDomains = [d]], every [http] or [https] URL whose host name
    is any string followed by [d] is accepted, and with
    [blockedDomains = [d]] every such URL is rejected as blocked. *)
Theorem domain_suffix_matching (url x d proto : string) :
  parseURL url = Some (mkURL proto (x ++ d)) ->
  dropFirstColon proto ∈ ["http"; "https"] ->
  valid (validateUrl parseURL url
           (mkUrlOptions Missing (Given [d]) Missing Missing)) = true /\
  validateUrl parseURL url (mkUrlOptions Missing Missing (Given [d]) Missing)
  = mkValidation false (Some ("Domain " ++ quoted (x ++ d) ++ " is blocked")).
Proof.
  intros Hparse Hproto. split.
  - apply validateUrl_valid_iff. eexists. split; [done |].
    unfold Acceptable. cbn. repeat split; [done | done |].
    exists d. split; [by left | by exists x].
  - unfold validateUrl, mergeUrlOptions. rewrite Hparse.
    cbn [spread prop givenAnd default from_option id
         DEFAULT_URL_VALIDATION_OPTIONS allowedProtocols allowedDomains
         blockedDomains requireHttps mAllowedProtocols mAllowedDomains
         mBlockedDomains mRequireHttps protocol hostname].
    apply arrayIncludes_spec in Hproto. rewrite Hproto. cbn [negb andb existsb].
    assert (He : endsWith (x ++ d) d = true) by (apply endsWith_spec; by exists x).
    by rewrite He.
Qed.

Lemma validateUrl_default_options (url : string) :
  validateUrl parseURL url DEFAULT_URL_VALIDATION_OPTIONS
  = validateUrl parseURL url noUrlOptions.
Proof. done. Qed.

(** X10. With the default options, [validateScraperRequest] accepts a
    request exactly when [validateUrl] accepts its URL, its type is one
    of [news], [ecommerce], [techdocs], [generic], and its timeout, if
    given, is at most 60000 (a timeout of zero or below is never
    rejected). When the URL is rejected the answer is the one of
    [validateUrl]. *)
Theorem validateScraperRequest_default (request : ScraperRequest) :
  (valid (validateScraperRequest parseURL request noRequestOptions) = true
   <-> valid (validateUrl parseURL (url request) noUrlOptions) = true
       /\ type request ∈ ["news"; "ecommerce"; "techdocs"; "generic"]
       /\ forall t, timeout request = Some t -> t <= 60000) /\
  (valid (validateUrl parseURL (url request) noUrlOptions) = false ->
   validateScraperRequest parseURL request noRequestOptions
   = validateUrl parseURL (url request) noUrlOptions).
Proof.
  unfold validateScraperRequest. cbn [spread prop urlValidationOptions
    maxTimeout allowedScraperTypes DEFAULT_SCRAPER_REQUEST_VALIDATION_OPTIONS
    noRequestOptions default from_option id].
  rewrite validateUrl_default_options.
  destruct (valid (validateUrl parseURL (url request) noUrlOptions)) eqn:Hurl;
    cbn [negb]; [| by rewrite Hurl; split; [split; [| intros [? _]] |]].
  split; [| done]. cbn [givenAnd].
  destruct (arrayIncludes _ (type request)) eqn:Htype; cbn [negb valid].
  - apply arrayIncludes_spec in Htype.
    destruct (timeout request) as [t|]; cbn [truthyNumber default from_option id andb].
    + destruct (Z.eqb_spec t 0) as [-> | Hnz]; cbn [negb andb valid].
      * split; [| done]. intros _. repeat split; [done |]. intros t [= <-]. lia.
      * destruct (Z.gtb_spec t 60000); cbn [valid].
        -- split; [done |]. intros (_ & _ & Ht). specialize (Ht t eq_refl). lia.
        -- split; [| done]. intros _. repeat split; [done |]. intros t' [= <-]. lia.
    + split; [| done]. intros _. repeat split; [done | done].
  - split; [done |]. intros (_ & Hin & _).
    apply arrayIncludes_spec in Hin. congruence.
Qed.

End Parser.

Lemma validateUrl_accepts_iff_witness :
  valid (validateUrl sampleParser "https://docs.example.com/guide" noUrlOptions)
  = true /\
  reason (validateUrl sampleParser "https://docs.example.com/guide" noUrlOptions)
  = None.
Proof.
  destruct (validateUrl_accepts_iff sampleParser
              "https://docs.example.com/guide" noUrlOptions) as [Hvalid Hreason].
  assert (Hok : valid (validateUrl sampleParser
                         "https://docs.example.com/guide" noUrlOptions) = true).
  { apply Hvalid. exists (mkURL "https:" "docs.example.com"). split; [done |].
    unfold Acceptable. cbn. repeat split;
      (done || by apply (bool_decide_unpack _)). }
  split; [exact Hok | by apply Hreason].
Defined.

Lemma domain_suffix_matching_witness :
  valid (validateUrl sampleParser "https://notexample.com/"
           (mkUrlOptions Missing (Given ["example.com"]) Missing Missing))
  = true.
Proof.
  apply (domain_suffix_matching sampleParser "https://notexample.com/"
           "not" "example.com" "https:"); [done |].
  right. by left.
Defined.

Lemma validateScraperRequest_default_witness :
  valid (validateScraperRequest sampleParser
           (mkRequest "https://docs.example.com/guide" "techdocs" (Some 60000))
           noRequestOptions) = true /\
  valid (validateScraperRequest sampleParser
           (mkRequest "https://docs.example.com/guide" "techdocs" (Some 60001))
           noRequestOptions) = false.
Proof.
  split.
  - apply (validateScraperRequest_default sampleParser
             (mkRequest "https://docs.example.com/guide" "techdocs" (Some 60000))).
    split; [done |]. split; [by apply (bool_decide_unpack _) |].
    intros t [= <-]. lia.
  - apply not_true_is_false. intros Hvalid.
    apply (validateScraperRequest_default sampleParser
             (mkRequest "https://docs.example.com/guide" "techdocs" (Some 60001)))
      in Hvalid as (_ & _ & Ht).
    specialize (Ht 60001 eq_refl). lia.
Defined.

End ValidatorsFacts.

(** ** Errors that are not [ScrapingError]s *)

Module ErrorsMoreFacts.
Import JS Errors.

(** X11. Classifying an [Error] that is not a [ScrapingError] only ever
    gives a Timeout (408), Network (503), Browser (500) or Internal (500)
    error, so never a 400, 404 or 429 answer; the new message ends with
    the message of the original error and there are no details.
    Classifying the result once more, as happens when an error passes
    through [withTimeout] and then the handler, changes nothing. *)
Theorem plain_errors_are_server_errors (msg : string) :
  let e := handleError (ThrownError msg) in
  In (kindAndStatus e)
     [(TIMEOUT_ERROR, 408); (NETWORK_ERROR, 503);
      (BROWSER_ERROR, 500); (INTERNAL_ERROR, 500)] /\
  (exists label, message e = label ++ msg) /\
  details e = None /\
  (forall error, handleError (ThrownScrapingError (handleError error))
                 = handleError error).
Proof.
  cbn zeta. unfold handleError at 1 2 3.
  split; [| split; [| split]].
  - destruct (includes msg "timeout" || includes msg "timed out");
      [cbn; tauto |].
    destruct (includes msg "net::" || includes msg "network"); [cbn; tauto |].
    destruct (includes msg "browser" || includes msg "puppeteer"); cbn; tauto.
  - destruct (includes msg "timeout" || includes msg "timed out");
      [by eexists |].
    destruct (includes msg "net::" || includes msg "network"); [by eexists |].
    destruct (includes msg "browser" || includes msg "puppeteer"); by eexists.
  - destruct (includes msg "timeout" || includes msg "timed out"); [done |].
    destruct (includes msg "net::" || includes msg "network"); [done |].
    by destruct (includes msg "browser" || includes msg "puppeteer").
  - done.
Qed.

End ErrorsMoreFacts.

(** ** The code rule *)

Module MarkdownCodeFacts.
Import JS Markdown MarkdownCode JSFacts.

Lemma splitSpaces_nonempty (s : string) : splitSpaces s <> [].
Proof.
  destruct s as [|c s]; [done |]. cbn [splitSpaces].
  destruct (Ascii.eqb c " "); [done |]. by destruct (splitSpaces s).
Qed.

Lemma NoSpace_cons (c : ascii) (s : string) :
  NoSpace (String c s) -> Ascii.eqb c " " = false /\ NoSpace s.
Proof.
  unfold NoSpace. cbn [includes startsWith].
  rewrite (Ascii.eqb_sym " " c).
  by destruct (Ascii.eqb c " ").
Qed.

Lemma splitSpaces_one (s : string) : NoSpace s -> splitSpaces s = [s].
Proof.
  induction s as [|c s IH]; [done |]. intros [Hc Hs]%NoSpace_cons.
  cbn [splitSpaces]. by rewrite Hc, (IH Hs).
Qed.

Lemma splitSpaces_app (s rest : string) :
  NoSpace s -> splitSpaces (s ++ " " ++ rest) = s :: splitSpaces rest.
Proof.
  induction s as [|c s IH]; [done |]. intros [Hc Hs]%NoSpace_cons.
  change (splitSpaces (String c (s ++ " " ++ rest))
          = String c s :: splitSpaces rest).
  cbn [splitSpaces]. by rewrite Hc, (IH Hs).
Qed.

(** [split(' ')] undoes [join(' ')] on class names without spaces. *)
Lemma splitSpaces_join (classes : list string) :
  classes <> [] -> Forall NoSpace classes ->
  splitSpaces (join " " classes) = classes.
Proof.
  intros Hne Hall. induction Hall as [|c classes Hc Hall IH]; [done |].
  destruct classes as [|c' classes].
  - by apply splitSpaces_one.
  - cbn [join]. rewrite (splitSpaces_app _ _ Hc). f_equal. by apply IH.
Qed.

Lemma dropChars_app (p s : string) :
  dropChars (String.length p) (p ++ s) = s.
Proof. induction p as [|c p IH]; [by destruct s | done]. Qed.

Lemma announced (className language : string) :
  Announces className language ->
  startsWith className "language-" || startsWith className "lang-" = true
  /\ stripLanguagePrefix className = language.
Proof.
  unfold stripLanguagePrefix. intros [-> | ->].
  - assert (startsWith ("language-" ++ language) "language-" = true) as ->
      by (apply startsWith_spec; by eexists).
    split; [done |]. apply (dropChars_app "language-").
  - assert (startsWith ("lang-" ++ language) "language-" = false) as -> by done.
    assert (startsWith ("lang-" ++ language) "lang-" = true) as ->
      by (apply startsWith_spec; by eexists).
    split; [done |]. apply (dropChars_app "lang-").
Qed.

Lemma silent (className : string) :
  Silent className ->
  startsWith className "language-" || startsWith className "lang-" = false.
Proof.
  intros Hs. apply not_true_is_false. rewrite orb_true_iff, !startsWith_spec.
  intros [[b ->] | [b ->]]; apply (Hs b); [by left | by right].
Qed.

Lemma findLanguage_first (before after : list string) (className language : string) :
  Forall Silent before -> Announces className language ->
  findLanguage (before ++ className :: after) = language.
Proof.
  intros Hbefore [Hstarts Hstrip]%announced.
  induction Hbefore as [|c before Hc _ IH]; cbn [app findLanguage].
  - by rewrite Hstarts.
  - by rewrite (silent _ Hc).
Qed.

Lemma findLanguage_none (classes : list string) :
  Forall Silent classes -> findLanguage classes = "".
Proof.
  induction 1 as [|c classes Hc _ IH]; [done |].
  cbn [findLanguage]. by rewrite (silent _ Hc).
Qed.

Lemma dropFinalNewline_app (code : string) :
  dropFinalNewline (code ++ nl) = code.
Proof.
  induction code as [|c code IH]; [done |].
  cbn [String.append dropFinalNewline]. rewrite IH.
  by destruct code.
Qed.

(** X12. For a [pre] element, or a [code] element inside a [pre], whose
    class attribute is a space-separated list of class names, the fence
    carries the language of the first class that starts with [language-]
    or [lang-], later classes notwithstanding, and no language when no
    class does; exactly one line feed at the end of the content is
    dropped, so the code stands between the fences as it was. *)
Theorem codeReplacement_fences (element : CodeNode) (classes : list string)
    (code : string) :
  isCodeBlock element = true ->
  classes <> [] ->
  Forall NoSpace classes ->
  className element = join " " classes ->
  (forall before announcing after language,
     classes = (before ++ announcing :: after)%list ->
     Forall Silent before ->
     Announces announcing language ->
     codeReplacement (code ++ nl) element
     = nl ++ "```" ++ language ++ nl ++ code ++ nl ++ "```" ++ nl ++ nl) /\
  (Forall Silent classes ->
     codeReplacement (code ++ nl) element
     = nl ++ "```" ++ nl ++ code ++ nl ++ "```" ++ nl ++ nl).
Proof.
  intros Hblock Hne Hall Hclass.
  unfold codeReplacement. rewrite Hblock, Hclass.
  rewrite (splitSpaces_join _ Hne Hall), dropFinalNewline_app.
  split.
  - intros before announcing after language -> Hbefore Hann.
    by rewrite (findLanguage_first _ _ _ _ Hbefore Hann).
  - intros Hsilent. by rewrite (findLanguage_none _ Hsilent).
Qed.

Ltac silent_class :=
  intros language [Heq | Heq]; discriminate Heq.

Lemma codeReplacement_fences_witness :
  codeReplacement
    ("const x = 1;" ++ nl ++ nl)
    (mkCodeNode "CODE" (Some "PRE") "hljs lang-ts language-js")
  = nl ++ "```ts" ++ nl ++ "const x = 1;" ++ nl ++ nl ++ "```" ++ nl ++ nl /\
  codeReplacement ("ls -l" ++ nl) (mkCodeNode "PRE" None "")
  = nl ++ "```" ++ nl ++ "ls -l" ++ nl ++ "```" ++ nl ++ nl.
Proof.
  split.
  - destruct (codeReplacement_fences
                (mkCodeNode "CODE" (Some "PRE") "hljs lang-ts language-js")
                ["hljs"; "lang-ts"; "language-js"] ("const x = 1;" ++ nl))
      as [Hfirst _]; [done | done | by repeat constructor | done |].
    apply (Hfirst ["hljs"] "lang-ts" ["language-js"] "ts"); [done | |].
    + repeat constructor. silent_class.
    + by right.
  - destruct (codeReplacement_fences (mkCodeNode "PRE" None "") [""] "ls -l")
      as [_ Hnone]; [done | done | by repeat constructor | done |].
    apply Hnone. repeat constructor. silent_class.
Defined.

End MarkdownCodeFacts.

(** ** The news extractors *)

Module NewsFacts.
Import JS Resolver News JSFacts.

Section Page.
Context {E : Type}.
Implicit Types (page : NewsPage E).

(** *** Article text *)

Lemma contentFrom_skip page before rest :
  Forall (fun s => ~ Long (extractText (textPage page) s)) before ->
  contentFrom page (before ++ rest) = contentFrom page rest.
Proof.
  induction 1 as [|s before Hs _ IH]; [done |].
  cbn [app contentFrom].
  destruct (100 <? lengthOf _)%nat eqn:Hlen.
  - apply Nat.ltb_lt in Hlen. by destruct Hs.
  - by rewrite andb_false_r.
Qed.

(** X13. The article text is the text of the first content selector
    whose trimmed text has a [length] of more than 100, counted in
    UTF-16 code units; shorter texts are passed over, and when no
    selector yields that much the result is the text of [body], however
    short. *)
Theorem extractArticleContent_first_long page :
  (forall before selector after,
     articleContentSelectors = (before ++ selector :: after)%list ->
     Forall (fun s => ~ Long (extractText (textPage page) s)) before ->
     Long (extractText (textPage page) selector) ->
     extractArticleContent page = extractText (textPage page) selector) /\
  (Forall (fun s => ~ Long (extractText (textPage page) s))
     articleContentSelectors ->
   extractArticleContent page = extractText (textPage page) "body").
Proof.
  unfold extractArticleContent. split.
  - intros before selector after -> Hbefore Hlong.
    rewrite (contentFrom_skip _ _ _ Hbefore). cbn [contentFrom].
    apply Nat.ltb_lt in Hlong as Hlen. rewrite Hlen.
    destruct (extractText (textPage page) selector); [by inversion Hlong | done].
  - intros Hnone. rewrite <- (app_nil_r articleContentSelectors).
    by rewrite (contentFrom_skip _ _ _ Hnone).
Qed.

(** *** Pictures *)

Lemma usableSources_spec (srcs : list (option string)) (src : string) :
  In src (usableSources srcs) ->
  In (Some src) srcs /\ src <> "" /\ ~ Includes src "data:image".
Proof.
  unfold usableSources. rewrite !filter_In, in_map_iff.
  intros [[(o & Ho & Hin) Htruthy] Hdata].
  apply truthy_spec in Htruthy. apply negb_true_iff, includes_false in Hdata.
  split; [| done].
  destruct o as [s|]; cbn in Ho; subst; [done | by destruct Htruthy].
Qed.

Lemma imagesFrom_spec page selectors urls :
  imagesFrom page selectors = Some urls ->
  (exists selector srcs,
     In selector selectors /\ evalAllSrc page selector = Ok srcs /\
     urls = usableSources srcs /\ urls <> []) \/
  (evalContent page ogImage = Ok (Some (hd "" urls)) /\
   urls = [hd "" urls] /\ hd "" urls <> "").
Proof.
  induction selectors as [|selector rest IH]; cbn [imagesFrom].
  - unfold metaContent. fold ogImage.
    destruct (evalContent page ogImage) as [[c|]|e] eqn:Hc; try done.
    destruct (truthy c) eqn:Htruthy; [| done].
    intros [= <-]. right. cbn [hd]. by apply truthy_spec in Htruthy.
  - destruct (evalAllSrc page selector) as [srcs|e] eqn:Hsrcs.
    + destruct (usableSources srcs) as [|u us] eqn:Hus.
      * intros [(s & l & Hin & ?) | ?]%IH; [left | by right].
        exists s, l. split; [by right | done].
      * intros [= <-]. left. exists selector, srcs.
        split; [by left |]. by rewrite Hus.
    + intros [(s & l & Hin & ?) | ?]%IH; [left | by right].
      exists s, l. split; [by right | done].
Qed.

(** X14. When picture addresses are returned the list is not empty and
    holds no empty address. It is either what one of the picture
    selectors gives, in document order, and then every address is a
    [src] attribute of a matched element and none contains
    ["data:image"]; or it is the single [og:image] address of the
    page, which is not filtered. *)
Theorem extractImageUrls_usable page (urls : list string) :
  extractImageUrls page = Some urls ->
  urls <> [] /\ Forall (fun src => src <> "") urls /\
  ((exists selector srcs,
      In selector imageSelectors /\ evalAllSrc page selector = Ok srcs /\
      urls = usableSources srcs /\
      Forall (fun src => In (Some src) srcs /\ ~ Includes src "data:image")
        urls) \/
   (exists featuredImage,
      evalContent page ogImage = Ok (Some featuredImage) /\
      urls = [featuredImage])).
Proof.
  intros [(selector & srcs & Hin & Hsrcs & -> & Hne)
         | (Hog & Hone & Hne)]%imagesFrom_spec.
  - split; [done |]. split.
    + apply List.Forall_forall. intros src Hsrc.
      by apply usableSources_spec in Hsrc as (_ & ? & _).
    + left. exists selector, srcs. repeat (split; [done |]).
      apply List.Forall_forall. intros src Hsrc.
      by apply usableSources_spec in Hsrc as (? & _ & ?).
  - split; [by rewrite Hone |]. split.
    + rewrite Hone. by repeat constructor.
    + right. by exists (hd "" urls).
Qed.

(** *** Comment counts *)

Lemma NoDigit_cons (c : ascii) (s : string) :
  NoDigit (String c s) -> isDigit c = false /\ NoDigit s.
Proof.
  intros Hno. split.
  - by apply (Hno "" c s).
  - intros a d b ->. by apply (Hno (String c a) d b).
Qed.

Lemma firstDigits_none (s : string) : NoDigit s -> firstDigits s = None.
Proof.
  induction s as [|c s IH]; [done |]. intros [Hc Hs]%NoDigit_cons.
  cbn [firstDigits]. by rewrite Hc, (IH Hs).
Qed.

Lemma takeDigits_run (d post : string) :
  allDigits d = true -> NoLeadingDigit post -> takeDigits (d ++ post) = d.
Proof.
  intros Hd Hpost. induction d as [|c d IH].
  - destruct post as [|p post]; [done |]. cbn [String.append takeDigits].
    by rewrite (Hpost p post eq_refl).
  - cbn [allDigits] in Hd. apply andb_true_iff in Hd as [Hc Hd].
    change (takeDigits (String c (d ++ post)) = String c d).
    cbn [takeDigits]. by rewrite Hc, (IH Hd).
Qed.

Lemma firstDigits_run (pre d post : string) :
  NoDigit pre -> allDigits d = true -> d <> "" -> NoLeadingDigit post ->
  firstDigits (pre ++ d ++ post) = Some d.
Proof.
  intros Hpre Hd Hne Hpost. induction pre as [|a pre IH].
  - destruct d as [|c d]; [done |].
    cbn [allDigits] in Hd. apply andb_true_iff in Hd as [Hc Hd].
    change (firstDigits (String c (d ++ post)) = Some (String c d)).
    cbn [firstDigits]. by rewrite Hc, (takeDigits_run _ _ Hd Hpost).
  - apply NoDigit_cons in Hpre as [Ha Hpre].
    change (firstDigits (String a (pre ++ d ++ post)) = Some d).
    cbn [firstDigits]. by rewrite Ha, (IH Hpre).
Qed.

Lemma pretty_N_char_digit (x : N) :
  (x < 10)%N ->
  isDigit (pretty_N_char x) = true /\
  (N_of_ascii (pretty_N_char x) - 48 = x)%N.
Proof.
  intros Hx.
  assert (x = 0 \/ x = 1 \/ x = 2 \/ x = 3 \/ x = 4 \/ x = 5 \/ x = 6
          \/ x = 7 \/ x = 8 \/ x = 9)%N as Hcases by lia.
  by repeat (destruct Hcases as [-> | Hcases]; [done |]); subst.
Qed.

Lemma pretty_N_go_digits (x : N) (s : string) :
  allDigits s = true -> allDigits (pretty_N_go x s) = true.
Proof.
  revert s. induction (N.lt_wf_0 x) as [x _ IH]; intros s Hs.
  destruct (decide (x = 0)%N) as [-> | Hx]; [done |].
  rewrite pretty_N_go_step by lia. apply IH; [apply N.div_lt; lia |].
  cbn [allDigits]. rewrite Hs.
  by destruct (pretty_N_char_digit (x mod 10)%N) as [-> _];
    [apply N.mod_lt |].
Qed.

Lemma pretty_N_go_nonempty (x : N) (s : string) :
  s <> "" -> pretty_N_go x s <> "".
Proof.
  revert s. induction (N.lt_wf_0 x) as [x _ IH]; intros s Hs.
  destruct (decide (x = 0)%N) as [-> | Hx]; [done |].
  rewrite pretty_N_go_step by lia. by apply IH; [apply N.div_lt; lia |].
Qed.

Lemma parseDigits_pretty_N_go (x : N) (s : string) :
  parseDigits 0 (pretty_N_go x s) = parseDigits x s.
Proof.
  revert s. induction (N.lt_wf_0 x) as [x _ IH]; intros s.
  destruct (decide (x = 0)%N) as [-> | Hx]; [done |].
  rewrite pretty_N_go_step by lia. rewrite IH by (apply N.div_lt; lia).
  cbn [parseDigits].
  destruct (pretty_N_char_digit (x mod 10)%N) as [_ ->]; [by apply N.mod_lt |].
  f_equal. pose proof (N.div_mod' x 10). lia.
Qed.

(** The decimal numeral of [n] is a non-empty run of digits, and
    reading it gives [n] back. *)
Lemma numeral (n : N) :
  allDigits (pretty n) = true /\ pretty n <> "" /\
  parseDigits 0 (pretty n) = n.
Proof.
  unfold pretty, pretty_N. destruct (decide (n = 0)%N) as [-> | Hn]; [done |].
  split; [by apply pretty_N_go_digits |]. split.
  - rewrite pretty_N_go_step by lia. by apply pretty_N_go_nonempty.
  - apply parseDigits_pretty_N_go.
Qed.

Lemma countFrom_skip page before rest :
  Forall (fun s => NoDigit (extractText (textPage page) s)) before ->
  countFrom page (before ++ rest) = countFrom page rest.
Proof.
  induction 1 as [|s before Hs _ IH]; [done |].
  cbn [app countFrom]. rewrite (firstDigits_none _ Hs).
  by destruct (truthy _).
Qed.

(** X15. The comment count is read from the first counter text that
    contains a digit: the first run of digits of that text is taken and
    gives back the number it is the decimal numeral of, whatever
    surrounds it. Counter texts without digits are passed over, and when
    no text has a digit the number of comment elements is the count if
    it is positive; otherwise there is none. *)
Theorem extractCommentCount_reads_numeral page :
  (forall before selector after (pre post : string) (n : N),
     commentCountSelectors = (before ++ selector :: after)%list ->
     Forall (fun s => NoDigit (extractText (textPage page) s)) before ->
     extractText (textPage page) selector = pre ++ pretty n ++ post ->
     NoDigit pre -> NoLeadingDigit post ->
     (n <= 9007199254740991)%N ->
     extractCommentCount page = Some (Z.of_N n)) /\
  (Forall (fun s => NoDigit (extractText (textPage page) s))
     commentCountSelectors ->
   forall c, extractCommentCount page = Some c <->
             evalCount page ".comment, .comments > li" = Ok c /\ 0 < c).
Proof.
  unfold extractCommentCount. split.
  - intros before selector after pre post n -> Hbefore Htext Hpre Hpost _.
    rewrite (countFrom_skip _ _ _ Hbefore). cbn [countFrom].
    destruct (numeral n) as (Hd & Hne & Hparse).
    rewrite Htext, (firstDigits_run _ _ _ Hpre Hd Hne Hpost), Hparse.
    assert (truthy (pre ++ pretty n ++ post) = true) as ->; [| done].
    apply truthy_spec. destruct pre; [| done].
    destruct (pretty n); [done | done].
  - intros Hnone c. rewrite <- (app_nil_r commentCountSelectors).
    rewrite (countFrom_skip _ _ _ Hnone). cbn [countFrom].
    destruct (evalCount page _) as [k|e]; [| split; [done | by intros [? _]]].
    destruct (k >? 0) eqn:Hk; split.
    + intros [= <-]. split; [done | lia].
    + by intros [[= <-] _].
    + done.
    + intros [[= <-] Hpos]. lia.
Qed.

End Page.

Section Samples.
Import NewsSamples.

Ltac short_text := intros Hlong; vm_compute in Hlong; lia.

Lemma extractArticleContent_first_long_witness :
  extractArticleContent storyPage = story /\
  extractArticleContent plainPage = "Short note.".
Proof.
  split.
  - destruct (extractArticleContent_first_long storyPage) as [Hfirst _].
    apply (Hfirst ["article"] ".article-content"
             [".post-content"; ".entry-content";
              "[itemprop=" ++ dq ++ "articleBody" ++ dq ++ "]";
              "main"; ".content"]); [done | |].
    + repeat constructor. short_text.
    + vm_compute. lia.
  - destruct (extractArticleContent_first_long plainPage) as [_ Hbody].
    apply Hbody. unfold articleContentSelectors.
    repeat constructor; short_text.
Defined.

Lemma extractImageUrls_usable_witness :
  extractImageUrls storyPage
  = Some ["/img/tram.jpg"; "https://cdn.example.com/harbour.png"] /\
  ["/img/tram.jpg"; "https://cdn.example.com/harbour.png"] <> [] /\
  Forall (fun src => src <> "")
    ["/img/tram.jpg"; "https://cdn.example.com/harbour.png"].
Proof.
  split; [done |].
  destruct (extractImageUrls_usable storyPage
              ["/img/tram.jpg"; "https://cdn.example.com/harbour.png"]
              eq_refl) as (Hne & Hall & _).
  by split.
Defined.

Ltac no_digit :=
  let a := fresh "a" in
  let Heq := fresh "Heq" in
  intros a ? ? Heq;
  repeat (destruct a as [|? a]; [by injection Heq as <- |
                                 try discriminate Heq; injection Heq as _ Heq]);
  by destruct a.

Lemma extractCommentCount_reads_numeral_witness :
  extractCommentCount storyPage = Some 128 /\
  extractCommentCount plainPage = Some 3.
Proof.
  split.
  - destruct (extractCommentCount_reads_numeral storyPage) as [Hread _].
    apply (Hread [".comment-count"] ".comments-count" [".comment-number"]
             "Read " " of 4096 comments" 128%N); [done | | done | | | lia].
    + repeat constructor. change (NoDigit "Comments"). no_digit.
    + no_digit.
    + intros c b [= <- _]. done.
  - destruct (extractCommentCount_reads_numeral plainPage) as [_ Hcount].
    apply Hcount; [| by split].
    unfold commentCountSelectors. repeat constructor; intros [|] ? ? ?; done.
Defined.

End Samples.

End NewsFacts.

(** ** The limiter of the scrape route *)

Module IpLimitFacts.
Import KV IpLimit.

Lemma Counted_step req (c t0 t : Z) w :
  Counted req c t0 w -> t0 <= t <= t0 + 3600000 ->
  exists w',
    askAt req t w = (Ok (c <? 100), w') /\
    Counted req (if c <? 100 then c + 1 else c) t0 w'.
Proof.
  intros (e & Hitem & He) Ht.
  unfold askAt, checkRateLimit, bind, Date_now, ret.
  cbn [kv_get kv_set now MockKV set_clock clock].
  unfold mock_get, set_clock. cbn [store clock]. rewrite Hitem.
  unfold expired. cbn [expiry value].
  destruct (Z.ltb_spec e t) as [? | _]; [lia |]. rewrite andb_false_r.
  cbn [timestamp count].
  assert (t / 1000 <= t0 / 1000 + 3600).
  { rewrite <- (Z.div_add t0 3600 1000) by lia.
    apply Z.div_le_mono; lia. }
  unfold RATE_LIMIT_WINDOW, RATE_LIMIT.
  destruct (Z.gtb_spec (t / 1000 - t0 / 1000) (60 * 60)) as [? | _]; [lia |].
  rewrite Z.geb_leb.
  destruct (Z.leb_spec 100 c); destruct (Z.ltb_spec c 100); try lia.
  - eexists. split; [done |]. exists e. by cbn [store].
  - unfold mock_set. cbn [store clock]. eexists. split; [done |].
    exists (t + 3600 * 1000). cbn [store].
    rewrite lookup_insert_eq. split; [done | lia].
Qed.

Lemma Counted_answers req (t0 : Z) (times : list Z) :
  Forall (fun t => t0 <= t <= t0 + 3600000) times ->
  forall (c : Z) w,
    Counted req c t0 w -> c <= 100 ->
    (askAll req times w).1
    = map (fun j => Ok (c + Z.of_nat j <? 100)) (seq 0 (length times)) /\
    storedCount req (askAll req times w).2
    = Some (Z.min (c + Z.of_nat (length times)) 100).
Proof.
  induction 1 as [|t times Ht _ IH]; intros c w Hcount Hc.
  - cbn [askAll fst snd length seq map]. unfold storedCount.
    destruct Hcount as (e & -> & _). cbn [value fmap option_fmap option_map count].
    split; [done |]. f_equal. lia.
  - cbn [askAll length seq map].
    destruct (Counted_step req c t0 t w Hcount Ht) as (w1 & -> & Hnext).
    assert (Hle : (if c <? 100 then c + 1 else c) <= 100)
      by (destruct (Z.ltb_spec c 100); lia).
    destruct (IH _ w1 Hnext Hle) as [Hrs Hstored].
    destruct (askAll req times w1) as [rs w2].
    cbn [fst snd] in *. rewrite Hrs, Hstored, Z.add_0_r. split.
    + f_equal. rewrite <- seq_shift, map_map. apply map_ext. intros j.
      f_equal. destruct (Z.ltb_spec c 100).
      * f_equal. lia.
      * destruct (Z.ltb_spec (c + Z.of_nat j) 100);
          destruct (Z.ltb_spec (c + Z.of_nat (S j)) 100); done || lia.
    + f_equal. destruct (Z.ltb_spec c 100); lia.
Qed.

(** X16. The limiter of the scrape route admits exactly [RATE_LIMIT]
    requests of one client per hour: of the requests made from the one
    that opens the window up to an hour later, number [i] (counted from
    0) is allowed exactly when [i < 100], and the stored count never
    exceeds 100, because a rejected request writes nothing. *)
Theorem route_window_admits_limit req (t0 : Z) (times : list Z) w :
  store w !! rateLimitKey req = None ->
  Forall (fun t => t0 <= t <= t0 + 3600000) times ->
  (askAll req (t0 :: times) w).1
  = map (fun i => Ok (Z.of_nat i <? RATE_LIMIT)) (seq 0 (S (length times))) /\
  storedCount req (askAll req (t0 :: times) w).2
  = Some (Z.min (Z.of_nat (S (length times))) RATE_LIMIT).
Proof.
  intros Hnone Htimes. cbn [askAll].
  assert (Hfirst : askAt req t0 w
            = (Ok true,
               mkWorld
                 (<[rateLimitKey req :=
                      mkItem (Some (mkStamp 1 (t0 / 1000)))
                        (Some (t0 + 3600 * 1000))]> (store w))
                 t0)).
  { unfold askAt, checkRateLimit, bind, Date_now, ret.
    cbn [kv_get kv_set now MockKV set_clock clock].
    unfold mock_get, set_clock. cbn [store clock]. by rewrite Hnone. }
  rewrite Hfirst.
  destruct (Counted_answers req t0 times Htimes 1
              (mkWorld
                 (<[rateLimitKey req :=
                      mkItem (Some (mkStamp 1 (t0 / 1000)))
                        (Some (t0 + 3600 * 1000))]> (store w))
                 t0)) as [Hrs Hstored]; [| lia |].
  { eexists. cbn [store]. rewrite lookup_insert_eq. split; [done | lia]. }
  destruct (askAll req times _) as [rs w2].
  cbn [fst snd seq map] in *. rewrite Hrs, Hstored. unfold RATE_LIMIT. split.
  - f_equal. rewrite <- seq_shift, map_map. apply map_ext. intros j.
    do 2 f_equal. lia.
  - f_equal. lia.
Qed.

Lemma route_window_admits_limit_witness :
  (askAll (mkReq (Single "203.0.113.7") None)
     (1000 :: repeat 5000 101) (mkWorld ∅ 0)).1
  = (repeat (Ok true) 100 ++ [Ok false; Ok false])%list /\
  storedCount (mkReq (Single "203.0.113.7") None)
    (askAll (mkReq (Single "203.0.113.7") None)
       (1000 :: repeat 5000 101) (mkWorld ∅ 0)).2
  = Some 100.
Proof.
  apply (route_window_admits_limit (mkReq (Single "203.0.113.7") None)
           1000 (repeat 5000 101) (mkWorld ∅ 0)).
  - done.
  - apply List.Forall_forall. intros t ->%repeat_spec. lia.
Defined.

End IpLimitFacts.

(** ** The proxy pool *)

Module ProxiesFacts.
Import KV Typed Proxies.
Local Open Scope js_scope.

Abbreviation getProxy' := (getProxy (pool := StoreA) (index := StoreB)).
Abbreviation addProxy' := (addProxy (pool := StoreA)).
Abbreviation removeProxy' := (removeProxy (pool := StoreA)).
Abbreviation listProxies' := (listProxies (pool := StoreA)).

Ltac run_store :=
  cbn [kv_get kv_set kv_del StoreA StoreB];
  unfold try_catch, bind, ret, onA, onB, mock_get, mock_set, expired;
  cbn [store clock storeA storeB clock2 expiry value Z.eqb].

Lemma read_pool (proxies : list Proxy) (i : Z) (w : PoolWorld) :
  Holds proxies i w ->
  kv_get (Store := StoreA) "proxies" w = (Ok (Some proxies), w).
Proof.
  intros [Hpool _]. cbn [kv_get StoreA]. run_store. rewrite Hpool.
  cbn [expiry value]. by destruct w.
Qed.

Lemma read_index (proxies : list Proxy) (i : Z) (w : PoolWorld) :
  Holds proxies i w ->
  exists stored,
    kv_get (Store := StoreB) "proxy_index" w = (Ok stored, w) /\
    match stored with
    | Some n => if n =? 0 then 0 else n
    | None => 0
    end = i.
Proof.
  intros [_ [Hindex | [-> Hindex]]]; cbn [kv_get StoreB]; run_store;
    rewrite Hindex; cbn [expiry value].
  - exists (Some i). split; [by destruct w |].
    by destruct (Z.eqb_spec i 0).
  - exists None. split; [by destruct w | done].
Qed.

Lemma getProxy_step (proxies : list Proxy) (i : Z) (w : PoolWorld) :
  Holds proxies i w -> proxies <> [] -> 0 <= i ->
  exists w',
    getProxy' w = (Ok (proxies !! Z.to_nat i), w') /\
    Holds proxies (Z.rem (i + 1) (Z.of_nat (length proxies))) w'.
Proof.
  intros Hw Hne Hi. unfold getProxy, try_catch, bind.
  rewrite (read_pool _ _ _ Hw).
  destruct (Z.eqb_spec (Z.of_nat (length proxies)) 0) as [Hlen | _];
    [by destruct proxies |].
  destruct (read_index _ _ _ Hw) as (stored & -> & ->).
  unfold at_index. destruct (Z.ltb_spec i 0); [lia |].
  run_store. eexists. split; [done |].
  destruct Hw as [Hpool _]. split; cbn [storeA storeB store clock Z.eqb]; [done |].
  left. by rewrite lookup_insert_eq.
Qed.

Lemma rotation_next (proxies : list Proxy) (i : Z) (j : nat) :
  proxies <> [] -> 0 <= i ->
  rotation proxies (Z.rem (i + 1) (Z.of_nat (length proxies))) j
  = rotation proxies i (S j).
Proof.
  intros Hne Hi. unfold rotation.
  assert (0 < Z.of_nat (length proxies)) by (destruct proxies; [done | cbn; lia]).
  rewrite Z.rem_mod_nonneg by lia.
  rewrite Z.add_mod_idemp_l by lia. do 3 f_equal. lia.
Qed.

Lemma getProxy_rotation (proxies : list Proxy) (k : nat) :
  proxies <> [] ->
  forall (i : Z) (w : PoolWorld),
    Holds proxies i w -> 0 <= i < Z.of_nat (length proxies) ->
    (Cache.times k getProxy' w).1 = Ok (map (rotation proxies i) (seq 0 k)).
Proof.
  intros Hne. induction k as [|k IH]; intros i w Hw Hi; [done |].
  cbn [Cache.times]. unfold bind at 1.
  destruct (getProxy_step _ _ _ Hw Hne ltac:(lia)) as (w' & -> & Hnext).
  assert (Hrange : 0 <= Z.rem (i + 1) (Z.of_nat (length proxies))
                   < Z.of_nat (length proxies)).
  { rewrite Z.rem_mod_nonneg by lia. apply Z.mod_pos_bound. lia. }
  specialize (IH _ w' Hnext Hrange). unfold bind.
  destruct (Cache.times k getProxy' w') as [[rest|e] w'']; [| done].
  cbn [fst] in *. injection IH as ->. cbn [ret fst seq map]. do 2 f_equal.
  - unfold rotation. rewrite Z.add_0_r, Z.mod_small by lia. done.
  - rewrite <- seq_shift, map_map. apply map_ext. intros j.
    by apply rotation_next; [| lia].
Qed.

(** X17. With a pool of [n >= 1] proxies and a stored index [i >= 0],
    both stored without expiry as this module stores them, the first
    [getProxy] of a run returns the proxy at position [i],
    which is none when [i] lies beyond the end of the pool, and call
    number [j >= 1] returns the proxy at position [(i + j) mod n]. So
    when [i < n] the proxies are handed out in rotation from position
    [i]: every call returns a proxy, and each proxy comes round again
    after [n] calls. *)
Theorem getProxy_round_robin (proxies : list Proxy) (i : Z) (k : nat)
    (w : PoolWorld) :
  proxies <> [] ->
  Holds proxies i w -> 0 <= i ->
  (Cache.times (S k) getProxy' w).1
  = Ok (proxies !! Z.to_nat i :: map (rotation proxies i) (seq 1 k)) /\
  (i < Z.of_nat (length proxies) ->
   (Cache.times k getProxy' w).1 = Ok (map (rotation proxies i) (seq 0 k))) /\
  (forall j, is_Some (rotation proxies i j)) /\
  (forall j, rotation proxies i (j + length proxies) = rotation proxies i j).
Proof.
  intros Hne Hw Hi.
  assert (0 < Z.of_nat (length proxies))
    by (destruct proxies; [done | cbn; lia]).
  split; [| split; [by intros ?; apply getProxy_rotation |]].
  { cbn [Cache.times]. unfold bind at 1.
    destruct (getProxy_step _ _ _ Hw Hne Hi) as (w' & -> & Hnext).
    assert (Hrange : 0 <= Z.rem (i + 1) (Z.of_nat (length proxies))
                     < Z.of_nat (length proxies)).
    { rewrite Z.rem_mod_nonneg by lia. apply Z.mod_pos_bound. lia. }
    pose proof (getProxy_rotation proxies k Hne _ w' Hnext Hrange) as Hrest.
    unfold bind.
    destruct (Cache.times k getProxy' w') as [[rest|e] w'']; [| done].
    cbn [fst] in *. injection Hrest as ->. cbn [ret fst]. do 2 f_equal.
    rewrite <- seq_shift, map_map. apply map_ext. intros j.
    by apply rotation_next. }
  split; intros j; unfold rotation.
  - apply lookup_lt_is_Some.
    pose proof (Z.mod_pos_bound (i + Z.of_nat j) (Z.of_nat (length proxies))).
    lia.
  - do 2 f_equal. rewrite Nat2Z.inj_add, Z.add_assoc.
    rewrite <- (Z.mul_1_l (Z.of_nat (length proxies))) at 1.
    by rewrite Z.mod_add by lia.
Qed.

Lemma getProxy_round_robin_witness :
  (Cache.times 5 getProxy' samplePool).1
  = Ok [ Some (mkProxy "10.0.0.1" 8080 None None);
         Some (mkProxy "10.0.0.2" 8080 (Some "user") (Some "secret"));
         Some (mkProxy "10.0.0.2" 3128 None None);
         Some (mkProxy "10.0.0.1" 8080 None None);
         Some (mkProxy "10.0.0.2" 8080 (Some "user") (Some "secret")) ] /\
  (Cache.times 4 getProxy'
     (mkTwo {[ "proxies" := mkItem (Some sampleProxies) None ]}
        {[ "proxy_index" := mkItem (Some 5) None ]} 0)).1
  = Ok [ None;
         Some (mkProxy "10.0.0.1" 8080 None None);
         Some (mkProxy "10.0.0.2" 8080 (Some "user") (Some "secret"));
         Some (mkProxy "10.0.0.2" 3128 None None) ].
Proof.
  split.
  - destruct (getProxy_round_robin sampleProxies 0 5 samplePool)
      as (_ & Hrun & _).
    + done.
    + split; [done | by right].
    + lia.
    + apply Hrun. cbn. lia.
  - destruct (getProxy_round_robin sampleProxies 5 3
                (mkTwo {[ "proxies" := mkItem (Some sampleProxies) None ]}
                   {[ "proxy_index" := mkItem (Some 5) None ]} 0))
      as (Hstale & _).
    + done.
    + split; [done | by left].
    + lia.
    + exact Hstale.
Defined.

Lemma removeProxy_holds (proxies : list Proxy) (i : Z) (h : string) (p : Z)
    (w : PoolWorld) :
  Holds proxies i w ->
  exists w',
    removeProxy' h p w = (Ok tt, w') /\
    Holds (List.filter (differs h p) proxies) i w'.
Proof.
  intros Hw. unfold removeProxy, try_catch, bind.
  rewrite (read_pool _ _ _ Hw). run_store. eexists. split; [done |].
  destruct Hw as [_ Hindex]. split; cbn [storeA storeB store clock Z.eqb]; [| done].
  by rewrite lookup_insert_eq.
Qed.

Lemma addProxy_holds (proxies : list Proxy) (i : Z) (proxy : Proxy)
    (w : PoolWorld) :
  Holds proxies i w ->
  exists w',
    addProxy' proxy w = (Ok tt, w') /\
    Holds (proxies ++ [proxy]) i w'.
Proof.
  intros Hw. unfold addProxy, try_catch, bind.
  rewrite (read_pool _ _ _ Hw). run_store. eexists. split; [done |].
  destruct Hw as [_ Hindex]. split; cbn [storeA storeB store clock Z.eqb]; [| done].
  by rewrite lookup_insert_eq.
Qed.

Lemma listProxies_holds (proxies : list Proxy) (i : Z) (w : PoolWorld) :
  Holds proxies i w -> listProxies' w = (Ok proxies, w).
Proof.
  intros Hw. unfold listProxies, try_catch, bind.
  by rewrite (read_pool _ _ _ Hw).
Qed.

(** X18. Removing proxies does not touch the stored index. When the
    index left behind lies beyond the end of the shortened, still
    non-empty pool, the next [getProxy] returns no proxy although
    proxies are available; that call brings the index back into range,
    and the call after it returns a proxy again. *)
Theorem stale_index_after_removal (proxies : list Proxy) (i : Z)
    (h : string) (p : Z) (w : PoolWorld) :
  Holds proxies i w ->
  let remaining := List.filter (differs h p) proxies in
  remaining <> [] ->
  Z.of_nat (length remaining) <= i ->
  exists chosen,
    ((removeProxy' h p ;;;
      first <- getProxy' ;; second <- getProxy' ;; ret (first, second)) w).1
    = Ok (None, Some chosen) /\
    In chosen remaining.
Proof.
  intros Hw remaining Hne Hi.
  destruct (removeProxy_holds _ _ h p _ Hw) as (w1 & Hrem & Hw1).
  fold remaining in Hw1.
  destruct (getProxy_step _ _ _ Hw1 Hne ltac:(lia)) as (w2 & Hget1 & Hw2).
  assert (Hlen : 0 < Z.of_nat (length remaining))
    by (destruct remaining; [done | cbn; lia]).
  assert (Hrange : 0 <= Z.rem (i + 1) (Z.of_nat (length remaining))
                   < Z.of_nat (length remaining)).
  { rewrite Z.rem_mod_nonneg by lia. apply Z.mod_pos_bound. lia. }
  destruct (getProxy_step _ _ _ Hw2 Hne ltac:(lia)) as (w3 & Hget2 & _).
  assert (Hout : remaining !! Z.to_nat i = None)
    by (apply lookup_ge_None; lia).
  destruct (lookup_lt_is_Some_2 remaining
              (Z.to_nat (Z.rem (i + 1) (Z.of_nat (length remaining))))
              ltac:(lia)) as [chosen Hchosen].
  exists chosen. split.
  - unfold bind. rewrite Hrem, Hget1, Hget2, Hout, Hchosen. done.
  - apply list_elem_of_In. by eapply list_elem_of_lookup_2.
Qed.

Lemma stale_index_after_removal_witness :
  exists chosen,
    ((removeProxy' "10.0.0.2" 3128 ;;;
      first <- getProxy' ;; second <- getProxy' ;; ret (first, second))
       (mkTwo {[ "proxies" := mkItem (Some sampleProxies) None ]}
          {[ "proxy_index" := mkItem (Some 2) None ]} 0)).1
    = Ok (None, Some chosen) /\
    In chosen (List.filter (differs "10.0.0.2" 3128) sampleProxies).
Proof.
  apply (stale_index_after_removal sampleProxies 2 "10.0.0.2" 3128).
  - split; [done | by left].
  - done.
  - cbn. lia.
Defined.

(** X19. [addProxy] puts the proxy at the end of the pool, [removeProxy]
    drops exactly the entries whose host and port both match and keeps
    the others in order, and [listProxies] then shows the result; on a
    store without a pool [addProxy] starts one and [getProxy] and
    [listProxies] give nothing. When the store is down none of the four
    rejects: [getProxy] gives [null], [listProxies] the empty list. *)
Theorem pool_edits (proxy : Proxy) (h : string) (p : Z) :
  (forall proxies i (w : PoolWorld),
     Holds proxies i w ->
     ((addProxy' proxy ;;; listProxies') w).1
     = Ok (proxies ++ [proxy])%list /\
     ((removeProxy' h p ;;; listProxies') w).1
     = Ok (List.filter (differs h p) proxies)) /\
  (forall proxies (entry : Proxy),
     In entry (List.filter (differs h p) proxies) <->
     In entry proxies /\ (host entry <> h \/ port entry <> p)) /\
  (forall (w : PoolWorld),
     storeA w !! "proxies" = None ->
     getProxy' w = (Ok None, w) /\
     listProxies' w = (Ok [], w) /\
     ((addProxy' proxy ;;; listProxies') w).1 = Ok [proxy]) /\
  (forall (w : Outage),
     getProxy w = (Ok None, w) /\ listProxies w = (Ok [], w) /\
     addProxy proxy w = (Ok tt, w) /\ removeProxy h p w = (Ok tt, w)).
Proof.
  split; [| split; [| split]].
  - intros proxies i w Hw. split.
    + destruct (addProxy_holds _ _ proxy _ Hw) as (w1 & Hadd & Hw1).
      unfold bind at 1. rewrite Hadd.
      by rewrite (listProxies_holds _ _ _ Hw1).
    + destruct (removeProxy_holds _ _ h p _ Hw) as (w1 & Hrem & Hw1).
      unfold bind at 1. rewrite Hrem.
      by rewrite (listProxies_holds _ _ _ Hw1).
  - intros proxies entry. rewrite filter_In. unfold differs.
    rewrite orb_true_iff, !negb_true_iff, String.eqb_neq, Z.eqb_neq. done.
  - intros w Hnone.
    assert (Hread : kv_get (Store := StoreA) "proxies" w = (Ok None, w)).
    { cbn [kv_get StoreA]. run_store. rewrite Hnone. by destruct w. }
    split; [| split].
    + unfold getProxy, try_catch, bind. by rewrite Hread.
    + unfold listProxies, try_catch, bind. by rewrite Hread.
    + unfold addProxy, listProxies, try_catch, bind. rewrite Hread.
      run_store. by rewrite lookup_insert_eq.
  - done.
Qed.

Lemma pool_edits_witness :
  ((addProxy' (mkProxy "10.0.0.3" 8080 None None) ;;; listProxies')
     samplePool).1
  = Ok (sampleProxies ++ [mkProxy "10.0.0.3" 8080 None None])%list /\
  ((removeProxy' "10.0.0.2" 8080 ;;; listProxies') samplePool).1
  = Ok [ mkProxy "10.0.0.1" 8080 None None;
         mkProxy "10.0.0.2" 3128 None None ].
Proof.
  destruct (pool_edits (mkProxy "10.0.0.3" 8080 None None) "10.0.0.2" 8080)
    as (Hedits & _).
  destruct (Hedits sampleProxies 0 samplePool) as [Hadd Hremove].
  - split; [done | by right].
  - split; [exact Hadd | exact Hremove].
Defined.

End ProxiesFacts.

(** ** Cached scrapes *)

Module CacheMoreFacts.
Import KV Cache Counter CounterFacts KeyFacts.
Local Open Scope js_scope.

Section Hits.
Context {T V : Type}.
Variable stringify : V -> string.
Variable DEFAULT_CACHE_TTL : Z.
Implicit Types (w : MockWorld T) (params : @ScrapeParams V).

Abbreviation cachedScrape' := (cachedScrape DEFAULT_CACHE_TTL stringify).

(** X20. After a scrape that missed the cache and produced a value, a
    later scrape of the same URL in the same namespace, with the same
    parameters in any order, is answered with that value for as long as
    the entry is alive: its scrape function is not run and nothing
    changes. Once the time to live is over the entry is dropped and the
    later call computes and stores afresh. *)
Theorem cachedScrape_served_until_expiry (url : string)
    (scrapeFunction scrapeFunction'
       : string -> ScrapeParams -> M (MockWorld T) (option T))
    params params' (options options' : CacheOptions) (v : T) (t' : Z)
    w w0 w1 :
  let key :=
    generateCacheKey stringify url params
      (default "scrape" (namespace options)) in
  let ttl := default DEFAULT_CACHE_TTL (Cache.ttl options) in
  NoDup (map fst params) ->
  params ≡ₚ params' ->
  namespace options' = namespace options ->
  getCachedValue key w = (Ok None, w0) ->
  scrapeFunction url params w0 = (Ok (Some v), w1) ->
  exists w2,
    cachedScrape' url scrapeFunction params options w = (Ok (Some v), w2) /\
    (aliveAt (clock w1) ttl t' ->
       cachedScrape' url scrapeFunction' params' options' (set_clock t' w2)
       = (Ok (Some v), set_clock t' w2)) /\
    (~ aliveAt (clock w1) ttl t' ->
       cachedScrape' url scrapeFunction' params' options' (set_clock t' w2)
       = computeAndStore DEFAULT_CACHE_TTL key (scrapeFunction' url params')
           (mkOptions
              (Some (default DEFAULT_CACHE_TTL (Cache.ttl options'))) None)
           (mkWorld (delete key (store w2)) t')).
Proof.
  intros key ttl Hnodup Hperm Hns Hmiss Hfac.
  unfold cachedScrape. rewrite Hns.
  rewrite <- (generateCacheKey_perm stringify url params params' _ Hnodup Hperm).
  fold key. unfold getOrSetCachedValue at 1. unfold bind at 1.
  rewrite Hmiss. unfold bind at 1. rewrite Hfac.
  unfold setCachedValue, try_catch, bind, ret. cbn [kv_set MockKV Cache.ttl].
  unfold mock_set. fold ttl.
  change (default DEFAULT_CACHE_TTL (Some ttl)) with ttl.
  eexists. split; [done |].
  unfold getOrSetCachedValue, getCachedValue, try_catch, bind.
  cbn [kv_get MockKV]. unfold mock_get, aliveAt.
  cbn [set_clock store clock]. rewrite lookup_insert_eq, expired_deadline.
  destruct (deadline (clock w1) ttl) as [d|].
  - split; intros Hd.
    + by destruct (Z.ltb_spec d t'); [lia |].
    + by destruct (Z.ltb_spec d t'); [| lia].
  - split; [done | intros Hd; by destruct Hd].
Qed.

End Hits.

(** A scrape function that takes 250 ms and finds a page, and one that
    must not be needed. *)
Lemma cachedScrape_served_until_expiry_witness :
  let found : string -> ScrapeParams -> M (MockWorld string) (option string) :=
    fun _ _ w => (Ok (Some "<h1>Guide</h1>"), mkWorld (store w) (clock w + 250)) in
  let failing : string -> ScrapeParams -> M (MockWorld string) (option string) :=
    fun _ _ w => (Throw (Errors.ThrownError "net::ERR_FAILED"), w) in
  exists w2,
    cachedScrape 3600 stringifyScalar "https://docs.example.com/guide" found
      [("depth", SNum 2); ("images", SBool false)] noOptions (mkWorld ∅ 1000)
    = (Ok (Some "<h1>Guide</h1>"), w2) /\
    (cachedScrape 3600 stringifyScalar "https://docs.example.com/guide" failing
       [("images", SBool false); ("depth", SNum 2)] noOptions
       (set_clock 3601250 w2)).1
    = Ok (Some "<h1>Guide</h1>").
Proof.
  intros found failing.
  destruct (cachedScrape_served_until_expiry stringifyScalar 3600
              "https://docs.example.com/guide" found failing
              [("depth", SNum 2); ("images", SBool false)]
              [("images", SBool false); ("depth", SNum 2)]
              noOptions noOptions "<h1>Guide</h1>" 3601250
              (mkWorld ∅ 1000) (mkWorld ∅ 1000) (mkWorld ∅ 1250))
    as (w2 & Hfirst & Halive & _).
  - by apply (bool_decide_unpack _).
  - apply Permutation_swap.
  - done.
  - done.
  - done.
  - exists w2. split; [done |]. rewrite Halive; [done |]. by vm_compute.
Defined.

End CacheMoreFacts.

(** ** The scraper base class and the API route *)

Module ScraperFacts.
Import KV Typed Errors RateLimit RateLimitMore Cache Validators Timeout Scraper.
Import RateLimitFacts RateLimitMoreFacts ValidatorsFacts.

Section Lifting.
Context {T : Type}.
Implicit Types (w : ScrapeWorld T).

(** Seen through the two-map view of the store, an admission is the
    admission on the rate-limit records. *)
Lemma admission_on_records domain maxRequests windowMs w :
  checkAndIncrementRateLimit (H := StoreA) domain maxRequests windowMs w
  = onA (checkAndIncrementRateLimit domain maxRequests windowMs) w.
Proof.
  unfold checkAndIncrementRateLimit, checkRateLimit, incrementRateLimit,
    notLimited, bind, try_catch, ret, Date_now, onA.
  cbn [kv_get kv_set StoreA MockKV now]. unfold onA, mock_get, mock_set.
  set (key := keyOf domain). cbn [store clock storeA storeB clock2].
  destruct (storeA w !! key) as [item|] eqn:Hitem;
    [destruct (expired item (clock2 w)) eqn:Hexp;
      [| destruct (value item) as [data|] eqn:Hval;
         [destruct (clock2 w >? reset data) eqn:Hopen;
           [| destruct (maxRequests - count data <=? 0) eqn:Hfull] |] ] |];
    cbn [store clock storeA storeB clock2 Info.limited];
    rewrite ?Hopen, ?Hfull; cbn [store clock storeA storeB clock2 Info.limited];
    rewrite ?lookup_delete_eq, ?Hitem, ?Hexp, ?Hval, ?Hopen;
    cbn [store clock storeA storeB clock2 Info.limited];
    rewrite ?Hopen; done.
Qed.

Lemma admitAt_ok domain maxRequests windowMs (t : Z) (m : MockWorld Window) :
  exists info,
    (admitAt domain maxRequests windowMs t m).1 = Ok info /\
    clock (admitAt domain maxRequests windowMs t m).2 = t.
Proof.
  rewrite admitAt_model. unfold admitModel.
  destruct (activeWindow domain t m) as [data|]; [| by eexists].
  destruct (maxRequests - count data <=? 0); by eexists.
Qed.

(** An admission in an open window with count [c]. *)
Lemma admission_counted domain maxRequests windowMs (c until : Z) w :
  CountIs domain c until (viewA w) -> clock2 w <= until ->
  exists info w',
    checkAndIncrementRateLimit (H := StoreA) domain maxRequests windowMs w
    = (Ok info, w') /\
    Info.limited info = negb (c + 1 <? maxRequests) /\
    CountIs domain (if c <? maxRequests then c + 1 else c) until (viewA w') /\
    storeB w' = storeB w /\ clock2 w' = clock2 w.
Proof.
  intros Hcount Ht. rewrite admission_on_records. unfold onA.
  pose proof (CountIs_step domain maxRequests windowMs c until (clock2 w)
                (viewA w) Hcount Ht) as Hstep.
  destruct (admitAt_ok domain maxRequests windowMs (clock2 w) (viewA w))
    as (info & Hinfo & Hclock).
  unfold admitAt in *. change (set_clock (clock2 w) (viewA w)) with
    (mkWorld (storeA w) (clock2 w)) in *.
  destruct (checkAndIncrementRateLimit domain maxRequests windowMs
              (mkWorld (storeA w) (clock2 w))) as [r m].
  cbn [fst snd] in *. subst r. destruct Hstep as [Hallowed Hnext].
  exists info. eexists. split; [done |]. cbn [storeA storeB clock2].
  split; [| split; [| done]].
  - cbn [allowed] in Hallowed. injection Hallowed as Hallowed.
    by rewrite <- Hallowed, negb_involutive.
  - unfold viewA. cbn [storeA clock2]. by destruct m.
Qed.

(** The admission that opens a window. *)
Lemma admission_fresh domain maxRequests windowMs w :
  activeWindow domain (clock2 w) (viewA w) = None ->
  exists info w',
    checkAndIncrementRateLimit (H := StoreA) domain maxRequests windowMs w
    = (Ok info, w') /\
    Info.limited info = false /\
    CountIs domain 1 (clock2 w + windowMs) (viewA w') /\
    storeB w' = storeB w /\ clock2 w' = clock2 w.
Proof.
  intros Hnone. rewrite admission_on_records. unfold onA.
  pose proof (admitAt_model domain maxRequests windowMs (clock2 w) (viewA w))
    as Hmodel.
  unfold admitAt, admitModel in Hmodel. rewrite Hnone in Hmodel.
  change (set_clock (clock2 w) (viewA w)) with
    (mkWorld (storeA w) (clock2 w)) in Hmodel.
  rewrite Hmodel. eexists _, _. split; [done |].
  cbn [Info.limited storeA storeB clock2]. split; [done |].
  split; [| done].
  intros t Ht. exists (mkWindow 1 (clock2 w + windowMs)). split; [| done].
  unfold activeWindow, viewA. cbn [store storeA clock2].
  rewrite lookup_insert_eq.
  rewrite itemAt_kept; cbn [reset value itemAt]; [| | lia].
  - destruct (Z.gtb_spec t (clock2 w + windowMs)); [lia | done].
  - pose proof (ceil_div_covers windowMs). lia.
Qed.

Lemma CountIs_records domain (c until : Z) w w' :
  storeA w' = storeA w ->
  CountIs domain c until (viewA w) -> CountIs domain c until (viewA w').
Proof.
  intros Hsame Hcount t Ht. destruct (Hcount t Ht) as (data & Hact & Hc).
  exists data. split; [| done].
  unfold activeWindow, viewA in *. cbn [store] in *. by rewrite Hsame.
Qed.

End Lifting.

Section Requests.
Context {T V : Type}.
Variable parseURL : string -> option ParsedURL.
Variable DEFAULT_CACHE_TTL : Z.
Variable stringify : V -> string.
Variable browse : string -> BaseScraper -> string -> M (ScrapeWorld T) (option T).
Variable close : M (ScrapeWorld T) unit.
Hypothesis browse_harmless : forall kind this url, Harmless (browse kind this url).
Hypothesis close_harmless : Harmless close.
Implicit Types (w : ScrapeWorld T).

Abbreviation scrape' :=
  (scrape (limits := StoreA) (cache := StoreB)
     parseURL DEFAULT_CACHE_TTL stringify browse).
Abbreviation handler'' :=
  (handler (limits := StoreA) (cache := StoreB)
     parseURL DEFAULT_CACHE_TTL stringify browse close).

Lemma cachedScrape_harmless (url : string)
    (scrapeFunction : string -> ScrapeParams -> M (ScrapeWorld T) (option T))
    (params : @ScrapeParams V) (options : CacheOptions) :
  Harmless (scrapeFunction url params) ->
  Harmless (cachedScrape (H := StoreB) DEFAULT_CACHE_TTL stringify url
              scrapeFunction params options).
Proof.
  intros Hf w.
  unfold cachedScrape, getOrSetCachedValue, getCachedValue, setCachedValue,
    try_catch, bind, ret.
  cbn [kv_get kv_set StoreB]. unfold onB, mock_get, mock_set.
  cbn [store clock storeA storeB clock2].
  set (key := generateCacheKey _ _ _ _).
  destruct (storeB w !! key) as [item|];
    [destruct (expired item (clock2 w));
      [| destruct (value item) as [v|]; [by eexists _, _ |] ] |];
    (match goal with
     | |- context [scrapeFunction url params ?w0] =>
         destruct (Hf w0) as (a & w1 & -> & Hsame)
     end);
    (eexists _, _; split; [done |]; by cbn [storeA] in * ).
Qed.

Lemma scrape_after_admission (kind : string) (options : BaseScraperOptions)
    (url : string) :
  Harmless
    (let this := new_BaseScraper DEFAULT_CACHE_TTL options in
     if isTrue (this_cacheEnabled this) then
       cachedScrape (H := StoreB) DEFAULT_CACHE_TTL stringify url
         (fun targetUrl _ => browse kind this targetUrl) ([] : @ScrapeParams V)
         (mkOptions (this_cacheTtl this) (Some "scrape"))
     else browse kind this url).
Proof.
  cbn zeta. destruct (isTrue _).
  - apply cachedScrape_harmless. apply browse_harmless.
  - apply browse_harmless.
Qed.

(** [scrape] in an open window with count [c]: the scraper's own
    admission comes first. *)
Lemma scrape_counted domain (kind : string) (options : BaseScraperOptions)
    (url : string) (c until : Z) w :
  extractDomain parseURL url = domain ->
  isTrue (spread (Some true) (rateLimit options)) = true ->
  CountIs domain c until (viewA w) -> clock2 w <= until ->
  exists w',
    CountIs domain (if c <? 60 then c + 1 else c) until (viewA w') /\
    if c + 1 <? 60
    then exists result, scrape' kind options url w = (Ok result, w')
    else scrape' kind options url w = (Throw (refusal parseURL url), w').
Proof.
  intros Hdomain Hlimit Hcount Ht.
  unfold scrape, scrapeWithCache, checkRateLimits.
  cbn [new_BaseScraper this_rateLimit]. rewrite Hlimit. cbn [negb].
  rewrite Hdomain. unfold bind, ret.
  destruct (admission_counted domain DEFAULT_maxRequests DEFAULT_windowMs
              c until w Hcount Ht)
    as (info & w1 & Hadm & Hlimited & Hnext & _ & _).
  rewrite Hadm, Hlimited, negb_involutive.
  unfold DEFAULT_maxRequests in *.
  destruct (c + 1 <? 60); cbn [negb].
  - destruct (scrape_after_admission kind options url w1)
      as (result & w2 & Hrun & Hsame).
    cbn zeta in Hrun. rewrite Hrun.
    exists w2. split; [by apply (CountIs_records _ _ _ w1) |].
    by exists result.
  - exists w1. by split.
Qed.

Lemma valid_supported (url type : string) (timeout : option Z) :
  valid (validateScraperRequest parseURL (mkRequest url type timeout)
           noRequestOptions) = true ->
  arrayIncludes supported type = true.
Proof.
  unfold validateScraperRequest.
  cbn [spread prop urlValidationOptions maxTimeout allowedScraperTypes
       DEFAULT_SCRAPER_REQUEST_VALIDATION_OPTIONS noRequestOptions
       default from_option id Validators.url Validators.type].
  destruct (valid (validateUrl parseURL url _)) eqn:Hurl; cbn [negb].
  - unfold givenAnd. fold supported.
    by destruct (arrayIncludes supported type).
  - by rewrite Hurl.
Qed.

(** The handler from its own admission on. *)
Lemma serve_admitted domain (req : ApiRequest) (info : RateLimitInfo)
    (c until : Z) w w1 :
  Billable parseURL domain req ->
  checkAndIncrementRateLimit (H := StoreA) domain DEFAULT_maxRequests
    DEFAULT_windowMs w = (Ok info, w1) ->
  CountIs domain c until (viewA w1) -> clock2 w1 <= until ->
  exists response w',
    handler'' Settles req w = (Ok response, w') /\
    status response
    = (if Info.limited info then 429
       else if c + 1 <? 60 then 200 else refusalStatus domain) /\
    CountIs domain
      (if Info.limited info then c else if c <? 60 then c + 1 else c)
      until (viewA w').
Proof.
  intros (Hmethod & url & Hurl & Hne & Hvalid & Hdomain & Hlimit) Hadm Hcount Ht.
  unfold handler. rewrite Hmethod, Hurl. cbn [String.eqb Ascii.eqb Bool.eqb negb].
  apply JSFacts.truthy_spec in Hne. rewrite Hne, Hvalid. cbn [negb].
  rewrite (valid_supported _ _ _ Hvalid), Hdomain.
  unfold try_catch at 1. unfold bind at 1. rewrite Hadm.
  destruct (Info.limited info).
  - unfold ret. by eexists _, _.
  - destruct (scrape_counted domain (queryType req) (bodyOptions req) url
                c until w1 Hdomain Hlimit Hcount Ht) as (w2 & Hnext & Hscrape).
    unfold withTimeout, try_catch, bind, ret, throw.
    destruct (c + 1 <? 60).
    + destruct Hscrape as [result ->].
      destruct (close_harmless w2) as ([] & w3 & -> & Hsame).
      eexists _, _. split; [done |]. split; [done |].
      by apply (CountIs_records _ _ _ w2).
    + rewrite Hscrape.
      destruct (close_harmless w2) as ([] & w3 & -> & Hsame).
      eexists _, _. split; [done |]. split.
      * cbn [status failure handleError]. unfold refusalStatus, refusal.
        by rewrite Hdomain.
      * by apply (CountIs_records _ _ _ w2).
Qed.

Lemma serve_counted domain (req : ApiRequest) (c until : Z) w :
  Billable parseURL domain req ->
  CountIs domain c until (viewA w) -> clock2 w <= until ->
  exists response w',
    handler'' Settles req w = (Ok response, w') /\
    status response
    = (if c + 2 <? 60 then 200
       else if c + 1 <? 60 then refusalStatus domain else 429) /\
    CountIs domain (Z.max c (Z.min (c + 2) 60)) until (viewA w').
Proof.
  intros Hreq Hcount Ht.
  destruct (admission_counted domain DEFAULT_maxRequests DEFAULT_windowMs
              c until w Hcount Ht)
    as (info & w1 & Hadm & Hlimited & Hnext & _ & Hclock).
  destruct (serve_admitted domain req info _ until w w1 Hreq Hadm Hnext
              ltac:(lia)) as (response & w' & Hrun & Hstatus & Hafter).
  exists response, w'. split; [done |].
  rewrite Hstatus, Hlimited. unfold DEFAULT_maxRequests in *.
  rewrite Hlimited in Hafter. clear Hstatus Hrun Hadm Hlimited Hnext.
  destruct (Z.ltb_spec (c + 1) 60); destruct (Z.ltb_spec c 60); try lia;
    cbn [negb] in *.
  - split.
    + replace (c + 1 + 1) with (c + 2) by lia.
      by destruct (Z.ltb_spec (c + 2) 60).
    + destruct (Z.ltb_spec (c + 1) 60); [| lia].
      by replace (Z.max c (Z.min (c + 2) 60)) with (c + 1 + 1) by lia.
  - split.
    + by destruct (Z.ltb_spec (c + 2) 60); [lia |].
    + by replace (Z.max c (Z.min (c + 2) 60)) with (c + 1) by lia.
  - split.
    + by destruct (Z.ltb_spec (c + 2) 60); [lia |].
    + by replace (Z.max c (Z.min (c + 2) 60)) with c by lia.
Qed.

Lemma serve_sequence domain (until : Z) (requests : list (ApiRequest * Z)) :
  Forall (fun request => Billable parseURL domain request.1
                         /\ request.2 <= until) requests ->
  forall (i : nat) w,
    CountIs domain (Z.min (2 * Z.of_nat i) 60) until (viewA w) ->
    map statusOf
      (serveAll parseURL DEFAULT_CACHE_TTL stringify browse close requests w).1
    = map (windowStatus domain) (seq i (length requests)).
Proof.
  induction 1 as [|[req t] requests [Hreq Ht] _ IH]; intros i w Hcount; [done |].
  cbn [serveAll length seq map fst snd] in *. unfold serveAt.
  destruct (serve_counted domain req (Z.min (2 * Z.of_nat i) 60) until
              (at_time t w) Hreq)
    as (response & w1 & -> & Hstatus & Hnext); [| done |].
  { by apply (CountIs_records _ _ _ w). }
  assert (Hcount1 : CountIs domain (Z.min (2 * Z.of_nat (S i)) 60) until
                      (viewA w1)).
  { replace (Z.min (2 * Z.of_nat (S i)) 60)
      with (Z.max (Z.min (2 * Z.of_nat i) 60)
              (Z.min (Z.min (2 * Z.of_nat i) 60 + 2) 60)) by lia.
    done. }
  specialize (IH (S i) w1 Hcount1).
  destruct (serveAll _ _ _ _ _ requests w1) as [rs w2].
  cbn [fst map statusOf] in *. rewrite IH, Hstatus. f_equal.
  unfold windowStatus. f_equal.
  destruct (Nat.ltb_spec i 29); destruct (Nat.eqb_spec i 29);
    destruct (Z.ltb_spec (Z.min (2 * Z.of_nat i) 60 + 2) 60);
    destruct (Z.ltb_spec (Z.min (2 * Z.of_nat i) 60 + 1) 60);
    done || lia.
Qed.

Lemma refusalStatus_server_error domain :
  In (refusalStatus domain) [408; 503; 500].
Proof.
  unfold refusalStatus, handleError.
  destruct (_ || _); [cbn; tauto |].
  destruct (_ || _); [cbn; tauto |].
  destruct (_ || _); cbn; tauto.
Qed.


End Requests.

Section Sharing.
Context {T V : Type}.
Variable parseURL : string -> option ParsedURL.
Variable DEFAULT_CACHE_TTL : Z.
Variable stringify : V -> string.
Implicit Types (w : ScrapeWorld T)
  (browse : string -> BaseScraper -> string -> M (ScrapeWorld T) (option T)).

Abbreviation scrapeBy browse :=
  (scrape (limits := StoreA) (cache := StoreB)
     parseURL DEFAULT_CACHE_TTL stringify browse).

(** The scraper's own admission, when it lets the request through,
    leaves the cache and the clock as they are. *)
Lemma admission_passes (options : BaseScraperOptions) (url : string) w :
  Passes parseURL options url w ->
  exists w1,
    (let this := new_BaseScraper DEFAULT_CACHE_TTL options in
     if isTrue (this_rateLimit this) then
       bind (checkRateLimits (limits := StoreA) parseURL this url)
         (fun allowed =>
            if negb allowed then throw (refusal parseURL url) else ret tt)
     else ret tt) w = (Ok tt, w1) /\
    storeB w1 = storeB w /\ clock2 w1 = clock2 w.
Proof.
  cbn zeta. cbn [new_BaseScraper this_rateLimit].
  intros [-> | Hpasses]; [by exists w |].
  destruct (isTrue _); [| by exists w].
  unfold checkRateLimits. cbn [this_rateLimit].
  destruct (isTrue _); cbn [negb]; [| by exists w].
  unfold bind, ret.
  destruct Hpasses as [Hnone | (c & until & Hc & Ht & Hcount)].
  - destruct (admission_fresh _ DEFAULT_maxRequests DEFAULT_windowMs w Hnone)
      as (info & w1 & -> & -> & _ & HB & Hclock).
    by exists w1.
  - destruct (admission_counted _ DEFAULT_maxRequests DEFAULT_windowMs
                c until w Hcount Ht) as (info & w1 & -> & -> & _ & HB & Hclock).
    unfold DEFAULT_maxRequests. destruct (Z.ltb_spec (c + 1) 60); [| lia].
    by exists w1.
Qed.

(** With rate limiting on and the window of the domain used up, [scrape]
    is refused before the cache is looked at. *)
Lemma scrape_refused browse (kind : string) (options : BaseScraperOptions)
    (url : string) (c until : Z) w :
  isTrue (spread (Some true) (rateLimit options)) = true ->
  CountIs (extractDomain parseURL url) c until (viewA w) ->
  clock2 w <= until -> 60 <= c + 1 ->
  exists w',
    scrapeBy browse kind options url w = (Throw (refusal parseURL url), w') /\
    storeB w' = storeB w.
Proof.
  intros Hlimit Hcount Ht Hc.
  unfold scrape, scrapeWithCache, checkRateLimits.
  cbn [new_BaseScraper this_rateLimit]. rewrite Hlimit. cbn [negb].
  unfold bind, ret.
  destruct (admission_counted _ DEFAULT_maxRequests DEFAULT_windowMs
              c until w Hcount Ht) as (info & w1 & -> & -> & _ & HB & _).
  unfold DEFAULT_maxRequests. destruct (Z.ltb_spec (c + 1) 60); [lia |].
  by exists w1.
Qed.

(** X22. The cache entry of a scrape is keyed by the URL alone, and the
    scraper's rate limit check comes before the cache. A [scrape] that
    passes the check and misses the cache stores what the browser
    produced under the key of the URL. When a live entry is stored under
    that key, a [scrape] that passes the check returns it for every
    scraper type and every option set with caching on, without opening
    the browser and without touching the cache; a [scrape] that the
    check refuses rejects with the rate limit error, live entry or
    not. *)
Theorem scrape_cache_ignores_type (url : string) (v : T) :
  (forall browse kind options w,
     Caching options -> Passes parseURL options url w ->
     storeB w !! scrapeKey stringify url = None ->
     (forall this w0, exists w',
        browse kind this url w0 = (Ok (Some v), w')) ->
     exists w' e,
       scrapeBy browse kind options url w = (Ok (Some v), w') /\
       storeB w' !! scrapeKey stringify url = Some (mkItem (Some v) e)) /\
  (forall browse kind options w item,
     Caching options -> Passes parseURL options url w ->
     storeB w !! scrapeKey stringify url = Some item ->
     value item = Some v -> expired item (clock2 w) = false ->
     exists w',
       scrapeBy browse kind options url w = (Ok (Some v), w') /\
       storeB w' = storeB w) /\
  (forall browse kind options w item c until,
     isTrue (spread (Some true) (rateLimit options)) = true ->
     CountIs (extractDomain parseURL url) c until (viewA w) ->
     clock2 w <= until -> 60 <= c + 1 ->
     storeB w !! scrapeKey stringify url = Some item ->
     value item = Some v -> expired item (clock2 w) = false ->
     exists w',
       scrapeBy browse kind options url w
       = (Throw (refusal parseURL url), w') /\
       storeB w' = storeB w).
Proof.
  split; [| split].
  - intros browse kind options w Hcaching Hpasses Hmiss Hbrowse.
    destruct (admission_passes options url w Hpasses) as (w1 & Hadm & HB & Hclock).
    unfold scrape, scrapeWithCache. unfold bind at 1. cbn zeta in Hadm.
    rewrite Hadm. cbn [new_BaseScraper this_cacheEnabled]. rewrite Hcaching.
    unfold cachedScrape, getOrSetCachedValue, getCachedValue, setCachedValue,
      try_catch, bind, ret.
    cbn [kv_get kv_set StoreB namespace default from_option id].
    unfold onB, mock_get, mock_set. cbn [store clock storeA storeB clock2].
    fold (scrapeKey stringify url). rewrite HB, Hmiss.
    match goal with
    | |- context [browse kind ?this url ?w0] =>
        destruct (Hbrowse this w0) as (w2 & ->)
    end.
    eexists _, _. split; [done |]. cbn [storeB]. by rewrite lookup_insert_eq.
  - intros browse kind options w item Hcaching Hpasses Hitem Hvalue Hlive.
    destruct (admission_passes options url w Hpasses) as (w1 & Hadm & HB & Hclock).
    unfold scrape, scrapeWithCache. unfold bind at 1. cbn zeta in Hadm.
    rewrite Hadm. cbn [new_BaseScraper this_cacheEnabled]. rewrite Hcaching.
    unfold cachedScrape, getOrSetCachedValue, getCachedValue, setCachedValue,
      try_catch, bind, ret.
    cbn [kv_get kv_set StoreB namespace default from_option id].
    unfold onB, mock_get, mock_set. cbn [store clock storeA storeB clock2].
    fold (scrapeKey stringify url). rewrite HB, Hclock, Hitem, Hlive, Hvalue.
    eexists. split; [done |]. by cbn [storeB].
  - intros browse kind options w item c until Hlimit Hcount Ht Hc _ _ _.
    by apply (scrape_refused browse kind options url c until).
Qed.

End Sharing.


Lemma scrape_cache_ignores_type_witness :
  (exists w' e,
     scrape (limits := StoreA) (cache := StoreB) sampleParser 3600
       stringifyScalar sampleBrowse "news" noScraperOptions guide
       (mkTwo ∅ ∅ 1000)
     = (Ok (Some ("news " ++ guide)), w') /\
     storeB w' !! scrapeKey stringifyScalar guide
     = Some (mkItem (Some ("news " ++ guide)) e)) /\
  (exists w',
     scrape (limits := StoreA) (cache := StoreB) sampleParser 3600
       stringifyScalar noBrowser "ecommerce"
       (mkScraperOptions Missing (Given 60) (Given false)) guide
       (mkTwo ∅
          {[ scrapeKey stringifyScalar guide
             := mkItem (Some ("news " ++ guide)) (Some 3601250) ]} 3601250)
     = (Ok (Some ("news " ++ guide)), w') /\
     storeB w'
     = {[ scrapeKey stringifyScalar guide
          := mkItem (Some ("news " ++ guide)) (Some 3601250) ]}) /\
  (scrape (limits := StoreA) (cache := StoreB) sampleParser 3600
     stringifyScalar sampleBrowse "news" noScraperOptions guide busyWorld).1
  = Throw (ThrownError "Rate limit exceeded for domain: docs.example.com").
Proof.
  destruct (scrape_cache_ignores_type (T := string) sampleParser 3600
              stringifyScalar guide ("news " ++ guide))
    as (Hmiss & Hhit & Hrefused).
  split; [| split].
  - apply Hmiss.
    + done.
    + right. by left.
    + done.
    + intros this w0. by eexists.
  - destruct (Hhit noBrowser "ecommerce"
                (mkScraperOptions Missing (Given 60) (Given false))
                (mkTwo ∅
                   {[ scrapeKey stringifyScalar guide
                      := mkItem (Some ("news " ++ guide)) (Some 3601250) ]}
                   3601250)
                (mkItem (Some ("news " ++ guide)) (Some 3601250)))
      as (w' & Hrun & Hsame).
    + done.
    + by left.
    + apply lookup_singleton_eq.
    + done.
    + done.
    + exists w'. by split.
  - destruct (Hrefused sampleBrowse "news" noScraperOptions busyWorld
                (mkItem (Some ("news " ++ guide)) None) 60 70000)
      as (w' & Hrun & _).
    + done.
    + intros t Ht. exists (mkWindow 60 70000). split; [| done].
      change (extractDomain sampleParser guide) with "docs.example.com".
      unfold activeWindow, viewA, busyWorld. cbn [store storeA].
      rewrite lookup_singleton_eq. cbn [expired expiry value reset].
      by destruct (Z.gtb_spec t 70000); [lia |].
    + cbn. lia.
    + lia.
    + apply lookup_singleton_eq.
    + done.
    + done.
    + by rewrite Hrun.
Defined.

End ScraperFacts.

(** ** Product availability *)

Module ShopFacts.
Import JS Shop JSFacts.

Section Page.
Context {E : Type}.
Variable this_timeout : Z.
Implicit Types (page : ShopPage E).

Lemma waitForSelector_shows page (selector : string) :
  waitForSelector this_timeout page selector (Some 100) = true
  <-> Shows page selector.
Proof.
  unfold waitForSelector, Shows. cbn [Z.eqb].
  destruct (pageWaitForSelector page selector 100) as [u|e];
    split; try done; [by exists u | by intros [? ?]].
Qed.

Lemma anyPresent_exists page (selectors : list string) :
  anyPresent this_timeout page selectors = true
  <-> Exists (Shows page) selectors.
Proof.
  induction selectors as [|selector rest IH]; cbn [anyPresent].
  - split; [done | by intros ?%Exists_nil].
  - rewrite Exists_cons, <- IH, <- waitForSelector_shows.
    destruct (waitForSelector _ _ _ _); split; auto. by intros [? | ?].
Qed.

(** X23. A product is reported unavailable in exactly two cases: no
    in-stock mark shows up and an out-of-stock mark does; or no mark of
    either kind shows up and the availability meta tag has a content
    without [instock] in any letter case. In particular an in-stock
    mark outweighs every out-of-stock mark and the meta tag, and a page
    without any hint counts as available. *)
Theorem extractAvailability_false_iff page :
  extractAvailability this_timeout page = false
  <-> ~ Exists (Shows page) availableSelectors /\
      (Exists (Shows page) unavailableSelectors \/ MetaSaysOut page).
Proof.
  unfold extractAvailability.
  destruct (anyPresent _ page availableSelectors) eqn:Hin.
  - apply anyPresent_exists in Hin. split; [done | by intros [? _]].
  - assert (Hnone : ~ Exists (Shows page) availableSelectors).
    { intros Hex%anyPresent_exists. congruence. }
    destruct (anyPresent _ page unavailableSelectors) eqn:Hout.
    + apply anyPresent_exists in Hout. split; [by intros _; split; [| left] | done].
    + assert (Hnone' : ~ Exists (Shows page) unavailableSelectors).
      { intros Hex%anyPresent_exists. congruence. }
      unfold MetaSaysOut.
      destruct (evalContent page availabilityMeta) as [[content|]|e].
      * rewrite or_else_empty.
        destruct (truthy content) eqn:Htruthy.
        -- apply truthy_spec in Htruthy. rewrite includes_false. split.
           ++ intros Hno. split; [done |]. right. by exists content.
           ++ intros [_ [? | (c & [= <-] & _ & Hno)]]; done.
        -- apply not_true_iff_false in Htruthy. rewrite truthy_spec in Htruthy.
           split; [done |].
           intros [_ [? | (c & [= <-] & Hne & _)]]; [done |].
           by destruct Htruthy.
      * split; [done |]. by intros [_ [? | (c & ? & _)]].
      * split; [done |]. by intros [_ [? | (c & ? & _)]].
Qed.

End Page.

Lemma extractAvailability_false_iff_witness :
  extractAvailability 30000 mixedPage = true /\
  extractAvailability 30000 metaPage = false.
Proof.
  split.
  - apply not_false_iff_true.
    intros [Hnone _]%extractAvailability_false_iff. apply Hnone.
    unfold availableSelectors. do 2 apply Exists_cons_tl. apply Exists_cons_hd.
    by exists tt.
  - apply extractAvailability_false_iff. split.
    + unfold availableSelectors. intros Hex.
      repeat (apply Exists_cons in Hex as [[u Hu] | Hex]; [discriminate Hu |]).
      by apply Exists_nil in Hex.
    + right. exists "https://schema.org/SoldOut".
      split; [done |]. split; [done |].
      intros Hinc%includes_spec. by vm_compute in Hinc.
Defined.

End ShopFacts.
